(** * The outgoing-message dispatcher of librelay-node

    A shallow embedding of [class OutgoingMessage] (the second document of
    [src/storage/backbone-localstorage.js], lines 227-490) and the
    properties its specification states about it.

    Conventions of the embedding.
    - JavaScript numbers that hold lengths, device ids, status codes and
      timestamps are integers ([Z]); [Math.floor (a / b)] is [a / b] and
      [a % b] is [Z.rem a b].  Device ids are safe integers, which
      JavaScript writes into a string with their decimal digits.
    - A [Buffer] is a list of bytes; the cipher dictionary of
      [doSendMessage], keyed by device id, is a [gmap].  The object
      [_listeners] is a [gmap] of its own properties, looked up together
      with what a plain object inherits from [Object.prototype].
    - An [async] method is a function from the dispatcher's state to an
      outcome (a value, a thrown error, or out of fuel) and a new state.
      The state is the object ([this]) and the [trace] of everything done
      so far.
    - The collaborators the class does not define (storage, the signal
      transport, libsignal's session builder and cipher, the registered
      callbacks, the clock) are an oracle [Env]: each operation answers from
      the trace so far, so an answer may depend on every earlier call.
      Callbacks are oracles too; of what a callback does to its argument,
      only setting [accepted] is modelled.
    - Scheduling.  A call whose promise is not awaited ([emitError] and
      [emitSent] in [doSendMessage] and [sendToAddr]) runs to its end where
      it is called.  The jobs of a [Promise.all] are async functions that
      were called one after the other: each ran until its first [await], so
      the operations they wait for were all called, in array order, before
      any answer is looked at.  In which order those answers arrive is up
      to the collaborators, here the oracle [Promise_race]; a job goes on
      when its answer arrives and is then followed to its end (the rests of
      two jobs are not interleaved).  The first job that rejects rejects
      the [Promise.all].  Nothing awaits the jobs still pending then: they
      go on while the caller does, and what they return or throw is lost.
      The trace lists what they record before what the caller records
      next; between these events the order in the trace tells nothing
      about time.
    - [doSendMessage] and [reloadDevicesAndSend] call each other for as
      long as the server answers 409, so they take [fuel]; running out of
      it is the outcome [Starved], which no [try]/[catch] intercepts.
    - The trace also holds two ghost marks, the entries into
      [getKeysForAddr] and [reloadDevicesAndSend] with their flags. *)

From Stdlib Require Import ZArith List Lia.
From stdpp Require Import base option list gmap strings pretty.

Set Warnings "-register-all".

Local Open Scope Z_scope.

(** ** Plain data *)

Abbreviation Addr := string (only parsing).
Abbreviation DeviceId := Z (only parsing).
Abbreviation Bytes := (list Byte.byte) (only parsing).
Abbreviation Key := (list Byte.byte) (only parsing).

Definition byteLength (b : Bytes) : Z := Z.of_nat (length b).

(** ** Padding (lines 371-378 and 383-386) *)

Definition getPaddedMessageLength (messageLength : Z) : Z :=
  let messageLengthWithTerminator := messageLength + 1 in
  let messagePartCount := messageLengthWithTerminator / 160 in
  let messagePartCount :=
    if negb (Z.rem messageLengthWithTerminator 160 =? 0)
    then messagePartCount + 1 else messagePartCount in
  messagePartCount * 160.

(** [new Buffer(size)]: [size] zero bytes (Node 8 and later fill the
    allocation with zeros); a negative size raises a RangeError ([None]). *)
Definition Buffer_alloc (size : Z) : option Bytes :=
  if size <? 0 then None else Some (replicate (Z.to_nat size) Byte.x00).

(** [target.set(source)]: copies [source] at offset 0; a source longer than
    the target raises a RangeError ([None]). *)
Definition Buffer_set (target source : Bytes) : option Bytes :=
  if (length source <=? length target)%nat
  then Some (source ++ drop (length source) target)
  else None.

(** [buf[index] = value]: a store outside the buffer is ignored. *)
Definition Buffer_store (buf : Bytes) (index : Z) (value : Byte.byte) : Bytes :=
  if index <? 0 then buf else <[Z.to_nat index := value]> buf.

(** Lines 383-386 of [doSendMessage]: the padded plaintext of [mBuf]. *)
Definition padMessage (mBuf : Bytes) : option Bytes :=
  let minLen := getPaddedMessageLength (byteLength mBuf + 1) - 1 in
  paddedBuf ← Buffer_alloc minLen;
  paddedBuf ← Buffer_set paddedBuf mBuf;
  Some (Buffer_store paddedBuf (byteLength mBuf) Byte.x80).

(** The padded length as the specification words it,
    [ceil((len + 1) / 160) * 160 - 1]. *)
Definition ceil_div (a b : Z) : Z := (a + b - 1) / b.
Definition spec_paddedLen (len : Z) : Z := ceil_div (len + 1) 160 * 160 - 1.

(** ** Errors, wire data and the collaborators *)

(** The body of a 409 or 410 answer; a field the server left out is
    [undefined] ([None]). *)
Record Response := {
  extraDevices : option (list DeviceId);
  missingDevices : option (list DeviceId);
  staleDevices : option (list DeviceId)
}.

(** One element of the bundle posted to the server ([toJSON], line 435). *)
Record DeviceMessage := {
  msg_type : Z;
  destinationDeviceId : DeviceId;
  destinationRegistrationId : Z;
  content : string
}.

(** What [sessionCipher.encrypt] resolves to. *)
Record EncryptedMsg := {
  enc_type : Z;
  registrationId : Z;
  body : Bytes
}.

(** A device of a pre-key answer; [identityKey] is set by [handleResult]. *)
Record Device := {
  deviceId : DeviceId;
  dev_registrationId : Z;
  signedPreKey : Key;
  preKey : option Key;
  identityKey : option Key
}.

Record KeysResponse := {
  resp_identityKey : Key;
  devices : list Device
}.

Definition with_identityKey (device : Device) (k : Key) : Device :=
  {| deviceId := deviceId device;
     dev_registrationId := dev_registrationId device;
     signedPreKey := signedPreKey device;
     preKey := preKey device;
     identityKey := Some k |}.

Section Dispatcher.

Context {Content : Type}.

(** The error classes of [errors.js] (not among the sources) by the
    constructor calls and field reads of this file.  [JsError] is every
    other thrown value (an [Error], a [TypeError], ...) with its name and
    message. *)
Inductive error :=
| ProtocolError (code : Z) (response : Response)
| JsError (name message : string)
| OutgoingMessageError (addr : Addr) (message : Content) (timestamp : Z)
    (cause : option error)
| OutgoingIdentityKeyError (addr : Addr) (message : Content) (timestamp : Z)
    (identityKey : option Key) (emessage : string) (accepted : bool)
| UnregisteredUserError (addr : Addr) (cause : error)
| SendMessageError (addr : Addr) (jsonData : list DeviceMessage)
    (cause : error) (timestamp : Z).

(** [e instanceof errors.ProtocolError], together with [e.code]. *)
Definition protocol_code (e : error) : option Z :=
  match e with ProtocolError code _ => Some code | _ => None end.

(** [e.message], where this file reads or writes it. *)
Definition error_message (e : error) : string :=
  match e with
  | JsError _ message => message
  | OutgoingIdentityKeyError _ _ _ _ emessage _ => emessage
  | _ => ""
  end.

(** A settled promise of a collaborator. *)
Inductive reply (A : Type) :=
| Resolve (a : A)
| Reject (e : error).
Arguments Resolve {A} a.
Arguments Reject {A} e.

(** An entry of the [sent] log (line 285). *)
Record SentEntry := {
  sent_timestamp : Z;
  sent_addr : Addr
}.

(** An entry of the [errors] log (line 276): the error, with the [addr] and
    [reason] that [emitError] stores on the error object. *)
Record ErrorEntry := {
  entry_timestamp : Z;
  entry_error : error;
  error_addr : Addr;
  error_reason : string
}.

(** The argument an event is emitted with. *)
Inductive EventArg :=
| ArgSent (entry : SentEntry)
| ArgError (entry : ErrorEntry)
| ArgKeyChange (keyError : error).

(** Everything the dispatcher did so far, oldest first: the calls to its
    collaborators, the events it emitted, and (as ghost marks) the entries
    into its two re-entrant methods. *)
Inductive Event :=
| GetDeviceIds (addr : Addr)
| RemoveSession (encodedAddr : string)
| FetchKeys (addr : Addr) (device : option DeviceId)
| ProcessPreKey (addr : Addr) (device : DeviceId)
| HasOpenSession (addr : Addr) (device : DeviceId)
| Encrypt (addr : Addr) (device : DeviceId) (plaintext : Bytes)
| CloseOpenSession (addr : Addr) (device : DeviceId)
| SendMessages (addr : Addr) (jsonData : list DeviceMessage) (timestamp : Z)
    (answer : reply unit)
| Emit (event : string) (arg : EventArg)
| ConsoleError (e : error)
| Enter_getKeysForAddr (addr : Addr) (updateDevices : option (list DeviceId))
    (reentrant : bool)
| Enter_reloadDevicesAndSend (addr : Addr) (recurse : bool).

(** What running one registered callback did: whether it set
    [accepted = true] on its argument, and what it threw, if anything. *)
Record HandlerRun := {
  h_accept : bool;
  h_threw : option error
}.

Definition Handler := list Event -> EventArg -> HandlerRun.

(** The collaborators.  Every operation sees the trace so far.
    [Promise_race t n] tells which of the [n] pending jobs of a
    [Promise.all] is the next to have its answer, counted in array order
    among the pending ones (a number out of range counts modulo [n]). *)
Record Env := {
  Content_encode : Content -> Bytes;
  base64 : Bytes -> string;
  Date_now : list Event -> Z;
  storage_getDeviceIds : list Event -> Addr -> reply (list DeviceId);
  storage_removeSession : list Event -> string -> reply unit;
  signal_getKeysForAddr :
    list Event -> Addr -> option DeviceId -> reply KeysResponse;
  signal_sendMessages :
    list Event -> Addr -> list DeviceMessage -> Z -> reply unit;
  builder_processPreKey : list Event -> Addr -> Device -> reply unit;
  cipher_encrypt : list Event -> Addr -> DeviceId -> Bytes -> reply EncryptedMsg;
  cipher_hasOpenSession : list Event -> Addr -> DeviceId -> reply bool;
  cipher_closeOpenSessionForDevice : list Event -> Addr -> DeviceId -> reply unit;
  Promise_race : list Event -> nat -> nat
}.

(** ** The object and the state *)

Record OutgoingMessage := {
  timestamp : Z;
  message : Content;
  sent : list SentEntry;
  errors : list ErrorEntry;
  created : Z;
  _listeners : gmap string (list Handler)
}.

Record St := {
  this : OutgoingMessage;
  trace : list Event
}.

(** Lines 237-245. *)
Definition constructor (timestamp : Z) (message : Content) (now : Z)
  : OutgoingMessage :=
  {| timestamp := timestamp; message := message; sent := []; errors := [];
     created := now; _listeners := ∅ |}.

Definition TypeError (message : string) : error := JsError "TypeError" message.

(** [_listeners] is a plain object (line 244): besides the properties
    [on] gives it, [this._listeners[event]] finds what every object
    inherits from [Object.prototype] (ECMAScript 2015 and its Annex B). *)
Definition Object_prototype : list string :=
  ["constructor"; "hasOwnProperty"; "isPrototypeOf"; "propertyIsEnumerable";
   "toLocaleString"; "toString"; "valueOf"; "__proto__";
   "__defineGetter__"; "__defineSetter__";
   "__lookupGetter__"; "__lookupSetter__"].

(** What [this._listeners[event]] is when it is not [undefined]: the
    array of callbacks registered under [event], or an inherited value (a
    function or, for [__proto__], the prototype), which is truthy and is no
    array. *)
Inductive Listeners :=
| Handlers (handlers : list Handler)
| Inherited.

Definition listeners_of (o : OutgoingMessage) (event : string)
  : option Listeners :=
  match _listeners o !! event with
  | Some handlers => Some (Handlers handlers)
  | None =>
      if bool_decide (event ∈ Object_prototype) then Some Inherited else None
  end.

(** [this._listeners[event] = handlers]. *)
Definition set_listeners (event : string) (handlers : list Handler)
    (o : OutgoingMessage) : OutgoingMessage :=
  {| timestamp := timestamp o; message := message o; sent := sent o;
     errors := errors o; created := created o;
     _listeners := <[event := handlers]> (_listeners o) |}.

(** Lines 247-253: what the call throws, if it throws, and the object
    after it.  Under an inherited name there is no array to push to:
    [handlers.push] is not a function. *)
Definition on (event : string) (callback : Handler) (o : OutgoingMessage)
  : option error * OutgoingMessage :=
  match listeners_of o event with
  | None => (None, set_listeners event [callback] o)
  | Some (Handlers handlers) =>
      (None, set_listeners event (handlers ++ [callback]) o)
  | Some Inherited => (Some (TypeError "handlers.push is not a function"), o)
  end.

Definition push_error (entry : ErrorEntry) (o : OutgoingMessage)
  : OutgoingMessage :=
  {| timestamp := timestamp o; message := message o; sent := sent o;
     errors := errors o ++ [entry]; created := created o;
     _listeners := _listeners o |}.

Definition push_sent (entry : SentEntry) (o : OutgoingMessage)
  : OutgoingMessage :=
  {| timestamp := timestamp o; message := message o;
     sent := sent o ++ [entry]; errors := errors o; created := created o;
     _listeners := _listeners o |}.

(** ** Asynchronous methods *)

Inductive outcome (A : Type) :=
| Ret (a : A)
| Throw (e : error)
| Starved.
Arguments Ret {A} a.
Arguments Throw {A} e.
Arguments Starved {A}.

Definition Async (A : Type) : Type := St -> outcome A * St.

Definition ret {A} (a : A) : Async A := fun s => (Ret a, s).

Definition bind {A B} (m : Async A) (f : A -> Async B) : Async B :=
  fun s =>
    match m s with
    | (Ret a, s') => f a s'
    | (Throw e, s') => (Throw e, s')
    | (Starved, s') => (Starved, s')
    end.

#[global] Instance Async_ret : MRet Async := @ret.
#[global] Instance Async_bind : MBind Async := fun A B f m => bind m f.

#[global] Instance Async_fmap : FMap Async :=
  fun A B f m => bind m (fun a => ret (f a)).

Definition throw {A} (e : error) : Async A := fun s => (Throw e, s).

Definition starve {A} : Async A := fun s => (Starved, s).

(** [try { m } catch (e) { h e }]. *)
Definition try_catch {A} (m : Async A) (h : error -> Async A) : Async A :=
  fun s =>
    match m s with
    | (Throw e, s') => h e s'
    | r => r
    end.

Definition get_this : Async OutgoingMessage := fun s => (Ret (this s), s).

Definition get_trace : Async (list Event) := fun s => (Ret (trace s), s).

Definition modify_this (f : OutgoingMessage -> OutgoingMessage) : Async unit :=
  fun s => (Ret tt, {| this := f (this s); trace := trace s |}).

Definition log (ev : Event) : Async unit :=
  fun s => (Ret tt, {| this := this s; trace := trace s ++ [ev] |}).

Definition settle {A} (r : reply A) : Async A :=
  match r with Resolve a => ret a | Reject e => throw e end.

(** A collaborator's operation is called: the call is recorded, and the
    promise it returns will settle with the oracle's answer for the trace
    before the call. *)
Definition call {A} (ev : Event) (op : list Event -> reply A)
  : Async (reply A) :=
  t ← get_trace;
  log ev ;;
  ret (op t).

(** [await] of a collaborator's operation. *)
Definition await {A} (ev : Event) (op : list Event -> reply A) : Async A :=
  r ← call ev op;
  settle r.

(** [for (const x of l) { await body(x) }]. *)
Fixpoint for_of {A} (l : list A) (body : A -> Async unit) : Async unit :=
  match l with
  | [] => ret tt
  | x :: l' => body x ;; for_of l' body
  end.

(** A job of a [Promise.all]: an async function that was called and is
    not awaited at once.  Running it gives what it did until its first
    [await] and, as its value, the rest of its body, which runs when the
    promise it waits for has settled. *)
Definition Job (A : Type) : Type := Async (Async A).

(** The jobs are called in array order ([map], or the loop of lines
    302-332). *)
Fixpoint start_all {A} (jobs : list (Job A)) : Async (list (Async A)) :=
  match jobs with
  | [] => ret []
  | job :: jobs' =>
      rest ← job;
      pending ← start_all jobs';
      ret (rest :: pending)
  end.

(** ** The methods of [OutgoingMessage] *)

Context (E : Env).

(** A promise that nothing awaits: what it returns or throws is lost. *)
Definition unawaited {A} (m : Async A) : Async unit :=
  fun s => (Ret tt, (m s).2).

(** The [n] jobs that a rejected [Promise.all] left pending go on in the
    order in which their answers arrive, each to its end. *)
Fixpoint go_on {A} (n : nat) (pending : list (Async A)) : Async unit :=
  match n with
  | O => ret tt
  | S n' =>
      t ← get_trace;
      let k := (Promise_race E t (length pending) mod length pending)%nat in
      match pending !! k with
      | None => ret tt
      | Some rest => unawaited rest ;; go_on n' (delete k pending)
      end
  end.

(** The [n] pending jobs go on in the order in which their answers arrive
    ([Promise_race]), each to its end.  When one throws, [Promise.all] is
    rejected with what it threw and the jobs still pending are left to go
    on; when none throws, the values come in array order. *)
Fixpoint settle_all {A} (n : nat) (pending : list (Async A))
  : Async (list A) :=
  match n with
  | O => ret []
  | S n' =>
      t ← get_trace;
      let k := (Promise_race E t (length pending) mod length pending)%nat in
      match pending !! k with
      | None => ret []
      | Some rest =>
          a ← try_catch rest
                (fun e => go_on n' (delete k pending) ;; throw e);
          values ← settle_all n' (delete k pending);
          ret (take k values ++ a :: drop k values)
      end
  end.

(** [await Promise.all(jobs)]. *)
Definition Promise_all {A} (jobs : list (Job A)) : Async (list A) :=
  pending ← start_all jobs;
  settle_all (length pending) pending.

(** The callbacks of one event, in registration order (the loop of lines
    261-267): a callback that throws is reported on the console and the
    next one runs.  The result tells whether a callback set [accepted]. *)
Fixpoint run_callbacks (handlers : list Handler) (arg : EventArg)
    (accepted : bool) : Async bool :=
  match handlers with
  | [] => ret accepted
  | callback :: handlers' =>
      t ← get_trace;
      let r := callback t arg in
      match h_threw r with
      | Some e => log (ConsoleError e)
      | None => ret tt
      end ;;
      run_callbacks handlers' arg (accepted || h_accept r)
  end.

(** Lines 255-268.  An inherited value is truthy and cannot be iterated:
    the [for] loop throws, and the promise of [emit] is rejected. *)
Definition emit (event : string) (arg : EventArg) : Async bool :=
  o ← get_this;
  log (Emit event arg) ;;
  match listeners_of o event with
  | None => ret false
  | Some (Handlers handlers) => run_callbacks handlers arg false
  | Some Inherited => throw (TypeError "handlers is not iterable")
  end.

(** Line 271-273: which error the entry holds. *)
Definition wrap_error (o : OutgoingMessage) (addr : Addr)
    (err : option error) : error :=
  match err with
  | None => OutgoingMessageError addr (message o) (timestamp o) None
  | Some e =>
      match protocol_code e with
      | Some code =>
          if negb (code =? 404)
          then OutgoingMessageError addr (message o) (timestamp o) (Some e)
          else e
      | None => e
      end
  end.

(** Lines 270-282. *)
Definition emitError (addr : Addr) (reason : string) (err : option error)
  : Async unit :=
  o ← get_this;
  let err := wrap_error o addr err in
  now ← Date_now E <$> get_trace;
  let entry := {| entry_timestamp := now;
                  entry_error := err;
                  error_addr := addr;
                  error_reason := reason |} in
  modify_this (push_error entry) ;;
  emit "error" (ArgError entry) ;;
  ret tt.

(** Lines 284-291. *)
Definition emitSent (addr : Addr) : Async unit :=
  now ← Date_now E <$> get_trace;
  let entry := {| sent_timestamp := now; sent_addr := addr |} in
  modify_this (push_sent entry) ;;
  emit "sent" (ArgSent entry) ;;
  ret tt.

(** [addr + "." + id] (line 462), for a device id that is a safe
    integer. *)
Definition encodedAddr (addr : Addr) (id : DeviceId) : string :=
  addr +:+ "." +:+ pretty id.

(** Lines 460-465.  Iterating [undefined] raises a TypeError. *)
Definition removeDeviceIdsForAddr (addr : Addr)
    (deviceIdsToRemove : option (list DeviceId)) : Async unit :=
  match deviceIdsToRemove with
  | None => throw (TypeError "deviceIdsToRemove is not iterable")
  | Some ids =>
      for_of ids (fun id =>
        await (RemoveSession (encodedAddr addr id))
              (fun t => storage_removeSession E t (encodedAddr addr id)))
  end.

(** The loop of lines 450-456. *)
Fixpoint staleScan (addr : Addr) (deviceIds updateDevices : list DeviceId)
  : Async (list DeviceId) :=
  match deviceIds with
  | [] => ret updateDevices
  | id :: deviceIds' =>
      open ← await (HasOpenSession addr id)
                   (fun t => cipher_hasOpenSession E t addr id);
      staleScan addr deviceIds'
        (if negb (open : bool) then updateDevices ++ [id] else updateDevices)
  end.

(** Lines 444-458. *)
Definition getStaleDeviceIdsForAddr (addr : Addr) : Async (list DeviceId) :=
  deviceIds ← await (GetDeviceIds addr) (fun t => storage_getDeviceIds E t addr);
  if (length deviceIds =? 0)%nat then ret []
  else staleScan addr deviceIds [].

(** One job of [handleResult] (lines 303-331) for the device [x] of
    [response]: it calls [processPreKey] at once and goes on when that has
    settled.  [retry] is the call [getKeysForAddr(addr, updateDevices,
    true)] of line 321. *)
Definition processDevice (retry : Async unit) (addr : Addr)
    (updateDevices : option (list DeviceId)) (reentrant : bool)
    (response : KeysResponse) (x : Device) : Job unit :=
  let device := with_identityKey x (resp_identityKey response) in
  if match updateDevices with
     | None => true
     | Some ids => bool_decide (deviceId device ∈ ids)
     end
  then
    processed ← call (ProcessPreKey addr (deviceId device))
                     (fun t => builder_processPreKey E t addr device);
    ret (try_catch
      (settle processed)
      (fun e =>
         if String.eqb (error_message e) "Identity key changed" then
           o ← get_this;
           let keyError accepted :=
             OutgoingIdentityKeyError addr (message o) (timestamp o)
               (identityKey device) (error_message e) accepted in
           if negb reentrant then
             accepted ← emit "keychange" (ArgKeyChange (keyError false));
             if negb (accepted : bool) then throw (keyError accepted)
             else retry
           else throw (keyError false)
         else throw e))
  else ret (ret tt).

(** Lines 300-334. *)
Definition handleResult (retry : Async unit) (addr : Addr)
    (updateDevices : option (list DeviceId)) (reentrant : bool)
    (response : KeysResponse) : Async unit :=
  Promise_all
    (map (processDevice retry addr updateDevices reentrant response)
         (devices response)) ;;
  ret tt.

(** One turn of the loop of lines 339-350, for [device]. *)
Definition fetchDevice (retry : Async unit) (addr : Addr)
    (updateDevices : option (list DeviceId)) (reentrant : bool)
    (device : DeviceId) : Async unit :=
  try_catch
    (response ← await (FetchKeys addr (Some device))
                      (fun t => signal_getKeysForAddr E t addr (Some device));
     handleResult retry addr updateDevices reentrant response)
    (fun e =>
       if match protocol_code e with
          | Some code => (code =? 404) && negb (device =? 1)
          | None => false
          end
       then removeDeviceIdsForAddr addr (Some [device])
       else throw e).

(** Lines 298-352, with the recursive call of line 321 as [retry]. *)
Definition getKeysForAddr_body (retry : Async unit) (addr : Addr)
    (updateDevices : option (list DeviceId)) (reentrant : bool) : Async unit :=
  log (Enter_getKeysForAddr addr updateDevices reentrant) ;;
  match updateDevices with
  | None =>
      response ← await (FetchKeys addr None)
                       (fun t => signal_getKeysForAddr E t addr None);
      handleResult retry addr updateDevices reentrant response
  | Some ids =>
      for_of ids (fetchDevice retry addr updateDevices reentrant)
  end.

(** [getKeysForAddr] calls itself only with [reentrant = true], and a
    reentrant call never calls itself (see [getKeysForAddr_reentrant_retry]
    below): two levels are the whole recursion. *)
Definition getKeysForAddr (addr : Addr)
    (updateDevices : option (list DeviceId)) (reentrant : bool) : Async unit :=
  getKeysForAddr_body
    (getKeysForAddr_body
       (throw (JsError "Error" "unreachable")) addr updateDevices true)
    addr updateDevices reentrant.

(** Lines 354-369. *)
Definition transmitMessage (addr : Addr) (jsonData : list DeviceMessage)
    (timestamp : Z) : Async unit :=
  t ← get_trace;
  let answer := signal_sendMessages E t addr jsonData timestamp in
  log (SendMessages addr jsonData timestamp answer) ;;
  try_catch (settle answer)
    (fun e =>
       match protocol_code e with
       | Some code =>
           if negb (code =? 409) && negb (code =? 410) then
             if code =? 404 then throw (UnregisteredUserError addr e)
             else throw (SendMessageError addr jsonData e timestamp)
           else throw e
       | None => throw e
       end).

(** Lines 435-442. *)
Definition toJSON (id : DeviceId) (encryptedMsg : EncryptedMsg)
  : DeviceMessage :=
  {| msg_type := enc_type encryptedMsg;
     destinationDeviceId := id;
     destinationRegistrationId := registrationId encryptedMsg;
     content := base64 E (body encryptedMsg) |}.

(** Lines 430-433, called and not awaited (line 393): [encrypt] is called
    at once.  The session cipher is the one of [(addr, id)]. *)
Definition encryptToDevice (addr : Addr) (id : DeviceId) (mBuf : Bytes)
  : Job DeviceMessage :=
  answer ← call (Encrypt addr id mBuf)
                (fun t => cipher_encrypt E t addr id mBuf);
  ret (encrypted ← settle answer;
       ret (toJSON id encrypted)).

(** [new libsignal.SessionCipher(storage, address)]. *)
Record SessionCipher := {
  cipher_addr : Addr;
  cipher_device : DeviceId
}.

(** The dictionary [ciphers] once [deviceIds.map] of line 389 has run. *)
Definition build_ciphers (addr : Addr) (deviceIds : list DeviceId)
  : gmap DeviceId SessionCipher :=
  foldl (fun ciphers id =>
           <[id := {| cipher_addr := addr; cipher_device := id |}]> ciphers)
        ∅ deviceIds.

(** Lines 410-411.  [staleDevices.map] calls [closeOpenSessionForDevice]
    on one cipher after the other; a device id without a cipher stops the
    [map] with a TypeError, whatever the earlier calls did, and
    [Promise.all] is not reached. *)
Definition closeStaleSessions (ciphers : gmap DeviceId SessionCipher)
    (staleDevices : list DeviceId) : Async unit :=
  Promise_all
    (map (fun x =>
            match ciphers !! x with
            | None =>
                throw (TypeError
                  "Cannot read property 'closeOpenSessionForDevice' of undefined")
            | Some cipher =>
                closed ← call (CloseOpenSession (cipher_addr cipher)
                                                (cipher_device cipher))
                              (fun t => cipher_closeOpenSessionForDevice E t
                                          (cipher_addr cipher)
                                          (cipher_device cipher));
                ret (settle closed)
            end) staleDevices) ;;
  ret tt.

(** Lines 389-394: every device's message, in the order of [deviceIds]. *)
Definition encryptAll (addr : Addr) (deviceIds : list DeviceId)
    (paddedBuf : Bytes) : Async (list DeviceMessage) :=
  Promise_all (map (fun id => encryptToDevice addr id paddedBuf) deviceIds).

(** Lines 407-415: what a 409 or 410 answer triggers before the retry. *)
Definition recover (ciphers : gmap DeviceId SessionCipher) (addr : Addr)
    (code : Z) (response : Response) : Async unit :=
  (if code =? 409 then
     removeDeviceIdsForAddr addr (extraDevices response)
   else
     match staleDevices response with
     | None => throw (TypeError "Cannot read property 'map' of undefined")
     | Some stale => closeStaleSessions ciphers stale
     end) ;;
  let resetDevices :=
    if code =? 410 then staleDevices response else missingDevices response in
  getKeysForAddr addr resetDevices false.

(** Lines 293-296, with the method it calls as [doSend]. *)
Definition reloadDevicesAndSend_with
    (doSend : Addr -> list DeviceId -> bool -> Async unit)
    (addr : Addr) (recurse : bool) : Async unit :=
  log (Enter_reloadDevicesAndSend addr recurse) ;;
  deviceIds ← await (GetDeviceIds addr) (fun t => storage_getDeviceIds E t addr);
  doSend addr deviceIds recurse.

(** Lines 380-428.  The two [try] blocks yield, besides their value,
    whether the method goes on ([Some]/[true]) or has returned. *)
Fixpoint doSendMessage (fuel : nat) (addr : Addr) (deviceIds : list DeviceId)
    (recurse : bool) : Async unit :=
  match fuel with
  | O => starve
  | S fuel' =>
    let ciphers := build_ciphers addr deviceIds in
    o ← get_this;
    let mBuf := Content_encode E (message o) in
    match padMessage mBuf with
    | None => throw (JsError "RangeError" "offset is out of bounds")
    | Some paddedBuf =>
      messages ← try_catch
        (Some <$> encryptAll addr deviceIds paddedBuf)
        (fun e => emitError addr "Failed to create message" (Some e) ;;
                  ret None);
      match messages with
      | None => ret tt
      | Some messages =>
        o ← get_this;
        goes_on ← try_catch
          (transmitMessage addr messages (timestamp o) ;; ret true)
          (fun e =>
             match e with
             | ProtocolError code response =>
               if (code =? 410) || (code =? 409) then
                 if negb recurse then
                   emitError addr
                     "Hit retry limit attempting to reload device list"
                     (Some e) ;;
                   ret false
                 else
                   recover ciphers addr code response ;;
                   try_catch
                     (reloadDevicesAndSend_with (doSendMessage fuel')
                        addr (code =? 409) ;;
                      ret true)
                     (fun e =>
                        emitError addr "Failed to reload device keys" (Some e) ;;
                        ret false)
               else
                 emitError addr "Failed to send message" (Some e) ;;
                 ret false
             | _ =>
               emitError addr "Failed to send message" (Some e) ;;
               ret false
             end);
        if (goes_on : bool) then emitSent addr else ret tt
      end
    end
  end.

Definition reloadDevicesAndSend (fuel : nat) : Addr -> bool -> Async unit :=
  reloadDevicesAndSend_with (doSendMessage fuel).

(** Lines 467-487. *)
Definition sendToAddr (fuel : nat) (addr : Addr) : Async unit :=
  updateDevices ← try_catch
    (Some <$> getStaleDeviceIdsForAddr addr)
    (fun e =>
       emitError addr ("Failed to get device ids for address " +:+ addr) (Some e) ;;
       ret None);
  match updateDevices with
  | None => ret tt
  | Some updateDevices =>
    goes_on ← try_catch
      (getKeysForAddr addr (Some updateDevices) false ;; ret true)
      (fun e =>
         emitError addr
           ("Failed to retrieve new device keys for address " +:+ addr) (Some e) ;;
         ret false);
    if (goes_on : bool) then
      try_catch
        (reloadDevicesAndSend fuel addr true)
        (fun e =>
           emitError addr ("Failed to send to address " +:+ addr) (Some e))
    else ret tt
  end.

End Dispatcher.

Arguments error : clear implicits.
Arguments Env : clear implicits.
Arguments OutgoingMessage : clear implicits.
Arguments St : clear implicits.
Arguments Event : clear implicits.
Arguments EventArg : clear implicits.
Arguments Resolve {Content A} a.
Arguments Reject {Content A} e.
Arguments Ret {Content A} a.
Arguments Throw {Content A} e.
Arguments Starved {Content A}.

(** ** A scripted environment

    Collaborators that answer from scripts, to run the dispatcher on
    concrete scenarios.  The payload is its own encoding.  Storage lists
    the local devices whose session was not removed; the [n]-th key fetch,
    pre-key processing and transmission (counted over the trace) fail with
    the [n]-th entry of their script when it holds an error, and succeed
    otherwise.  The answers to the jobs of a [Promise.all] arrive in array
    order. *)

Record Script := {
  local_devices : list DeviceId;
  fetch_script : list (option (error Bytes));
  prekey_script : list (option (error Bytes));
  send_script : list (option (error Bytes))
}.

Definition is_FetchKeys (ev : Event Bytes) : bool :=
  match ev with FetchKeys _ _ => true | _ => false end.

Definition is_ProcessPreKey (ev : Event Bytes) : bool :=
  match ev with ProcessPreKey _ _ => true | _ => false end.

Definition is_SendMessages (ev : Event Bytes) : bool :=
  match ev with SendMessages _ _ _ _ => true | _ => false end.

Definition is_RemoveSession (encoded : string) (ev : Event Bytes) : bool :=
  match ev with RemoveSession a => String.eqb a encoded | _ => false end.

Definition count (p : Event Bytes -> bool) (t : list (Event Bytes)) : nat :=
  length (filter (fun ev => p ev = true) t).

Definition scripted_reply {A} (script : list (option (error Bytes))) (n : nat)
    (a : A) : reply A :=
  match script !! n with
  | Some (Some e) => Reject e
  | _ => Resolve a
  end.

Definition bundle (id : DeviceId) : Device :=
  {| deviceId := id; dev_registrationId := 0; signedPreKey := [];
     preKey := None; identityKey := None |}.

Definition scripted (sc : Script) : Env Bytes :=
  {| Content_encode := fun m => m;
     base64 := fun _ => "";
     Date_now := fun t => Z.of_nat (length t);
     storage_getDeviceIds := fun t addr =>
       Resolve (filter (fun id =>
                  existsb (is_RemoveSession (encodedAddr addr id)) t = false)
                  (local_devices sc));
     storage_removeSession := fun _ _ => Resolve tt;
     signal_getKeysForAddr := fun t addr device =>
       scripted_reply (fetch_script sc) (count is_FetchKeys t)
         {| resp_identityKey := [];
            devices := match device with
                       | Some id => [bundle id]
                       | None => map bundle (local_devices sc)
                       end |};
     signal_sendMessages := fun t _ _ _ =>
       scripted_reply (send_script sc) (count is_SendMessages t) tt;
     builder_processPreKey := fun t _ _ =>
       scripted_reply (prekey_script sc) (count is_ProcessPreKey t) tt;
     cipher_encrypt := fun _ _ _ plaintext =>
       Resolve {| enc_type := 1; registrationId := 0; body := plaintext |};
     cipher_hasOpenSession := fun _ _ _ => Resolve true;
     cipher_closeOpenSessionForDevice := fun _ _ _ => Resolve tt;
     Promise_race := fun _ _ => 0%nat |}.

(** A fresh dispatcher for the payload [m], stamped [timestamp]. *)
Definition fresh (timestamp : Z) (m : Bytes) : St Bytes :=
  {| this := constructor timestamp m 0; trace := [] |}.

(** The events emitted under the name [event], oldest first. *)
Definition emitted {Content} (event : string) (t : list (Event Content))
  : list (EventArg Content) :=
  omap (fun ev => match ev with
                  | Emit name arg => if String.eqb name event then Some arg else None
                  | _ => None
                  end) t.

(** What running [m] from [s] appended to the trace. *)
Definition recorded {Content A} (m : Async A) (s : St Content)
  : list (Event Content) :=
  drop (length (trace s)) (trace (m s).2).

(** The transmissions and the entries into [reloadDevicesAndSend] among
    the events [t], in order. *)
Definition is_control {Content} (ev : Event Content) : bool :=
  match ev with
  | SendMessages _ _ _ _ | Enter_reloadDevicesAndSend _ _ => true
  | _ => false
  end.

Definition control {Content} (t : list (Event Content))
  : list (Event Content) :=
  List.filter is_control t.

(** Scenarios. *)

Definition answer_409 (extra missing : list DeviceId) : error Bytes :=
  ProtocolError 409 {| extraDevices := Some extra;
                       missingDevices := Some missing;
                       staleDevices := None |}.

Definition answer_410 (stale : list DeviceId) : error Bytes :=
  ProtocolError 410 {| extraDevices := None;
                       missingDevices := None;
                       staleDevices := Some stale |}.

(** Every collaborator succeeds. *)
Definition script_ok (local : list DeviceId) : Script :=
  {| local_devices := local; fetch_script := []; prekey_script := [];
     send_script := [] |}.

(** The server answers the transmissions in turn with [answers]. *)
Definition script_sends (local : list DeviceId)
    (answers : list (option (error Bytes))) : Script :=
  {| local_devices := local; fetch_script := []; prekey_script := [];
     send_script := answers |}.

Definition no_response : Response :=
  {| extraDevices := None; missingDevices := None; staleDevices := None |}.

(** The first key fetch is answered 404. *)
Definition script_fetch_404 (local : list DeviceId) : Script :=
  {| local_devices := local;
     fetch_script := [Some (ProtocolError 404 no_response)];
     prekey_script := []; send_script := [] |}.

(** The session builder refuses the first pre-key: the identity key of
    the recipient has changed. *)
Definition script_key_changed (local : list DeviceId) : Script :=
  {| local_devices := local; fetch_script := [];
     prekey_script := [Some (JsError "Error" "Identity key changed")];
     send_script := [] |}.

(** The identity key changed for every device: in a call of
    [getKeysForAddr] for three devices in which every prompt is accepted,
    the session builder refuses each device once, at its first, fifth and
    ninth call (an accepted prompt is followed by a reentrant call that
    processes the three pre-keys again). *)
Definition script_keys_changed (local : list DeviceId) : Script :=
  let changed := Some (JsError "Error" "Identity key changed") in
  {| local_devices := local; fetch_script := [];
     prekey_script := [changed; None; None; None;
                       changed; None; None; None;
                       changed];
     send_script := [] |}.

(** The address a [keychange] prompt is for. *)
Definition prompt_addr {Content} (arg : EventArg Content) : option Addr :=
  match arg with
  | ArgKeyChange (OutgoingIdentityKeyError addr _ _ _ _ _) => Some addr
  | _ => None
  end.

(** A [keychange] callback that accepts the new key. *)
Definition accept_keychange : @Handler Bytes :=
  fun _ _ => {| h_accept := true; h_threw := None |}.

(** A dispatcher with that callback registered. *)
Definition accepting (timestamp : Z) (m : Bytes) : St Bytes :=
  {| this := (on "keychange" accept_keychange (constructor timestamp m 0)).2;
     trace := [] |}.

(** The one-byte payload 0x01, padded; the message the scripted cipher
    and [toJSON] make of it for device [id]; and the state of a fresh
    dispatcher for that payload once it has encrypted to [ids]. *)
Definition padded_one : Bytes :=
  Byte.x01 :: Byte.x80 :: replicate 157 Byte.x00.

Definition plain_message (id : DeviceId) : DeviceMessage :=
  {| msg_type := 1; destinationDeviceId := id;
     destinationRegistrationId := 0; content := "" |}.

Definition encrypted_to (ids : list DeviceId) : St Bytes :=
  {| this := constructor 42 [Byte.x01] 0;
     trace := map (fun id => Encrypt "alice" id padded_one) ids |}.

(** The scripted environment for the local devices [local], with a server
    that gives every transmission the same [answer]. *)
Definition steady (local : list DeviceId) (answer : reply unit) : Env Bytes :=
  let E := scripted (script_ok local) in
  {| Content_encode := Content_encode E;
     base64 := base64 E;
     Date_now := Date_now E;
     storage_getDeviceIds := storage_getDeviceIds E;
     storage_removeSession := storage_removeSession E;
     signal_getKeysForAddr := signal_getKeysForAddr E;
     signal_sendMessages := fun _ _ _ _ => answer;
     builder_processPreKey := builder_processPreKey E;
     cipher_encrypt := cipher_encrypt E;
     cipher_hasOpenSession := cipher_hasOpenSession E;
     cipher_closeOpenSessionForDevice := cipher_closeOpenSessionForDevice E;
     Promise_race := Promise_race E |}.

(** The scripted environment, with a session store whose device list
    cannot be read. *)
Definition unreadable (e : error Bytes) : Env Bytes :=
  let E := scripted (script_ok []) in
  {| Content_encode := Content_encode E;
     base64 := base64 E;
     Date_now := Date_now E;
     storage_getDeviceIds := fun _ _ => Reject e;
     storage_removeSession := storage_removeSession E;
     signal_getKeysForAddr := signal_getKeysForAddr E;
     signal_sendMessages := signal_sendMessages E;
     builder_processPreKey := builder_processPreKey E;
     cipher_encrypt := cipher_encrypt E;
     cipher_hasOpenSession := cipher_hasOpenSession E;
     cipher_closeOpenSessionForDevice := cipher_closeOpenSessionForDevice E;
     Promise_race := Promise_race E |}.

(** ** The vocabulary of the properties *)

Arguments Async : clear implicits.

Section Vocabulary.

Context {Content : Type} (E : Env Content).

(** Events that are neither a transmission nor a re-entry. *)
Definition quiet (ev : Event Content) : Prop := is_control ev = false.

(** Every method records something or nothing, but never rewrites the
    trace. *)
Definition any_event (ev : Event Content) : Prop := True.

(** A transmission carries the timestamp [T]. *)
Definition stamped (T : Z) (ev : Event Content) : Prop :=
  match ev with
  | SendMessages _ _ timestamp _ => timestamp = T
  | _ => True
  end.

(** No event of [t] is emitted under the name [event]. *)
Definition not_emitting (event : string) (ev : Event Content) : Prop :=
  match ev with
  | Emit name _ => String.eqb name event = false
  | _ => True
  end.

(** An event of the key exchange for the devices [ids] of [addr]: a key
    fetch is for one of [ids]; there is no transmission and no entry into
    [reloadDevicesAndSend]. *)
Definition key_exchange_event addr (ids : list Z) (ev : Event Content) : Prop :=
  match ev with
  | FetchKeys a device => a = addr /\ exists id, device = Some id /\ id ∈ ids
  | SendMessages _ _ _ _ | Enter_reloadDevicesAndSend _ _ => False
  | _ => True
  end.

(** *** Relations between the state before and after a method *)

(** The trace grew by events of [Q]. *)
Definition extends (Q : Event Content -> Prop) (s s' : St Content) : Prop :=
  exists t, trace s' = trace s ++ t /\ Forall Q t.

(** The same, and the object was not touched. *)
Definition untouched (Q : Event Content -> Prop) (s s' : St Content) : Prop :=
  this s' = this s /\ extends Q s s'.

(** The same, but the [errors] and [sent] logs may have grown; the other
    fields of the object are as they were. *)
Definition grows (Q : Event Content -> Prop) (s s' : St Content) : Prop :=
  timestamp (this s') = timestamp (this s) /\
  message (this s') = message (this s) /\
  _listeners (this s') = _listeners (this s) /\
  (exists es, errors (this s') = errors (this s) ++ es) /\
  (exists ss, sent (this s') = sent (this s) ++ ss) /\
  extends Q s s'.

(** From an object stamped [T], the object stays stamped [T] and every
    transmission carries [T]. *)
Definition keeps_stamp (T : Z) (s s' : St Content) : Prop :=
  timestamp (this s) = T ->
  timestamp (this s') = T /\ extends (stamped T) s s'.

(** The method [m] keeps the relation [R], from every state. *)
Definition preserves (R : St Content -> St Content -> Prop) {A}
    (m : Async Content A) : Prop :=
  forall s, R s (m s).2.

(** A job of a [Promise.all] keeps the relation [R]: it does until its
    first [await], and its rest does from wherever it goes on. *)
Definition preserves_job (R : St Content -> St Content -> Prop) {A}
    (job : Job A) : Prop :=
  forall s,
    R s (job s).2 /\
    (forall rest, (job s).1 = Ret rest -> preserves R rest).

(** Two rests of jobs that do the same from every state, and two jobs
    that do the same until their first [await] and have such rests. *)
Definition same_rest {A} (rest1 rest2 : Async Content A) : Prop :=
  forall s, rest1 s = rest2 s.

Definition same_job {A} (job1 job2 : Job A) : Prop :=
  forall s,
    match job1 s, job2 s with
    | (Ret rest1, s1), (Ret rest2, s2) => s1 = s2 /\ same_rest rest1 rest2
    | (Throw e1, s1), (Throw e2, s2) => e1 = e2 /\ s1 = s2
    | (Starved, s1), (Starved, s2) => s1 = s2
    | _, _ => False
    end.

(** The rest of a job that waited for a settled promise and does nothing
    but give [r]. *)
Definition settled_with {A} (r : outcome A) (rest : Async Content A) : Prop :=
  r <> Starved /\ forall s, rest s = (r, s).

(** A rest that records nothing and leaves the object as it is. *)
Definition silent {A} (rest : Async Content A) : Prop :=
  forall s, (rest s).2 = s.

(** The relation [R] admits appending to the [errors] and [sent] logs. *)
Definition admits_push (R : St Content -> St Content -> Prop) : Prop :=
  (forall entry, preserves R (modify_this (push_error entry))) /\
  (forall entry, preserves R (modify_this (push_sent entry))).

(** *** What a method may record, for a set [Q] of events *)

Definition admits_console (Q : Event Content -> Prop) : Prop :=
  forall e, Q (ConsoleError e).

(** What [getKeysForAddr] may record, besides the prompts of a call that
    is not reentrant. *)
Definition admits_key_exchange (Q : Event Content -> Prop) addr
    (updateDevices : option (list Z)) : Prop :=
  (forall reentrant, Q (Enter_getKeysForAddr addr updateDevices reentrant)) /\
  (updateDevices = None -> Q (FetchKeys addr None)) /\
  (forall ids id, updateDevices = Some ids -> id ∈ ids ->
     Q (FetchKeys addr (Some id))) /\
  (forall id, Q (ProcessPreKey addr id)) /\
  (forall ids id, updateDevices = Some ids -> id ∈ ids -> id <> 1 ->
     Q (RemoveSession (encodedAddr addr id))).

(** What the recovery from the answer [code], [response] may record. *)
Definition admits_recovery (Q : Event Content -> Prop)
    (ciphers : gmap Z SessionCipher) addr code response : Prop :=
  (code = 409 ->
     forall l id, extraDevices response = Some l -> id ∈ l ->
       Q (RemoveSession (encodedAddr addr id))) /\
  (code <> 409 ->
     forall l x cipher, staleDevices response = Some l -> x ∈ l ->
       ciphers !! x = Some cipher ->
       Q (CloseOpenSession (cipher_addr cipher) (cipher_device cipher))) /\
  admits_key_exchange Q addr
    (if code =? 410 then staleDevices response else missingDevices response) /\
  (forall arg, Q (Emit "keychange" arg)) /\
  admits_console Q.

(** What a dispatch to [addr] may record; [P] is what the relation lets
    a method assume of the object it reads. *)
Definition admits_dispatch (R : St Content -> St Content -> Prop)
    (Q : Event Content -> Prop) (P : OutgoingMessage Content -> Prop) addr
  : Prop :=
  admits_push R /\ admits_console Q /\
  (forall event arg, Q (Emit event arg)) /\
  Q (GetDeviceIds addr) /\
  (forall id, Q (HasOpenSession addr id)) /\
  (forall id mBuf, Q (Encrypt addr id mBuf)) /\
  (forall id, Q (CloseOpenSession addr id)) /\
  (forall id, Q (RemoveSession (encodedAddr addr id))) /\
  (forall device, Q (FetchKeys addr device)) /\
  (forall id, Q (ProcessPreKey addr id)) /\
  (forall updateDevices reentrant,
     Q (Enter_getKeysForAddr addr updateDevices reentrant)) /\
  (forall recurse, Q (Enter_reloadDevicesAndSend addr recurse)) /\
  (forall o jsonData answer,
     P o -> Q (SendMessages addr jsonData (timestamp o) answer)).

(** *** One call of [doSendMessage] *)

(** The state once the transmission of [messages] got [answer]. *)
Definition transmitted addr messages (answer : reply unit) (s : St Content)
  : St Content :=
  {| this := this s;
     trace := trace s ++
       [SendMessages addr messages (timestamp (this s)) answer] |}.

(** What [doSendMessage] does with a rejected transmission (the [catch]
    of lines 401-426 and line 427), from the state [s] after it. *)
Definition after_rejection (fuel : nat) addr deviceIds (recurse : bool)
    messages (e : error Content) (s : St Content)
  : outcome unit * St Content :=
  match e with
  | ProtocolError code response =>
      if (code =? 410) || (code =? 409) then
        if recurse then
          match recover E (build_ciphers addr deviceIds) addr code response s with
          | (Ret _, s2) =>
              match reloadDevicesAndSend E fuel addr (code =? 409) s2 with
              | (Ret _, s3) => emitSent E addr s3
              | (Throw e', s3) =>
                  (Ret tt,
                   (emitError E addr "Failed to reload device keys" (Some e') s3).2)
              | (Starved, s3) => (Starved, s3)
              end
          | (Throw e', s2) => (Throw e', s2)
          | (Starved, s2) => (Starved, s2)
          end
        else
          (Ret tt,
           (emitError E addr "Hit retry limit attempting to reload device list"
              (Some e) s).2)
      else
        (Ret tt,
         (emitError E addr "Failed to send message"
            (Some (if code =? 404 then UnregisteredUserError addr e
                   else SendMessageError addr messages e (timestamp (this s))))
            s).2)
  | _ => (Ret tt, (emitError E addr "Failed to send message" (Some e) s).2)
  end.

(** The TypeError of calling a method of [ciphers[x]] when there is no
    such cipher. *)
Definition no_cipher : error Content :=
  TypeError "Cannot read property 'closeOpenSessionForDevice' of undefined".

(** The [errors] entries [es] hold the retry-limit error for the 410
    answer [response]. *)
Definition hit_retry_limit addr (message : Content) (timestamp : Z)
    (response : Response) (es : list (@ErrorEntry Content)) : Prop :=
  exists entry,
    entry ∈ es /\
    error_reason entry = "Hit retry limit attempting to reload device list" /\
    error_addr entry = addr /\
    entry_error entry =
      OutgoingMessageError addr message timestamp
        (Some (ProtocolError 410 response)).

(** The transmissions and re-entries of one call of [doSendMessage],
    with the [errors] entries it appended: nothing is transmitted; or one
    transmission ends the call (with the retry-limit error when the call
    was not allowed to recurse and the answer is 410); or the transmission
    is answered with [code] and the call re-enters with
    [recurse = (code = 409)]. *)
Inductive dispatch_run addr (message : Content) (timestamp : Z)
  : bool -> list (Event Content) -> list (@ErrorEntry Content) -> Prop :=
| run_silent recurse es :
    dispatch_run addr message timestamp recurse [] es
| run_final recurse jsonData ts answer es :
    (recurse = false ->
     forall response, answer = Reject (ProtocolError 410 response) ->
       hit_retry_limit addr message timestamp response es) ->
    dispatch_run addr message timestamp recurse
      [SendMessages addr jsonData ts answer] es
| run_retry jsonData ts code response c es es' :
    dispatch_run addr message timestamp (code =? 409) c es ->
    (forall entry, entry ∈ es -> entry ∈ es') ->
    dispatch_run addr message timestamp true
      (SendMessages addr jsonData ts (Reject (ProtocolError code response))
       :: Enter_reloadDevicesAndSend addr (code =? 409) :: c) es'.

(** What may follow a transmission answered 410. *)
Definition after_410 addr (message : Content) (timestamp : Z)
    (post : list (Event Content)) (es : list (@ErrorEntry Content)) : Prop :=
  post = [] \/
  post = [Enter_reloadDevicesAndSend addr false] \/
  exists jsonData ts answer,
    post = [Enter_reloadDevicesAndSend addr false;
            SendMessages addr jsonData ts answer] /\
    forall response, answer = Reject (ProtocolError 410 response) ->
      hit_retry_limit addr message timestamp response es.

End Vocabulary.

(** ** Further vocabulary: callbacks, logs and what a dispatch sends *)

Section Observations.

Context {Content : Type} (E : Env Content).

(** The object after the calls [on(event, callback)] of [regs], in order;
    a call that throws leaves the object as it was. *)
Definition register (regs : list (string * @Handler Content))
    (o : OutgoingMessage Content) : OutgoingMessage Content :=
  foldl (fun o r => (on r.1 r.2 o).2) o regs.

(** No own property of [_listeners] hides an inherited one. *)
Definition plain_listeners (o : OutgoingMessage Content) : Prop :=
  forall event, event ∈ Object_prototype -> _listeners o !! event = None.

(** The callbacks that [regs] registers for [event], in order. *)

Definition registered (event : string) (regs : list (string * @Handler Content))
  : list (@Handler Content) :=
  omap (fun r => if String.eqb r.1 event then Some r.2 else None) regs.

(** What [console.error] is told of the runs [rs] of callbacks. *)
Definition consoles (rs : list (@HandlerRun Content)) : list (Event Content) :=
  omap (fun r => ConsoleError <$> h_threw r) rs.

(** An event that is not emitted under the names [error] and [sent]. *)
Definition background (ev : Event Content) : Prop :=
  not_emitting "error" ev /\ not_emitting "sent" ev.

(** The [errors] and [sent] logs grew by the entries that were emitted
    under the names [error] and [sent], in the same order; the entries
    name [addr]; and nothing else of the object changed. *)
Definition balanced (addr : Addr) (s s' : St Content) : Prop :=
  timestamp (this s') = timestamp (this s) /\
  message (this s') = message (this s) /\
  created (this s') = created (this s) /\
  _listeners (this s') = _listeners (this s) /\
  exists t es ss,
    trace s' = trace s ++ t /\
    errors (this s') = errors (this s) ++ es /\
    sent (this s') = sent (this s) ++ ss /\
    emitted "error" t = map ArgError es /\
    emitted "sent" t = map ArgSent ss /\
    Forall (fun entry => error_addr entry = addr) es /\
    Forall (fun entry => sent_addr entry = addr) ss.

(** Every encryption is of the padded encoding of [m]. *)
Definition padded_for (m : Content) (ev : Event Content) : Prop :=
  match ev with
  | Encrypt _ _ plaintext =>
      padMessage (Content_encode E m) = Some plaintext
  | _ => True
  end.

(** From an object that holds the message [m], the object still holds [m]
    and every encryption is of the padded encoding of [m]. *)
Definition keeps_message (m : Content) (s s' : St Content) : Prop :=
  message (this s) = m ->
  message (this s') = m /\ extends (padded_for m) s s'.

(** The transmissions among the events [t], in order. *)
Definition is_transmission (ev : Event Content) : bool :=
  match ev with SendMessages _ _ _ _ => true | _ => false end.

Definition transmissions (t : list (Event Content)) : list (Event Content) :=
  List.filter is_transmission t.

(** An event of the preparation of a dispatch: nothing is encrypted or
    transmitted, and [reloadDevicesAndSend] is not entered. *)
Definition preparing (ev : Event Content) : Prop :=
  match ev with
  | Encrypt _ _ _ | SendMessages _ _ _ _ | Enter_reloadDevicesAndSend _ _ => False
  | _ => True
  end.

(** What a call [getKeysForAddr(addr, ids, reentrant)] may record: key
    fetches and sessions for the devices [ids], the removal of sessions of
    devices of [ids] other than device 1, and prompts unless the call is
    reentrant. *)
Definition requested addr (ids : list Z) (reentrant : bool)
    (ev : Event Content) : Prop :=
  match ev with
  | Enter_getKeysForAddr a updateDevices _ => a = addr /\ updateDevices = Some ids
  | FetchKeys a device => a = addr /\ exists id, device = Some id /\ id ∈ ids
  | ProcessPreKey a id => a = addr /\ id ∈ ids
  | RemoveSession encoded =>
      exists id, id ∈ ids /\ id <> 1 /\ encoded = encodedAddr addr id
  | Emit name _ => name = "keychange" /\ reentrant = false
  | ConsoleError _ => reentrant = false
  | _ => False
  end.

(** The transmissions among [t] that the server answered with 409. *)
Definition is_409 (ev : Event Content) : bool :=
  match ev with
  | SendMessages _ _ _ (Reject (ProtocolError code _)) => code =? 409
  | _ => false
  end.

Definition answered_409 (t : list (Event Content)) : list (Event Content) :=
  List.filter is_409 t.

(** The method [m] comes to an end, from every state: it returns or
    throws. *)
Definition never_starves {A} (m : Async Content A) : Prop :=
  forall s, (m s).1 <> Starved.

(** So does a job of a [Promise.all]: until its first [await], and from
    wherever it goes on. *)
Definition ns_job {A} (job : Job A) : Prop :=
  forall s,
    (job s).1 <> Starved /\
    (forall rest, (job s).1 = Ret rest -> never_starves rest).

(** What the cipher of the [i]-th device [id] of [ids] answers when
    [doSendMessage], entered in the state [s], asks it to encrypt [buf]:
    the ciphers of the devices before it were asked first (and none of
    their answers was looked at yet). *)
Definition asked_to_encrypt addr (ids : list Z) (buf : Bytes) (s : St Content)
    (i : nat) (id : Z) : reply EncryptedMsg :=
  cipher_encrypt E
    (trace s ++ map (fun id => Encrypt addr id buf) (take i ids)) addr id buf.

(** What a dispatch to [addr] may record, when the relation is kept by
    [emitError] and [emitSent] as wholes; [P] is what the relation lets a
    method assume of the object it reads. *)
Definition admits_sending (R : St Content -> St Content -> Prop)
    (Q : Event Content -> Prop) (P : OutgoingMessage Content -> Prop) addr
  : Prop :=
  (forall reason cause, preserves R (emitError E addr reason cause)) /\
  preserves R (emitSent E addr) /\
  admits_console Q /\
  (forall arg, Q (Emit "keychange" arg)) /\
  Q (GetDeviceIds addr) /\
  (forall id, Q (HasOpenSession addr id)) /\
  (forall o id paddedBuf,
     P o -> padMessage (Content_encode E (message o)) = Some paddedBuf ->
     Q (Encrypt addr id paddedBuf)) /\
  (forall id, Q (CloseOpenSession addr id)) /\
  (forall id, Q (RemoveSession (encodedAddr addr id))) /\
  (forall device, Q (FetchKeys addr device)) /\
  (forall id, Q (ProcessPreKey addr id)) /\
  (forall updateDevices reentrant,
     Q (Enter_getKeysForAddr addr updateDevices reentrant)) /\
  (forall recurse, Q (Enter_reloadDevicesAndSend addr recurse)) /\
  (forall o jsonData answer,
     P o -> Q (SendMessages addr jsonData (timestamp o) answer)).

End Observations.

(** * The Backbone localStorage adapter (lines 1-226)

    Conventions of the embedding.
    - Numbers are integers ([Z]).  A number is written as a string with
      its decimal digits as long as it is a safe integer; how a larger one
      is written is left to the host.
    - Store objects live in a heap and are named by reference; the items
      of [localStorage] are a [gmap] from keys to strings, and storing
      never runs out of room.
    - [JSON] and [Math.random] are the host's; callbacks are recorded in
      the order of their calls and do not throw. *)

Module Backbone.

Import Stdlib.Strings.Ascii.

(** ** JavaScript values and strings, as far as the adapter looks at them *)

(** What a serializer may hand back, and [undefined]. *)
Inductive Value :=
| VUndefined
| VNull
| VBool (b : bool)
| VNum (n : Z)
| VStr (s : string)
| VArr (elements : list Value)
| VObj (fields : list (string * Value)).

(** [if (v)]. *)
Definition truthy (v : Value) : bool :=
  match v with
  | VUndefined | VNull => false
  | VBool b => b
  | VNum n => negb (n =? 0)
  | VStr s => negb (String.eqb s "")
  | VArr _ | VObj _ => true
  end.

(** [v != null]. *)
Definition not_nullish (v : Value) : bool :=
  match v with VUndefined | VNull => false | _ => true end.

(** The [id] of a model: absent, or a number or a string. *)
Inductive Id :=
| IdUndefined
| IdNull
| IdNum (n : Z)
| IdStr (s : string).

(** [!id && id !== 0] (line 78). *)
Definition lacks_id (id : Id) : bool :=
  match id with
  | IdUndefined | IdNull => true
  | IdNum _ => false
  | IdStr s => String.eqb s ""
  end.

(** [id != undefined] (line 171). *)
Definition Id_defined (id : Id) : bool :=
  match id with IdUndefined | IdNull => false | _ => true end.

(** What is thrown. *)
Inductive Exception :=
| TypeError (message : string)
| SyntaxError (message : string)
| Error (message : string).

Inductive completion (A : Type) :=
| Returned (a : A)
| Thrown (e : Exception).
Arguments Returned {A} a.
Arguments Thrown {A} e.

(** [s.split(",")]: the pieces of [s] between its commas; one empty piece
    for the empty string. *)
Fixpoint split (sep : ascii) (s : string) : list string :=
  match s with
  | EmptyString => [EmptyString]
  | String c s' =>
      if Ascii.eqb c sep then EmptyString :: split sep s'
      else match split sep s' with
           | piece :: pieces => String c piece :: pieces
           | [] => [String c EmptyString]
           end
  end.

(** [array.join(",")]. *)
Definition join (sep : string) (array : list string) : string :=
  String.concat sep array.

(** [s.substring(1)]. *)
Definition substring_1 (s : string) : string :=
  match s with
  | EmptyString => EmptyString
  | String _ s' => s'
  end.

(** [n.toString(16)] for an integer [n >= 0]. *)
Definition hex_digit (d : Z) : ascii :=
  match d with
  | 0 => "0" | 1 => "1" | 2 => "2" | 3 => "3" | 4 => "4" | 5 => "5" | 6 => "6"
  | 7 => "7" | 8 => "8" | 9 => "9" | 10 => "a" | 11 => "b" | 12 => "c"
  | 13 => "d" | 14 => "e" | _ => "f"
  end%char.

Fixpoint toString_16_digits (fuel : nat) (n : Z) (digits : string) : string :=
  let digits := String (hex_digit (n mod 16)) digits in
  match fuel with
  | O => digits
  | S fuel' =>
      if n / 16 =? 0 then digits else toString_16_digits fuel' (n / 16) digits
  end.

Definition toString_16 (n : Z) : string :=
  toString_16_digits (Z.to_nat (Z.log2 n)) n EmptyString.

(** ** Models, stores and the world *)

(** The [localStorage] property of a model or of a collection: absent, a
    store, or a function (with its source text) that returns a store.
    Stores are objects: a property holds a reference. *)
Inductive Property :=
| Absent
| Plain (store : nat)
| Method (source : string) (store : nat).

(** A Backbone model, as far as the adapter looks at it.  [collection] is
    the [localStorage] property of the model's collection, when the model
    has a collection. *)
Record Model := {
  id : Id;
  idAttribute : string;
  attributes : list (string * Value);
  localStorage : Property;
  collection : option Property;
  constructor_name : string
}.

(** [attributes[key] = v]: an own property keeps its place, a new one
    comes last. *)
Fixpoint set_attribute (key : string) (v : Value)
    (attrs : list (string * Value)) : list (string * Value) :=
  match attrs with
  | [] => [(key, v)]
  | (k, v') :: attrs' =>
      if String.eqb k key then (k, v) :: attrs'
      else (k, v') :: set_attribute key v attrs'
  end.

(** [model.id = g; model.set(model.idAttribute, model.id)] (lines 79-80). *)
Definition assign_id (g : string) (model : Model) : Model :=
  {| id := IdStr g;
     idAttribute := idAttribute model;
     attributes := set_attribute (idAttribute model) (VStr g) (attributes model);
     localStorage := localStorage model;
     collection := collection model;
     constructor_name := constructor_name model |}.

(** A serializer (the second argument of the constructor): [serialize]
    gives the string to store, [deserialize] reads what [getItem] gave
    ([None] for [null]) and may throw. *)
Record Serializer := {
  serialize : Model -> string;
  deserialize : option string -> completion Value
}.

(** A store object (lines 52-68). *)
Record Store := {
  name : string;
  serializer : Serializer;
  records : list string
}.

(** What the adapter calls back: [options.success], [options.error] and
    [options.complete], with their arguments. *)
Inductive Resp :=
| RespData (data : Value)
| RespModel (model : Model).

Inductive Callback :=
| OnSuccess (legacy : bool) (resp : Resp)
| OnError (legacy : bool) (errorMessage : string)
| OnComplete (resp : Resp).

(** The world: the items of the one [localStorage] of the module (line
    12), the store objects by reference, the number of random numbers drawn
    so far, and the callbacks called so far, oldest first. *)
Record World := {
  items : gmap string string;
  stores : gmap nat Store;
  drawn : nat;
  called : list Callback
}.

(** The host: [JSON], the random numbers, [Backbone.VERSION], and how it
    writes a number that is no safe integer.  [random_word k] is
    [((1 + Math.random()) * 0x10000) | 0] for the [k]-th number drawn. *)
Record Host := {
  JSON_stringify : Model -> string;
  JSON_parse : string -> completion Value;
  random_word : nat -> Z;
  VERSION : string;
  Number_text : Z -> string
}.

(** ** Methods with effects *)

Definition Js (A : Type) : Type := World -> completion A * World.

Definition ret {A} (a : A) : Js A := fun w => (Returned a, w).

Definition bind {A B} (m : Js A) (f : A -> Js B) : Js B :=
  fun w =>
    match m w with
    | (Returned a, w') => f a w'
    | (Thrown e, w') => (Thrown e, w')
    end.

#[global] Instance Js_ret : MRet Js := @ret.
#[global] Instance Js_bind : MBind Js := fun A B f m => bind m f.

Definition throw {A} (e : Exception) : Js A := fun w => (Thrown e, w).

Definition lift {A} (c : completion A) : Js A := fun w => (c, w).

(** [localStorage.getItem(key)]: [None] is [null]. *)
Definition getItem (key : string) : Js (option string) :=
  fun w => (Returned (items w !! key), w).

Definition setItem (key value : string) : Js unit :=
  fun w => (Returned tt,
            {| items := <[key := value]> (items w); stores := stores w;
               drawn := drawn w; called := called w |}).

Definition removeItem (key : string) : Js unit :=
  fun w => (Returned tt,
            {| items := delete key (items w); stores := stores w;
               drawn := drawn w; called := called w |}).

(** The store object behind the reference [this]. *)
Definition get_store (this : nat) : Js Store :=
  fun w =>
    match stores w !! this with
    | Some store => (Returned store, w)
    | None => (Thrown (TypeError "not a store"), w)
    end.

Definition put_store (this : nat) (store : Store) : Js unit :=
  fun w => (Returned tt,
            {| items := items w; stores := <[this := store]> (stores w);
               drawn := drawn w; called := called w |}).

(** [this.records = records]. *)
Definition set_records (this : nat) (records : list string) : Js unit :=
  store ← get_store this;
  put_store this {| name := name store; serializer := serializer store;
                    records := records |}.

Definition call (c : Callback) : Js unit :=
  fun w => (Returned tt,
            {| items := items w; stores := stores w; drawn := drawn w;
               called := called w ++ [c] |}).

Section Adapter.

Context (H : Host).

(** ** Identifiers as strings *)

(** A number as a string.  A safe integer (below [2 ^ 53] in absolute
    value) is written with its decimal digits.  JavaScript rounds larger
    numbers to the digits that tell them apart and, from [1e21] on, writes
    an exponent: that text is the host's. *)
Definition Number_toString (n : Z) : string :=
  if Z.abs n <? 2 ^ 53 then pretty n else Number_text H n.

(** ["" + id], and [id] inside a template literal. *)
Definition Id_concat (id : Id) : string :=
  match id with
  | IdUndefined => "undefined"
  | IdNull => "null"
  | IdNum n => Number_toString n
  | IdStr s => s
  end.

(** [id.toString()]: a TypeError when there is no id. *)
Definition Id_toString (id : Id) : completion string :=
  match id with
  | IdUndefined => Thrown (TypeError "Cannot read property 'toString' of undefined")
  | IdNull => Thrown (TypeError "Cannot read property 'toString' of null")
  | IdNum n => Returned (Number_toString n)
  | IdStr s => Returned s
  end.

(** ** Helpers (lines 19-48) *)

(** Lines 20-22: four hexadecimal digits from one random number. *)
Definition S4 : Js string :=
  fun w =>
    (Returned (substring_1 (toString_16 (random_word H (drawn w)))),
     {| items := items w; stores := stores w; drawn := S (drawn w);
        called := called w |}).

(** Lines 25-27. *)
Definition guid : Js string :=
  a ← S4; b ← S4; c ← S4; d ← S4; e ← S4; f ← S4; g ← S4; h ← S4;
  mret (a +:+ b +:+ "-" +:+ c +:+ "-" +:+ d +:+ "-" +:+ e +:+ "-" +:+
        f +:+ g +:+ h).

(** Lines 33-37: [while (i--) if (array[i] === item) return true]. *)
Fixpoint contains_from (i : nat) (array : list string) (item : string) : bool :=
  match i with
  | O => false
  | S i' =>
      match array !! i' with
      | Some x => if String.eqb x item then true else contains_from i' array item
      | None => contains_from i' array item
      end
  end.

Definition contains (array : list string) (item : string) : bool :=
  contains_from (length array) array item.

(** Lines 44-48, for the property [localStorage] of [object] ([None] when
    there is no object): a function is called, and returns a store. *)
Definition result (object : option Property) : option nat :=
  match object with
  | None | Some Absent => None
  | Some (Plain store) | Some (Method _ store) => Some store
  end.

(** ** The store (lines 52-157) *)

(** The serializer of a store that was given none (lines 57-65); a model
    is an object. *)
Definition default_serializer : Serializer :=
  {| serialize := JSON_stringify H;
     deserialize := fun data =>
       match data with
       | None => Returned VNull
       | Some text =>
           if String.eqb text "" then Returned (VStr "") else JSON_parse H text
       end |}.

(** Lines 52-68: [this = new Backbone.LocalStorage(name, serializer)]. *)
Definition LocalStorage (this : nat) (name : string)
    (serializer : option Serializer) : Js unit :=
  store ← getItem name;
  put_store this
    {| name := name;
       serializer := default default_serializer serializer;
       records := match store with
                  | Some text =>
                      if String.eqb text "" then [] else split "," text
                  | None => []
                  end |}.

(** Lines 155-157. *)
Definition _itemName (store : Store) (id : Id) : string :=
  name store +:+ "-" +:+ Id_concat id.

(** Lines 71-73. *)
Definition save (this : nat) : Js unit :=
  store ← get_store this;
  setItem (name store) (join "," (records store)).

(** Lines 100-102. *)
Definition find (this : nat) (model : Model) : Js Value :=
  store ← get_store this;
  data ← getItem (_itemName store (id model));
  lift (deserialize (serializer store) data).

(** [this.records.push(modelId)]. *)
Definition push_record (this : nat) (modelId : string) : Js unit :=
  store ← get_store this;
  set_records this (records store ++ [modelId]).

(** Lines 77-86.  The model is an object: [create] may give it an id, so
    the model is returned along with the result. *)
Definition create (this : nat) (model : Model) : Js (Model * Value) :=
  model ← (if lacks_id (id model)
           then g ← guid; mret (assign_id g model)
           else mret model);
  store ← get_store this;
  setItem (_itemName store (id model)) (serialize (serializer store) model) ;;
  modelId ← lift (Id_toString (id model));
  push_record this modelId ;;
  save this ;;
  data ← find this model;
  mret (model, data).

(** Lines 89-97. *)
Definition update (this : nat) (model : Model) : Js Value :=
  store ← get_store this;
  setItem (_itemName store (id model)) (serialize (serializer store) model) ;;
  modelId ← lift (Id_toString (id model));
  (if negb (contains (records store) modelId)
   then push_record this modelId ;; save this
   else mret tt) ;;
  find this model.

(** Lines 105-113. *)
Fixpoint findAll_from (store : Store) (ids : list string) (result : list Value)
  : Js (list Value) :=
  match ids with
  | [] => mret result
  | id :: ids' =>
      text ← getItem (_itemName store (IdStr id));
      data ← lift (deserialize (serializer store) text);
      findAll_from store ids'
        (if not_nullish data then result ++ [data] else result)
  end.

Definition findAll (this : nat) : Js (list Value) :=
  store ← get_store this;
  findAll_from store (records store) [].

(** The loop of lines 119-123: [splice] shortens the array, and [i] moves
    on all the same. *)
Fixpoint splice_matches (turns : nat) (modelId : string) (i : nat)
    (records : list string) : list string :=
  match turns with
  | O => records
  | S turns' =>
      match records !! i with
      | None => records
      | Some id =>
          splice_matches turns' modelId (S i)
            (if String.eqb id modelId then delete i records else records)
      end
  end.

(** Lines 116-126. *)
Definition destroy (this : nat) (model : Model) : Js Model :=
  store ← get_store this;
  removeItem (_itemName store (id model)) ;;
  modelId ← lift (Id_toString (id model));
  set_records this
    (splice_matches (length (records store)) modelId 0 (records store)) ;;
  save this ;;
  mret model.

(** Lines 151-153. *)
Definition _storageSize : Js nat :=
  fun w => (Returned (size (items w)), w).

(** ** [Backbone.sync] (lines 163-224) *)

(** The [options] of a call: which callbacks it has, and whether
    [ajaxSync] is set. *)
Record Options := {
  success : bool;
  error : bool;
  complete : bool;
  ajaxSync : bool
}.

(** The promise [localSync] returns. *)
Inductive Promise :=
| Resolved (resp : Resp)
| Rejected (e : Exception).

(** [if (resp)]: a model is an object. *)
Definition Resp_truthy (resp : Resp) : bool :=
  match resp with
  | RespData data => truthy data
  | RespModel _ => true
  end.

(** A [localStorage] property inside a template literal. *)
Definition Property_concat (p : Property) : string :=
  match p with
  | Absent => "undefined"
  | Plain _ => "[object Object]"
  | Method source _ => source
  end.

(** [result(model, 'localStorage') || result(model.collection,
    'localStorage')] (lines 164 and 215). *)
Definition store_of (model : Model) : option nat :=
  match result (Some (localStorage model)) with
  | Some store => Some store
  | None => result (collection model)
  end.

(** [options && options.callback]. *)
Definition has (options : option Options) (callback : Options -> bool) : bool :=
  match options with
  | Some o => callback o
  | None => false
  end.

(** A method of the store [undefined]. *)
Definition no_store {A} (method : string) : Js A :=
  throw (TypeError ("Cannot read property '" +:+ method +:+ "' of undefined")).

(** Lines 163-208.  The model is returned along with the promise, as
    [create] may have given it an id. *)
Definition localSync (method : string) (model : Model)
    (options : option Options) : Js (Model * Promise) :=
  let store := store_of model in
  let legacy := String.eqb (VERSION H) "0.9.10" in
  r ← (if String.eqb method "read" then
         match store with
         | None => no_store (if Id_defined (id model) then "find" else "findAll")
         | Some this =>
             if Id_defined (id model)
             then data ← find this model; mret (model, RespData data)
             else all ← findAll this; mret (model, RespData (VArr all))
         end
       else if String.eqb method "create" then
         match store with
         | None => no_store "create"
         | Some this => r ← create this model; mret (r.1, RespData r.2)
         end
       else if String.eqb method "update" then
         match store with
         | None => no_store "update"
         | Some this => data ← update this model; mret (model, RespData data)
         end
       else if String.eqb method "delete" then
         match store with
         | None => no_store "destroy"
         | Some this => m ← destroy this model; mret (model, RespModel m)
         end
       else mret (model, RespData VUndefined));
  let model := r.1 in
  let resp := r.2 in
  promise ← (if Resp_truthy resp then
               (if has options success then call (OnSuccess legacy resp)
                else mret tt) ;;
               mret (Resolved resp)
             else
               let errorMessage :=
                 "Record Not Found: " +:+ Property_concat (localStorage model)
                 +:+ ":" +:+ Id_concat (id model) in
               (if has options error then call (OnError legacy errorMessage)
                else mret tt) ;;
               mret (Rejected (Error errorMessage)));
  (if has options complete then call (OnComplete resp) else mret tt) ;;
  mret (model, promise).

(** Lines 212-220: the one method there is, or an Error. *)
Inductive SyncMethod := LocalStorage_sync.

Definition getSyncMethod (model : Model) (options : option Options)
  : completion SyncMethod :=
  let forceAjaxSync := has options ajaxSync in
  if negb forceAjaxSync && bool_decide (is_Some (store_of model))
  then Returned LocalStorage_sync
  else Thrown (Error ("Missing localStorage config for " +:+
                      constructor_name model)).

(** Lines 222-224. *)
Definition sync (method : string) (model : Model) (options : option Options)
  : Js (Model * Promise) :=
  f ← lift (getSyncMethod model options);
  match f with
  | LocalStorage_sync => localSync method model options
  end.

End Adapter.

End Backbone.

(** ** A small host and a small world, to run the adapter

    The host writes a model as its id and reads any text as a string; its
    [k]-th random number gives the digits of [0x10000 + k mod 0x10000]; the
    runs below use no number beyond the safe integers.  The world holds
    one store, [books], behind the reference 0; it lists the records [a]
    and [b], and the item of [a] is in storage. *)

Definition plain_host : Backbone.Host :=
  {| Backbone.JSON_stringify := fun model =>
       match Backbone.id model with
       | Backbone.IdUndefined => "undefined"
       | Backbone.IdNull => "null"
       | Backbone.IdNum n => pretty n
       | Backbone.IdStr s => s
       end;
     Backbone.JSON_parse := fun text => Backbone.Returned (Backbone.VStr text);
     Backbone.random_word := fun k => 65536 + Z.of_nat k mod 65536;
     Backbone.VERSION := "1.3.3";
     Backbone.Number_text := fun _ => "1e+21" |}.

Definition books : Backbone.Store :=
  {| Backbone.name := "books";
     Backbone.serializer := Backbone.default_serializer plain_host;
     Backbone.records := ["a"; "b"] |}.

Definition shelf : Backbone.World :=
  {| Backbone.items := {["books" := "a,b"; "books-a" := "a"]};
     Backbone.stores := {[0%nat := books]};
     Backbone.drawn := 0;
     Backbone.called := [] |}.

(** A model of the store [books] with the id [id]. *)
Definition book (id : Backbone.Id) : Backbone.Model :=
  {| Backbone.id := id;
     Backbone.idAttribute := "id";
     Backbone.attributes := [];
     Backbone.localStorage := Backbone.Plain 0;
     Backbone.collection := None;
     Backbone.constructor_name := "Book" |}.

(** Every callback is there. *)
Definition all_callbacks : Backbone.Options :=
  {| Backbone.success := true; Backbone.error := true;
     Backbone.complete := true; Backbone.ajaxSync := false |}.

(** ** The vocabulary of the properties of the adapter *)

(** The string [s] holds no comma. *)
Fixpoint comma_free (s : string) : bool :=
  match s with
  | EmptyString => true
  | String c s' => negb (String.eqb (String c EmptyString) ",") && comma_free s'
  end.

(** The four digits [S4] makes of the [k]-th random number, and the
    identifier [guid] makes of the eight numbers from the [k]-th on. *)
Definition digits_of (H : Backbone.Host) (k : nat) : string :=
  Backbone.substring_1 (Backbone.toString_16 (Backbone.random_word H k)).

Definition guid_from (H : Backbone.Host) (k : nat) : string :=
  digits_of H k +:+ digits_of H (1 + k) +:+ "-" +:+
  digits_of H (2 + k) +:+ "-" +:+ digits_of H (3 + k) +:+ "-" +:+
  digits_of H (4 + k) +:+ "-" +:+
  digits_of H (5 + k) +:+ digits_of H (6 + k) +:+ digits_of H (7 + k).

(** What the loop of [destroy] leaves of the records [l]: an entry equal
    to [modelId] is spliced out, and the entry that takes its place is
    passed over. *)
Fixpoint after_splices (modelId : string) (l : list string) : list string :=
  match l with
  | [] => []
  | x :: l' =>
      if String.eqb x modelId then
        match l' with
        | [] => []
        | y :: l'' => y :: after_splices modelId l''
        end
      else x :: after_splices modelId l'
  end.

(** The store object behind [this], if there is one. *)
Definition store_at (this : nat) (w : Backbone.World) : option Backbone.Store :=
  Backbone.stores w !! this.

(** The records of the store behind [this]; none when there is no such
    store. *)
Definition records_at (this : nat) (w : Backbone.World) : list string :=
  match store_at this w with
  | Some store => Backbone.records store
  | None => []
  end.

(** * Properties *)

(** ** Padding *)

Lemma getPaddedMessageLength_ceil (n : Z) :
  0 <= n -> getPaddedMessageLength n = (n + 160) / 160 * 160.
Proof.
  intros Hn. unfold getPaddedMessageLength. cbv zeta.
  rewrite Z.rem_mod_nonneg by lia.
  destruct (Z.eqb_spec ((n + 1) mod 160) 0) as [H0 | H0]; cbn [negb].
  - assert (n + 160 = (n + 1) / 160 * 160 + 159) as ->.
    { pose proof (Z_div_mod_eq_full (n + 1) 160). lia. }
    rewrite Z.div_add_l by lia. change (159 / 160) with 0. lia.
  - pose proof (Z.mod_pos_bound (n + 1) 160 ltac:(lia)) as Hb.
    assert (n + 160 = ((n + 1) / 160 + 1) * 160 + ((n + 1) mod 160 - 1)) as ->.
    { pose proof (Z_div_mod_eq_full (n + 1) 160). lia. }
    rewrite Z.div_add_l by lia.
    rewrite (Z.div_small ((n + 1) mod 160 - 1) 160) by lia. lia.
Qed.

Lemma getPaddedMessageLength_bounds (n : Z) :
  0 <= n ->
  n + 1 <= getPaddedMessageLength n /\ getPaddedMessageLength n mod 160 = 0.
Proof.
  intros Hn. rewrite getPaddedMessageLength_ceil by lia. split.
  - pose proof (Z_div_mod_eq_full (n + 160) 160).
    pose proof (Z.mod_pos_bound (n + 160) 160 ltac:(lia)). lia.
  - apply Z.mod_mul. lia.
Qed.

(** The buffer [doSendMessage] encrypts, written out: the plaintext, the
    terminator, and zeros up to [getPaddedMessageLength (len + 1) - 1]. *)
Lemma padMessage_eq (m : Bytes) :
  padMessage m =
  Some (m ++ Byte.x80 ::
        replicate (Z.to_nat (getPaddedMessageLength (byteLength m + 1) - 1)
                   - length m - 1) Byte.x00).
Proof.
  unfold padMessage, byteLength. cbv zeta.
  pose proof (getPaddedMessageLength_bounds (Z.of_nat (length m) + 1) ltac:(lia))
    as [Hle _].
  set (L := getPaddedMessageLength (Z.of_nat (length m) + 1)) in *.
  unfold Buffer_alloc. destruct (Z.ltb_spec (L - 1) 0) as [? | _]; [lia |].
  cbn [mbind option_bind]. unfold Buffer_set. rewrite length_replicate.
  destruct (Nat.leb_spec (length m) (Z.to_nat (L - 1))) as [_ | ?]; [| lia].
  cbn [mbind option_bind]. f_equal. unfold Buffer_store.
  destruct (Z.ltb_spec (Z.of_nat (length m)) 0) as [? | _]; [lia |].
  rewrite Nat2Z.id, drop_replicate.
  set (k := (Z.to_nat (L - 1) - length m - 1)%nat).
  assert ((Z.to_nat (L - 1) - length m)%nat = S k) as -> by lia.
  replace (length m) with (length m + 0)%nat at 1 by lia.
  by rewrite insert_app_r.
Qed.

Lemma padMessage_length (m padded : Bytes) :
  padMessage m = Some padded ->
  byteLength padded = getPaddedMessageLength (byteLength m + 1) - 1.
Proof.
  rewrite padMessage_eq. intros [= <-]. unfold byteLength.
  pose proof (getPaddedMessageLength_bounds (Z.of_nat (length m) + 1) ltac:(lia))
    as [Hle _].
  rewrite length_app. cbn [length]. rewrite length_replicate. lia.
Qed.

Lemma padMessage_layout (m padded : Bytes) :
  padMessage m = Some padded ->
  take (length m) padded = m /\
  padded !! length m = Some Byte.x80 /\
  forall k, (length m < k < length padded)%nat -> padded !! k = Some Byte.x00.
Proof.
  rewrite padMessage_eq. intros [= <-]. split; [| split].
  - by rewrite take_app_length.
  - rewrite lookup_app_r by lia. by rewrite Nat.sub_diag.
  - intros k [Hk1 Hk2]. rewrite length_app in Hk2. cbn [length] in Hk2.
    rewrite length_replicate in Hk2.
    rewrite lookup_app_r by lia.
    destruct (k - length m)%nat as [| i] eqn:Hi; [lia |].
    cbn [lookup list_lookup]. apply lookup_replicate_2. lia.
Qed.

(** C3: the buffer [doSendMessage] builds from any plaintext [m] has a
    length congruent to 159 modulo 160, holds 0x80 at index [|m|] and zero
    at every later index. *)
Theorem padded_buffer_shape (m : Bytes) :
  exists padded,
    padMessage m = Some padded /\
    byteLength padded mod 160 = 159 /\
    padded !! length m = Some Byte.x80 /\
    forall k, (length m < k < length padded)%nat -> padded !! k = Some Byte.x00.
Proof.
  destruct (padMessage m) as [padded |] eqn:Hp;
    [| by rewrite padMessage_eq in Hp].
  exists padded. split; [done |].
  pose proof (padMessage_length _ _ Hp) as Hlen.
  pose proof (padMessage_layout _ _ Hp) as (_ & H80 & Hzero).
  split; [| done].
  rewrite Hlen.
  pose proof (getPaddedMessageLength_bounds (byteLength m + 1)
                ltac:(unfold byteLength; lia)) as [_ Hmod].
  apply Z.mod_divide in Hmod; [| lia]. destruct Hmod as [q Hq]. rewrite Hq.
  replace (q * 160 - 1) with (159 + (q - 1) * 160) by lia.
  by rewrite Z.mod_add.
Qed.

(** C2, as amended: the buffer has [ceil((|m| + 2) / 160) * 160 - 1] bytes
    (the terminator is counted once by the caller and once more by
    [getPaddedMessageLength]); it starts with [m], holds 0x80 at index
    [|m|] and zero after it. *)
Theorem padded_buffer_layout (m : Bytes) :
  exists padded,
    padMessage m = Some padded /\
    byteLength padded = ceil_div (byteLength m + 2) 160 * 160 - 1 /\
    take (length m) padded = m /\
    padded !! length m = Some Byte.x80 /\
    forall k, (length m < k < length padded)%nat -> padded !! k = Some Byte.x00.
Proof.
  destruct (padMessage m) as [padded |] eqn:Hp;
    [| by rewrite padMessage_eq in Hp].
  exists padded. split; [done |].
  split; [| by apply padMessage_layout].
  rewrite (padMessage_length _ _ Hp).
  rewrite getPaddedMessageLength_ceil by (unfold byteLength; lia).
  unfold ceil_div. do 3 f_equal. lia.
Qed.

(** C2 as stated fails for a plaintext of 159 bytes: the specification's
    formula gives a buffer of 159 bytes, with no room for the terminator,
    where the code allocates 319. *)
Lemma padded_length_159 :
  byteLength <$> padMessage (replicate 159 Byte.x00) = Some 319 /\
  spec_paddedLen (byteLength (replicate 159 Byte.x00)) = 159 /\
  ~ (exists padded,
       padMessage (replicate 159 Byte.x00) = Some padded /\
       byteLength padded = spec_paddedLen (byteLength (replicate 159 Byte.x00))).
Proof.
  assert (byteLength <$> padMessage (replicate 159 Byte.x00) = Some 319) as H1
    by (vm_compute; reflexivity).
  assert (spec_paddedLen (byteLength (replicate 159 Byte.x00)) = 159) as H2
    by (vm_compute; reflexivity).
  split; [done |]. split; [done |].
  intros (padded & Hp & Hlen). rewrite Hp, H2 in *. simpl in H1.
  injection H1 as H1. lia.
Qed.

(** ** Reasoning about asynchronous methods *)

Section Equations.

Context {Content : Type}.
Implicit Types s : St Content.

Lemma bind_eq {A B} (m : Async Content A) (f : A -> Async Content B) s :
  (m ≫= f) s =
  match m s with
  | (Ret a, s') => f a s'
  | (Throw e, s') => (Throw e, s')
  | (Starved, s') => (Starved, s')
  end.
Proof. reflexivity. Qed.

Lemma fmap_eq {A B} (g : A -> B) (m : Async Content A) s :
  (g <$> m) s =
  match m s with
  | (Ret a, s') => (Ret (g a), s')
  | (Throw e, s') => (Throw e, s')
  | (Starved, s') => (Starved, s')
  end.
Proof.
  unfold fmap, Async_fmap, bind, ret. by destruct (m s) as [[?|?|] ?].
Qed.

Lemma try_catch_eq {A} (m : Async Content A) h s :
  try_catch m h s =
  match m s with
  | (Throw e, s') => h e s'
  | r => r
  end.
Proof. reflexivity. Qed.

Lemma await_eq {A} (ev : Event Content) (op : list (Event Content) -> reply A) s :
  await ev op s =
  (match op (trace s) with Resolve a => Ret a | Reject e => Throw e end,
   {| this := this s; trace := trace s ++ [ev] |}).
Proof.
  unfold await, call. rewrite !bind_eq. cbn. by destruct (op (trace s)).
Qed.

Lemma call_eq {A} (ev : Event Content) (op : list (Event Content) -> reply A) s :
  call ev op s =
  (Ret (op (trace s)), {| this := this s; trace := trace s ++ [ev] |}).
Proof. reflexivity. Qed.

Lemma for_of_cons {A} (x : A) l (body : A -> Async Content unit) s :
  for_of (x :: l) body s =
  match body x s with
  | (Ret _, s') => for_of l body s'
  | (Throw e, s') => (Throw e, s')
  | (Starved, s') => (Starved, s')
  end.
Proof. reflexivity. Qed.

End Equations.

(** The jobs left to go on all come to an end without the caller, and
    those with silent rests leave no trace. *)
Section LeftPending.

Context {Content : Type} (E : Env Content).
Implicit Types s : St Content.

Lemma go_on_returns {A} n (pending : list (Async Content A)) s :
  (go_on E n pending s).1 = Ret tt.
Proof.
  revert pending s. induction n as [| n IH]; intros pending s; [done |].
  cbn [go_on]. rewrite bind_eq. cbn [get_trace]. cbv zeta.
  destruct (pending !! _) as [rest |]; [| done].
  rewrite bind_eq. unfold unawaited. apply IH.
Qed.

Lemma go_on_silent {A} n (pending : list (Async Content A)) s :
  Forall silent pending -> go_on E n pending s = (Ret tt, s).
Proof.
  revert pending s. induction n as [| n IH]; intros pending s Hall; [done |].
  cbn [go_on]. rewrite bind_eq. cbn [get_trace]. cbv zeta.
  destruct (pending !! _) as [rest |] eqn:Hk; [| done].
  rewrite bind_eq. unfold unawaited.
  rewrite Forall_forall in Hall.
  rewrite (Hall rest (list_elem_of_lookup_2 _ _ _ Hk) s).
  apply IH, Forall_delete. by apply Forall_forall.
Qed.

End LeftPending.

(** A relation between the state before and after a method that holds
    across sequencing ([R_refl], [R_trans]) and admits the recording of
    the events in [Q] is kept by every method that records only such
    events. *)
Section Frame.

Context {Content : Type} (E : Env Content).
Variable R : St Content -> St Content -> Prop.
Variable Q : Event Content -> Prop.
Hypothesis R_refl : forall s, R s s.
Hypothesis R_trans : forall s1 s2 s3, R s1 s2 -> R s2 s3 -> R s1 s3.
Hypothesis R_log : forall ev s, Q ev -> R s (log ev s).2.

(** What the relation lets a method assume of the object it reads. *)
Variable P : OutgoingMessage Content -> Prop.
Hypothesis R_this :
  forall A (f : OutgoingMessage Content -> Async Content A),
    (forall o, P o -> preserves R (f o)) -> preserves R (get_this ≫= f).

Lemma preserves_ret {A} (a : A) : preserves R (mret a).
Proof. intros s. apply R_refl. Qed.

Lemma preserves_throw {A} e : preserves R (@throw Content A e).
Proof. intros s. apply R_refl. Qed.

Lemma preserves_starve {A} : preserves R (@starve Content A).
Proof. intros s. apply R_refl. Qed.

Lemma preserves_get_this : preserves R get_this.
Proof. intros s. apply R_refl. Qed.

Lemma preserves_get_trace : preserves R get_trace.
Proof. intros s. apply R_refl. Qed.

Lemma preserves_settle {A} (r : reply A) : preserves R (settle r).
Proof. intros s. destruct r; apply R_refl. Qed.

Lemma preserves_log ev : Q ev -> preserves R (log ev).
Proof. intros HQ s. by apply R_log. Qed.

Lemma preserves_bind {A B} (m : Async Content A) (f : A -> Async Content B) :
  preserves R m -> (forall a, preserves R (f a)) -> preserves R (m ≫= f).
Proof.
  intros Hm Hf s. rewrite bind_eq. specialize (Hm s).
  destruct (m s) as [[a | e |] s']; cbn in *; [| done | done].
  eapply R_trans; [exact Hm | apply Hf].
Qed.

Lemma preserves_fmap {A B} (g : A -> B) (m : Async Content A) :
  preserves R m -> preserves R (g <$> m).
Proof.
  intros Hm s. rewrite fmap_eq. specialize (Hm s).
  by destruct (m s) as [[a | e |] s'].
Qed.

Lemma preserves_try_catch {A} (m : Async Content A) h :
  preserves R m -> (forall e, preserves R (h e)) -> preserves R (try_catch m h).
Proof.
  intros Hm Hh s. rewrite try_catch_eq. specialize (Hm s).
  destruct (m s) as [[a | e |] s']; cbn in *; [done | | done].
  eapply R_trans; [exact Hm | apply Hh].
Qed.

Lemma preserves_call {A} ev (op : list (Event Content) -> reply A) :
  Q ev -> preserves R (call ev op).
Proof.
  intros HQ. unfold call.
  apply preserves_bind; [apply preserves_get_trace | intros t].
  apply preserves_bind; [by apply preserves_log | intros _].
  apply preserves_ret.
Qed.

Lemma preserves_await {A} ev (op : list (Event Content) -> reply A) :
  Q ev -> preserves R (await ev op).
Proof.
  intros HQ. unfold await.
  apply preserves_bind; [by apply preserves_call | intros r].
  apply preserves_settle.
Qed.

Lemma preserves_for_of {A} (l : list A) (body : A -> Async Content unit) :
  (forall x, x ∈ l -> preserves R (body x)) -> preserves R (for_of l body).
Proof.
  induction l as [| x l IH]; intros Hb; [apply preserves_ret |].
  cbn [for_of]. apply preserves_bind.
  - apply Hb. left.
  - intros _. apply IH. intros y Hy. apply Hb. by right.
Qed.

Lemma preserves_job_intro {A B} (m : Async Content A)
    (rest : A -> Async Content B) :
  preserves R m -> (forall a, preserves R (rest a)) ->
  preserves_job R (a ← m; ret (rest a)).
Proof.
  intros Hm Hrest s. rewrite bind_eq. specialize (Hm s).
  destruct (m s) as [[a | e |] s']; cbn in *; [| done | done].
  split; [done |]. intros ? [= <-]. apply Hrest.
Qed.

Lemma preserves_job_ret {A} (rest : Async Content A) :
  preserves R rest -> preserves_job R (ret rest).
Proof. intros Hrest s. split; [apply R_refl |]. by intros ? [= <-]. Qed.

Lemma preserves_job_throw {A} e :
  preserves_job R (@throw Content (Async Content A) e).
Proof. intros s. split; [apply R_refl | done]. Qed.

Lemma preserves_start_all {A} (jobs : list (Job A)) s :
  Forall (preserves_job R) jobs ->
  R s (start_all jobs s).2 /\
  forall pending, (start_all jobs s).1 = Ret pending ->
    Forall (preserves R) pending.
Proof.
  intros Hjobs. revert s.
  induction Hjobs as [| job jobs Hjob _ IH]; intros s.
  { split; [apply R_refl |]. by intros ? [= <-]. }
  cbn [start_all]. rewrite bind_eq. destruct (Hjob s) as [Hs Hrest].
  destruct (job s) as [[rest | e |] s1]; cbn [fst snd] in *; [| done | done].
  rewrite bind_eq. destruct (IH s1) as [Hs1 Hpending].
  destruct (start_all jobs s1) as [[pending | e |] s2]; cbn [fst snd] in *;
    try (split; [by eapply R_trans | done]).
  split; [by eapply R_trans |]. intros ? [= <-]. constructor; auto.
Qed.

Lemma preserves_go_on {A} n (pending : list (Async Content A)) :
  Forall (preserves R) pending -> preserves R (go_on E n pending).
Proof.
  revert pending. induction n as [| n IH]; intros pending Hall;
    [apply preserves_ret |].
  cbn [go_on].
  apply preserves_bind; [apply preserves_get_trace | intros t]. cbv zeta.
  destruct (pending !! _) as [rest |] eqn:Hk; [| apply preserves_ret].
  apply preserves_bind; [| intros _; by apply IH, Forall_delete].
  intros s. unfold unawaited. cbn [snd].
  rewrite Forall_forall in Hall. eapply Hall, list_elem_of_lookup_2, Hk.
Qed.

Lemma preserves_settle_all {A} n (pending : list (Async Content A)) :
  Forall (preserves R) pending -> preserves R (settle_all E n pending).
Proof.
  revert pending. induction n as [| n IH]; intros pending Hall;
    [apply preserves_ret |].
  cbn [settle_all].
  apply preserves_bind; [apply preserves_get_trace | intros t]. cbv zeta.
  destruct (pending !! _) as [rest |] eqn:Hk; [| apply preserves_ret].
  apply preserves_bind.
  { apply preserves_try_catch.
    - rewrite Forall_forall in Hall. eapply Hall, list_elem_of_lookup_2, Hk.
    - intros e. apply preserves_bind; [| intros _; apply preserves_throw].
      by apply preserves_go_on, Forall_delete. }
  intros a. apply preserves_bind; [| intros ?; apply preserves_ret].
  by apply IH, Forall_delete.
Qed.

Lemma preserves_Promise_all {A} (jobs : list (Job A)) :
  Forall (preserves_job R) jobs -> preserves R (Promise_all E jobs).
Proof.
  intros Hjobs s. unfold Promise_all. rewrite bind_eq.
  destruct (preserves_start_all jobs s Hjobs) as [Hs Hpending].
  destruct (start_all jobs s) as [[pending | e |] s1]; cbn [fst snd] in *;
    [| done | done].
  eapply R_trans; [exact Hs |]. by apply preserves_settle_all, Hpending.
Qed.

(** *** The methods *)

Lemma preserves_run_callbacks handlers arg accepted :
  admits_console Q -> preserves R (run_callbacks handlers arg accepted).
Proof.
  intros Hc. revert accepted.
  induction handlers as [| callback handlers IH]; intros accepted;
    [apply preserves_ret |].
  cbn [run_callbacks].
  apply preserves_bind; [apply preserves_get_trace | intros t].
  apply preserves_bind; [| intros _; apply IH].
  destruct (h_threw (callback t arg));
    [by apply preserves_log | apply preserves_ret].
Qed.

Lemma preserves_emit event arg :
  Q (Emit event arg) -> admits_console Q -> preserves R (emit event arg).
Proof.
  intros HQ Hc. unfold emit.
  apply preserves_bind; [apply preserves_get_this | intros o].
  apply preserves_bind; [by apply preserves_log | intros _].
  unfold listeners_of.
  destruct (_listeners o !! event);
    [by apply preserves_run_callbacks |].
  destruct (bool_decide _); [apply preserves_throw | apply preserves_ret].
Qed.

Lemma preserves_emitError addr reason cause :
  admits_push R -> (forall arg, Q (Emit "error" arg)) -> admits_console Q ->
  preserves R (emitError E addr reason cause).
Proof.
  intros [Hp _] HQ Hc. unfold emitError.
  apply preserves_bind; [apply preserves_get_this | intros o].
  apply preserves_bind;
    [apply preserves_fmap, preserves_get_trace | intros now].
  apply preserves_bind; [apply Hp | intros _].
  apply preserves_bind; [by apply preserves_emit | intros _].
  apply preserves_ret.
Qed.

Lemma preserves_emitSent addr :
  admits_push R -> (forall arg, Q (Emit "sent" arg)) -> admits_console Q ->
  preserves R (emitSent E addr).
Proof.
  intros [_ Hp] HQ Hc. unfold emitSent.
  apply preserves_bind;
    [apply preserves_fmap, preserves_get_trace | intros now].
  apply preserves_bind; [apply Hp | intros _].
  apply preserves_bind; [by apply preserves_emit | intros _].
  apply preserves_ret.
Qed.

Lemma preserves_removeDeviceIdsForAddr addr ids :
  (forall l id, ids = Some l -> id ∈ l -> Q (RemoveSession (encodedAddr addr id))) ->
  preserves R (removeDeviceIdsForAddr E addr ids).
Proof.
  intros HQ. destruct ids as [l |]; cbn; [| apply preserves_throw].
  apply preserves_for_of. intros id Hid. apply preserves_await. by eapply HQ.
Qed.

Lemma preserves_staleScan addr deviceIds updateDevices :
  (forall id, Q (HasOpenSession addr id)) ->
  preserves R (staleScan E addr deviceIds updateDevices).
Proof.
  intros HQ. revert updateDevices.
  induction deviceIds as [| id deviceIds IH]; intros updateDevices;
    [apply preserves_ret |].
  cbn [staleScan]. apply preserves_bind; [by apply preserves_await |].
  intros open. apply IH.
Qed.

Lemma preserves_getStaleDeviceIdsForAddr addr :
  Q (GetDeviceIds addr) -> (forall id, Q (HasOpenSession addr id)) ->
  preserves R (getStaleDeviceIdsForAddr E addr).
Proof.
  intros H1 H2. unfold getStaleDeviceIdsForAddr.
  apply preserves_bind; [by apply preserves_await | intros deviceIds].
  destruct (length deviceIds =? 0)%nat;
    [apply preserves_ret | by apply preserves_staleScan].
Qed.

Lemma preserves_processDevice retry addr updateDevices reentrant response x :
  (reentrant = false -> preserves R retry) ->
  Q (ProcessPreKey addr (deviceId x)) ->
  (reentrant = false -> forall arg, Q (Emit "keychange" arg)) ->
  admits_console Q ->
  preserves_job R (processDevice E retry addr updateDevices reentrant response x).
Proof.
  intros Hretry Hpre Hkey Hc. unfold processDevice. cbv zeta.
  match goal with |- preserves_job R (if ?b then _ else _) => destruct b end;
    [| apply preserves_job_ret, preserves_ret].
  apply preserves_job_intro; [by apply preserves_call | intros processed].
  apply preserves_try_catch; [apply preserves_settle | intros e].
  destruct (String.eqb _ _); [| apply preserves_throw].
  apply preserves_bind; [apply preserves_get_this | intros o].
  destruct reentrant; cbn [negb]; [apply preserves_throw |].
  apply preserves_bind; [apply preserves_emit; auto | intros accepted].
  destruct accepted; cbn [negb]; [auto | apply preserves_throw].
Qed.

Lemma preserves_handleResult retry addr updateDevices reentrant response :
  (reentrant = false -> preserves R retry) ->
  (forall x, x ∈ devices response -> Q (ProcessPreKey addr (deviceId x))) ->
  (reentrant = false -> forall arg, Q (Emit "keychange" arg)) ->
  admits_console Q ->
  preserves R (handleResult E retry addr updateDevices reentrant response).
Proof.
  intros Hretry Hpre Hkey Hc. unfold handleResult.
  apply preserves_bind; [| intros _; apply preserves_ret].
  apply preserves_Promise_all. apply Forall_map, Forall_forall.
  intros x Hx. apply preserves_processDevice; auto.
Qed.

Lemma preserves_fetchDevice retry addr updateDevices reentrant device :
  (reentrant = false -> preserves R retry) ->
  Q (FetchKeys addr (Some device)) ->
  (forall id, Q (ProcessPreKey addr id)) ->
  (device <> 1 -> Q (RemoveSession (encodedAddr addr device))) ->
  (reentrant = false -> forall arg, Q (Emit "keychange" arg)) ->
  admits_console Q ->
  preserves R (fetchDevice E retry addr updateDevices reentrant device).
Proof.
  intros Hretry Hfetch Hpre Hrm Hkey Hc. unfold fetchDevice.
  apply preserves_try_catch.
  - apply preserves_bind; [by apply preserves_await | intros response].
    apply preserves_handleResult; auto.
  - intros e. destruct (protocol_code e) as [code |];
      [| apply preserves_throw].
    destruct (Z.eqb_spec code 404); cbn [andb]; [| apply preserves_throw].
    destruct (Z.eqb_spec device 1); cbn [negb]; [apply preserves_throw |].
    apply preserves_removeDeviceIdsForAddr.
    intros l id [= <-] Hid. apply list_elem_of_singleton in Hid as ->.
    auto.
Qed.

Lemma preserves_getKeysForAddr_body retry addr updateDevices reentrant :
  (reentrant = false -> preserves R retry) ->
  admits_key_exchange Q addr updateDevices ->
  (reentrant = false -> forall arg, Q (Emit "keychange" arg)) ->
  admits_console Q ->
  preserves R (getKeysForAddr_body E retry addr updateDevices reentrant).
Proof.
  intros Hretry (Henter & Hall & Hone & Hpre & Hrm) Hkey Hc.
  unfold getKeysForAddr_body.
  apply preserves_bind; [by apply preserves_log | intros _].
  destruct updateDevices as [ids |].
  - apply preserves_for_of. intros device Hdev.
    apply preserves_fetchDevice; eauto.
  - apply preserves_bind; [apply preserves_await; auto | intros response].
    apply preserves_handleResult; auto.
Qed.

Lemma preserves_getKeysForAddr addr updateDevices reentrant :
  admits_key_exchange Q addr updateDevices ->
  (reentrant = false -> forall arg, Q (Emit "keychange" arg)) ->
  admits_console Q ->
  preserves R (getKeysForAddr E addr updateDevices reentrant).
Proof.
  intros Hk Hkey Hc. unfold getKeysForAddr.
  apply preserves_getKeysForAddr_body; auto.
  intros _. apply preserves_getKeysForAddr_body; auto; discriminate.
Qed.

Lemma preserves_transmitMessage addr jsonData timestamp :
  (forall answer, Q (SendMessages addr jsonData timestamp answer)) ->
  preserves R (transmitMessage E addr jsonData timestamp).
Proof.
  intros HQ. unfold transmitMessage.
  apply preserves_bind; [apply preserves_get_trace | intros t]. cbv zeta.
  apply preserves_bind; [by apply preserves_log | intros _].
  apply preserves_try_catch; [apply preserves_settle | intros e].
  destruct (protocol_code e) as [code |]; [| apply preserves_throw].
  destruct (_ && _); [| apply preserves_throw].
  destruct (code =? 404); apply preserves_throw.
Qed.

Lemma preserves_encryptToDevice addr id mBuf :
  Q (Encrypt addr id mBuf) -> preserves_job R (encryptToDevice E addr id mBuf).
Proof.
  intros HQ. unfold encryptToDevice.
  apply preserves_job_intro; [by apply preserves_call | intros answer].
  apply preserves_bind; [apply preserves_settle | intros encrypted].
  apply preserves_ret.
Qed.

Lemma preserves_encryptAll addr deviceIds paddedBuf :
  (forall id, id ∈ deviceIds -> Q (Encrypt addr id paddedBuf)) ->
  preserves R (encryptAll E addr deviceIds paddedBuf).
Proof.
  intros HQ. unfold encryptAll.
  apply preserves_Promise_all, Forall_map, Forall_forall.
  intros id Hid. by apply preserves_encryptToDevice, HQ.
Qed.

Lemma preserves_closeStaleSessions ciphers staleDevices :
  (forall x cipher, x ∈ staleDevices -> ciphers !! x = Some cipher ->
     Q (CloseOpenSession (cipher_addr cipher) (cipher_device cipher))) ->
  preserves R (closeStaleSessions E ciphers staleDevices).
Proof.
  intros HQ. unfold closeStaleSessions.
  apply preserves_bind; [| intros _; apply preserves_ret].
  apply preserves_Promise_all, Forall_map, Forall_forall. intros x Hx.
  destruct (ciphers !! x) as [cipher |] eqn:Hc; [| apply preserves_job_throw].
  apply preserves_job_intro; [| intros closed; apply preserves_settle].
  apply preserves_call. by eapply HQ.
Qed.

Lemma preserves_recover ciphers addr code response :
  admits_recovery Q ciphers addr code response ->
  preserves R (recover E ciphers addr code response).
Proof.
  intros (Hrm & Hclose & Hk & Hkey & Hc). unfold recover.
  apply preserves_bind.
  - destruct (Z.eqb_spec code 409) as [H9 | H9].
    + apply preserves_removeDeviceIdsForAddr.
      intros l id Hl Hid. by eapply Hrm.
    + destruct (staleDevices response) eqn:Hs; [| apply preserves_throw].
      apply preserves_closeStaleSessions.
      intros x cipher Hx Hc'. by eapply Hclose.
  - intros _. cbv zeta. apply preserves_getKeysForAddr; auto.
Qed.

Lemma admits_dispatch_key_exchange addr updateDevices :
  admits_dispatch R Q P addr -> admits_key_exchange Q addr updateDevices.
Proof. intros (?&?&?&?&?&?&?&?&?&?&?&?&?). repeat split; auto. Qed.

Lemma build_ciphers_lookup addr deviceIds x cipher :
  build_ciphers addr deviceIds !! x = Some cipher ->
  x ∈ deviceIds /\ cipher = {| cipher_addr := addr; cipher_device := x |}.
Proof.
  unfold build_ciphers.
  assert (forall (m0 : gmap Z SessionCipher),
    foldl (fun ciphers id =>
             <[id := {| cipher_addr := addr; cipher_device := id |}]> ciphers)
          m0 deviceIds !! x = Some cipher ->
    (x ∈ deviceIds /\ cipher = {| cipher_addr := addr; cipher_device := x |})
    \/ m0 !! x = Some cipher) as Hgen.
  { induction deviceIds as [| id ids IH]; intros m0 Hl; cbn in Hl; [by right |].
    apply IH in Hl as [[Hin ->] | Hl].
    - left. split; [by right | done].
    - destruct (decide (id = x)) as [-> | Hne].
      + rewrite lookup_insert_eq in Hl. injection Hl as <-.
        left. split; [left | done].
      + rewrite lookup_insert_ne in Hl by done. by right. }
  intros Hl. apply Hgen in Hl as [? | Hl]; [done |].
  by rewrite lookup_empty in Hl.
Qed.

Lemma build_ciphers_None addr deviceIds x :
  build_ciphers addr deviceIds !! x = None <-> x ∉ deviceIds.
Proof.
  unfold build_ciphers.
  assert (forall (m0 : gmap Z SessionCipher),
    foldl (fun ciphers id =>
             <[id := {| cipher_addr := addr; cipher_device := id |}]> ciphers)
          m0 deviceIds !! x = None <-> ((x ∉ deviceIds) /\ m0 !! x = None))
    as Hgen.
  { induction deviceIds as [| id ids IH]; intros m0; cbn.
    - split; [intros ?; split; [apply not_elem_of_nil | done] | by intros [_ ?]].
    - rewrite IH, not_elem_of_cons.
      destruct (decide (id = x)) as [-> | Hne].
      + rewrite lookup_insert_eq. intuition congruence.
      + rewrite lookup_insert_ne by done. intuition congruence. }
  rewrite Hgen, lookup_empty. intuition.
Qed.

Lemma preserves_doSendMessage fuel addr deviceIds recurse :
  admits_dispatch R Q P addr ->
  preserves R (doSendMessage E fuel addr deviceIds recurse).
Proof.
  intros Hd.
  pose proof (fun u => admits_dispatch_key_exchange addr u Hd) as Hk.
  destruct Hd as (Hp & Hc & Hemit & Hget & Hopen & Henc & Hclose & Hrm &
                  Hfetch & Hpre & Hek & Her & Hsend).
  assert (forall reason cause, preserves R (emitError E addr reason cause)) as Herr
    by (intros; apply preserves_emitError; auto).
  revert deviceIds recurse.
  induction fuel as [| fuel IH]; intros deviceIds recurse;
    [apply preserves_starve |].
  cbn [doSendMessage]. cbv zeta.
  apply preserves_bind; [apply preserves_get_this | intros o].
  destruct (padMessage _) as [paddedBuf |]; [| apply preserves_throw].
  apply preserves_bind.
  { apply preserves_try_catch.
    - apply preserves_fmap, preserves_encryptAll. auto.
    - intros e. apply preserves_bind; [apply Herr | intros _].
      apply preserves_ret. }
  intros [messages |]; [| apply preserves_ret].
  apply R_this. intros o' Ho'.
  apply preserves_bind.
  2:{ intros [|]; [apply preserves_emitSent; auto | apply preserves_ret]. }
  apply preserves_try_catch.
  { apply preserves_bind; [apply preserves_transmitMessage; auto | intros _].
    apply preserves_ret. }
  assert (forall reason cause,
            preserves R (emitError E addr reason cause ;; mret false)) as Hstop.
  { intros. apply preserves_bind; [apply Herr | intros _; apply preserves_ret]. }
  intros e. destruct e as [code response | | | | |]; try apply Hstop.
  destruct (_ || _); [| apply Hstop].
  destruct recurse; cbn [negb]; [| apply Hstop].
  apply preserves_bind.
  { apply preserves_recover. split_and!; auto.
    intros _ l x cipher _ _ Hx.
    apply build_ciphers_lookup in Hx as [_ ->]. apply Hclose. }
  intros _. apply preserves_try_catch; [| intros e; apply Hstop].
  apply preserves_bind; [| intros _; apply preserves_ret].
  unfold reloadDevicesAndSend_with.
  apply preserves_bind; [by apply preserves_log | intros _].
  apply preserves_bind; [by apply preserves_await | intros ids].
  apply IH.
Qed.

Lemma preserves_reloadDevicesAndSend fuel addr recurse :
  admits_dispatch R Q P addr ->
  preserves R (reloadDevicesAndSend E fuel addr recurse).
Proof.
  intros Hd. unfold reloadDevicesAndSend, reloadDevicesAndSend_with.
  pose proof (preserves_doSendMessage fuel addr) as Hdo.
  specialize (fun ids => Hdo ids recurse Hd).
  destruct Hd as (Hp & Hc & Hemit & Hget & Hopen & Henc & Hclose & Hrm &
                  Hfetch & Hpre & Hek & Her & Hsend).
  apply preserves_bind; [by apply preserves_log | intros _].
  apply preserves_bind; [by apply preserves_await | intros ids].
  apply Hdo.
Qed.

Lemma preserves_sendToAddr fuel addr :
  admits_dispatch R Q P addr -> preserves R (sendToAddr E fuel addr).
Proof.
  intros Hd.
  pose proof (preserves_reloadDevicesAndSend fuel addr true Hd) as Hre.
  pose proof (fun u => admits_dispatch_key_exchange addr u Hd) as Hk.
  destruct Hd as (Hp & Hc & Hemit & Hget & Hopen & Henc & Hclose & Hrm &
                  Hfetch & Hpre & Hek & Her & Hsend).
  assert (forall reason cause, preserves R (emitError E addr reason cause)) as Herr
    by (intros; apply preserves_emitError; auto).
  unfold sendToAddr.
  apply preserves_bind.
  { apply preserves_try_catch.
    - by apply preserves_fmap, preserves_getStaleDeviceIdsForAddr.
    - intros e. apply preserves_bind; [apply Herr | intros _].
      apply preserves_ret. }
  intros [updateDevices |]; [| apply preserves_ret].
  apply preserves_bind.
  { apply preserves_try_catch.
    - apply preserves_bind; [| intros _; apply preserves_ret].
      apply preserves_getKeysForAddr; auto.
    - intros e. apply preserves_bind; [apply Herr | intros _].
      apply preserves_ret. }
  intros [|]; [| apply preserves_ret].
  apply preserves_try_catch; [exact Hre | intros e; apply Herr].
Qed.

(** *** The key exchange for an explicit list of devices: a device of the
    answer that was not asked for is passed over *)

Lemma preserves_processDevice_of retry addr ids reentrant response x :
  (reentrant = false -> preserves R retry) ->
  (deviceId x ∈ ids -> Q (ProcessPreKey addr (deviceId x))) ->
  (reentrant = false -> forall arg, Q (Emit "keychange" arg)) ->
  (reentrant = false -> admits_console Q) ->
  preserves_job R (processDevice E retry addr (Some ids) reentrant response x).
Proof.
  intros Hretry Hpre Hkey Hc. unfold processDevice. cbv zeta.
  cbn [deviceId with_identityKey].
  destruct (bool_decide_reflect (deviceId x ∈ ids)) as [Hin | _];
    [| apply preserves_job_ret, preserves_ret].
  apply preserves_job_intro; [by apply preserves_call, Hpre | intros processed].
  apply preserves_try_catch; [apply preserves_settle | intros e].
  destruct (String.eqb _ _); [| apply preserves_throw].
  apply preserves_bind; [apply preserves_get_this | intros o].
  destruct reentrant; cbn [negb]; [apply preserves_throw |].
  apply preserves_bind; [apply preserves_emit; auto | intros accepted].
  destruct accepted; cbn [negb]; [auto | apply preserves_throw].
Qed.

Lemma preserves_getKeysForAddr_body_of retry addr ids reentrant :
  (reentrant = false -> preserves R retry) ->
  Q (Enter_getKeysForAddr addr (Some ids) reentrant) ->
  (forall id, id ∈ ids -> Q (FetchKeys addr (Some id))) ->
  (forall id, id ∈ ids -> Q (ProcessPreKey addr id)) ->
  (forall id, id ∈ ids -> id <> 1 -> Q (RemoveSession (encodedAddr addr id))) ->
  (reentrant = false -> forall arg, Q (Emit "keychange" arg)) ->
  (reentrant = false -> admits_console Q) ->
  preserves R (getKeysForAddr_body E retry addr (Some ids) reentrant).
Proof.
  intros Hretry Henter Hfetch Hpre Hrm Hkey Hc. unfold getKeysForAddr_body.
  apply preserves_bind; [by apply preserves_log | intros _].
  apply preserves_for_of. intros device Hdev. unfold fetchDevice.
  apply preserves_try_catch.
  - apply preserves_bind; [by apply preserves_await, Hfetch | intros response].
    unfold handleResult.
    apply preserves_bind; [| intros _; apply preserves_ret].
    apply preserves_Promise_all, Forall_map, Forall_forall. intros x _.
    apply preserves_processDevice_of; auto.
  - intros e. destruct (protocol_code e) as [code |]; [| apply preserves_throw].
    destruct (Z.eqb_spec code 404); cbn [andb]; [| apply preserves_throw].
    destruct (Z.eqb_spec device 1); cbn [negb]; [apply preserves_throw |].
    apply preserves_removeDeviceIdsForAddr.
    intros l id [= <-] Hid. apply list_elem_of_singleton in Hid as ->. auto.
Qed.

(** *** The same, for relations that [emitError] and [emitSent] keep only
    as wholes *)

Lemma sending_key_exchange addr updateDevices :
  admits_sending E R Q P addr -> admits_key_exchange Q addr updateDevices.
Proof. intros (?&?&?&?&?&?&?&?&?&?&?&?&?&?). repeat split; auto. Qed.

Lemma sending_doSendMessage fuel addr deviceIds recurse :
  admits_sending E R Q P addr ->
  preserves R (doSendMessage E fuel addr deviceIds recurse).
Proof.
  intros Hd.
  pose proof (fun u => sending_key_exchange addr u Hd) as Hk.
  destruct Hd as (Herr & Hsent & Hc & Hkey & Hget & Hopen & Henc & Hclose &
                  Hrm & Hfetch & Hpre & Hek & Her & Hsend).
  revert deviceIds recurse.
  induction fuel as [| fuel IH]; intros deviceIds recurse;
    [apply preserves_starve |].
  cbn [doSendMessage]. cbv zeta.
  apply R_this. intros o Ho.
  destruct (padMessage _) as [paddedBuf |] eqn:Hpad; [| apply preserves_throw].
  apply preserves_bind.
  { apply preserves_try_catch.
    - apply preserves_fmap, preserves_encryptAll. intros id _. by eapply Henc.
    - intros e. apply preserves_bind; [apply Herr | intros _].
      apply preserves_ret. }
  intros [messages |]; [| apply preserves_ret].
  apply R_this. intros o' Ho'.
  apply preserves_bind.
  2:{ intros [|]; [apply Hsent | apply preserves_ret]. }
  apply preserves_try_catch.
  { apply preserves_bind; [apply preserves_transmitMessage; auto | intros _].
    apply preserves_ret. }
  assert (forall reason cause,
            preserves R (emitError E addr reason cause ;; mret false)) as Hstop.
  { intros. apply preserves_bind; [apply Herr | intros _; apply preserves_ret]. }
  intros e. destruct e as [code response | | | | |]; try apply Hstop.
  destruct (_ || _); [| apply Hstop].
  destruct recurse; cbn [negb]; [| apply Hstop].
  apply preserves_bind.
  { apply preserves_recover. split_and!; auto.
    intros _ l x cipher _ _ Hx.
    apply build_ciphers_lookup in Hx as [_ ->]. apply Hclose. }
  intros _. apply preserves_try_catch; [| intros e; apply Hstop].
  apply preserves_bind; [| intros _; apply preserves_ret].
  unfold reloadDevicesAndSend_with.
  apply preserves_bind; [by apply preserves_log | intros _].
  apply preserves_bind; [by apply preserves_await | intros ids].
  apply IH.
Qed.

Lemma sending_sendToAddr fuel addr :
  admits_sending E R Q P addr -> preserves R (sendToAddr E fuel addr).
Proof.
  intros Hd.
  pose proof (fun ids => sending_doSendMessage fuel addr ids true Hd) as Hdo.
  pose proof (fun u => sending_key_exchange addr u Hd) as Hk.
  destruct Hd as (Herr & Hsent & Hc & Hkey & Hget & Hopen & Henc & Hclose &
                  Hrm & Hfetch & Hpre & Hek & Her & Hsend).
  unfold sendToAddr.
  apply preserves_bind.
  { apply preserves_try_catch.
    - by apply preserves_fmap, preserves_getStaleDeviceIdsForAddr.
    - intros e. apply preserves_bind; [apply Herr | intros _].
      apply preserves_ret. }
  intros [updateDevices |]; [| apply preserves_ret].
  apply preserves_bind.
  { apply preserves_try_catch.
    - apply preserves_bind; [| intros _; apply preserves_ret].
      apply preserves_getKeysForAddr; auto.
    - intros e. apply preserves_bind; [apply Herr | intros _].
      apply preserves_ret. }
  intros [|]; [| apply preserves_ret].
  apply preserves_try_catch; [| intros e; apply Herr].
  unfold reloadDevicesAndSend, reloadDevicesAndSend_with.
  apply preserves_bind; [by apply preserves_log | intros _].
  apply preserves_bind; [by apply preserves_await | intros ids].
  apply Hdo.
Qed.

End Frame.

(** ** Three relations a method may keep *)

Section Relations.

Context {Content : Type}.
Implicit Types s : St Content.
Implicit Types Q : Event Content -> Prop.

Lemma extends_refl Q s : extends Q s s.
Proof. exists []. by rewrite app_nil_r. Qed.

Lemma extends_trans Q s1 s2 s3 :
  extends Q s1 s2 -> extends Q s2 s3 -> extends Q s1 s3.
Proof.
  intros (t1 & H1 & Q1) (t2 & H2 & Q2). exists (t1 ++ t2).
  rewrite H2, H1, app_assoc. split; [done | by apply Forall_app].
Qed.

Lemma extends_log Q ev s : Q ev -> extends Q s (log ev s).2.
Proof. intros HQ. exists [ev]. split; [done | by constructor]. Qed.

Lemma extends_mono Q Q' s s' :
  (forall ev, Q ev -> Q' ev) -> extends Q s s' -> extends Q' s s'.
Proof.
  intros Hi (t & Ht & HQ). exists t. split; [done |].
  eapply Forall_impl; eauto.
Qed.

Lemma untouched_refl Q s : untouched Q s s.
Proof. split; [done | apply extends_refl]. Qed.

Lemma untouched_trans Q s1 s2 s3 :
  untouched Q s1 s2 -> untouched Q s2 s3 -> untouched Q s1 s3.
Proof.
  intros [E1 X1] [E2 X2]. split; [congruence | by eapply extends_trans].
Qed.

Lemma untouched_log Q ev s : Q ev -> untouched Q s (log ev s).2.
Proof. intros HQ. split; [done | by apply extends_log]. Qed.

Lemma grows_refl Q s : grows Q s s.
Proof.
  unfold grows. split_and!; try done; try apply extends_refl;
    exists []; by rewrite app_nil_r.
Qed.

Lemma grows_trans Q s1 s2 s3 : grows Q s1 s2 -> grows Q s2 s3 -> grows Q s1 s3.
Proof.
  intros (T1 & M1 & L1 & (es1 & E1) & (ss1 & S1) & X1)
         (T2 & M2 & L2 & (es2 & E2) & (ss2 & S2) & X2).
  unfold grows. split_and!; try congruence.
  - exists (es1 ++ es2). by rewrite E2, E1, app_assoc.
  - exists (ss1 ++ ss2). by rewrite S2, S1, app_assoc.
  - by eapply extends_trans.
Qed.

Lemma grows_log Q ev s : Q ev -> grows Q s (log ev s).2.
Proof.
  intros HQ. unfold grows.
  split_and!; try done; try (by apply extends_log);
    exists []; by rewrite app_nil_r.
Qed.

Lemma grows_push Q : admits_push (grows Q).
Proof.
  split; intros entry s; cbn; unfold grows; cbn.
  - split_and!; try done;
      [by exists [entry] | exists []; by rewrite app_nil_r
      | exists []; cbn; by rewrite app_nil_r].
  - split_and!; try done;
      [exists []; by rewrite app_nil_r | by exists [entry]
      | exists []; cbn; by rewrite app_nil_r].
Qed.

Lemma untouched_grows Q s s' : untouched Q s s' -> grows Q s s'.
Proof.
  intros [Ht Hx]. unfold grows. rewrite Ht.
  split_and!; try done; exists []; by rewrite app_nil_r.
Qed.

End Relations.

(** ** What [emitError] records (C4) *)

Section EmitError.

Context {Content : Type} (E : Env Content).
Implicit Types s : St Content.

Lemma emit_untouched event arg s :
  untouched (fun _ => True) s (emit event arg s).2.
Proof.
  apply (preserves_emit (untouched (fun _ => True)) (fun _ => True)
           (untouched_refl _) (untouched_trans _)
           (fun ev s0 H => untouched_log _ ev s0 H)); done.
Qed.

Lemma emitError_this addr reason cause s :
  this (emitError E addr reason cause s).2 =
  push_error {| entry_timestamp := Date_now E (trace s);
                entry_error := wrap_error (this s) addr cause;
                error_addr := addr;
                error_reason := reason |} (this s).
Proof.
  unfold emitError. rewrite bind_eq. cbn [get_this].
  rewrite bind_eq, fmap_eq. cbn [get_trace].
  rewrite bind_eq. cbn [modify_this].
  rewrite bind_eq.
  match goal with |- context [emit ?ev ?arg ?s0] =>
    pose proof (emit_untouched ev arg s0) as [Ht _];
    destruct (emit ev arg s0) as [[? | ? |] s1] end; cbn in *; by rewrite Ht.
Qed.

Lemma run_callbacks_returns handlers (arg : EventArg Content) accepted s :
  exists b, (run_callbacks handlers arg accepted s).1 = Ret b.
Proof.
  revert accepted s.
  induction handlers as [| callback handlers IH]; intros accepted s;
    [by eexists |].
  cbn [run_callbacks]. rewrite bind_eq. cbn [get_trace]. rewrite bind_eq.
  destruct (h_threw _); cbn; apply IH.
Qed.

(** Under a name that [Object.prototype] does not define, [emit]
    returns. *)
Lemma emit_returns event (arg : EventArg Content) s :
  bool_decide (event ∈ Object_prototype) = false ->
  exists b, (emit event arg s).1 = Ret b.
Proof.
  intros Hown.
  unfold emit. rewrite bind_eq. cbn [get_this]. rewrite bind_eq. cbn [log].
  unfold listeners_of. rewrite Hown.
  destruct (_ !! _) as [handlers |]; [| by eexists].
  apply run_callbacks_returns.
Qed.

Lemma emitError_returns addr reason cause s :
  (emitError E addr reason cause s).1 = Ret tt.
Proof.
  unfold emitError. rewrite bind_eq. cbn [get_this].
  rewrite bind_eq, fmap_eq. cbn [get_trace].
  rewrite bind_eq. cbn [modify_this].
  rewrite bind_eq.
  match goal with |- context [emit ?ev ?arg ?s0] =>
    destruct (emit_returns ev arg s0 eq_refl) as [b Hb];
    destruct (emit ev arg s0) as [[? | ? |] s1]; cbn in *; congruence end.
Qed.

Lemma emitSent_returns addr s : (emitSent E addr s).1 = Ret tt.
Proof.
  unfold emitSent. rewrite bind_eq, fmap_eq. cbn [get_trace].
  rewrite bind_eq. cbn [modify_this].
  rewrite bind_eq.
  match goal with |- context [emit ?ev ?arg ?s0] =>
    destruct (emit_returns ev arg s0 eq_refl) as [b Hb];
    destruct (emit ev arg s0) as [[? | ? |] s1]; cbn in *; congruence end.
Qed.

Lemma emitSent_this addr s :
  this (emitSent E addr s).2 =
  push_sent {| sent_timestamp := Date_now E (trace s); sent_addr := addr |}
            (this s).
Proof.
  unfold emitSent. rewrite bind_eq, fmap_eq. cbn [get_trace].
  rewrite bind_eq. cbn [modify_this].
  rewrite bind_eq.
  match goal with |- context [emit ?ev ?arg ?s0] =>
    pose proof (emit_untouched ev arg s0) as [Ht _];
    destruct (emit ev arg s0) as [[? | ? |] s1] end; cbn in *; by rewrite Ht.
Qed.

(** C4, as amended: the entry [emitError] appends holds the cause wrapped
    in an OutgoingMessageError when there is no cause or the cause is a
    protocol error whose code is not 404; a protocol error of code 404 and
    every error that is not a protocol error are recorded as they are. *)
Theorem emitError_entry addr reason (cause : option (error Content)) s :
  exists entry,
    errors (this (emitError E addr reason cause s).2) =
      errors (this s) ++ [entry] /\
    error_addr entry = addr /\
    error_reason entry = reason /\
    (cause = None ->
       entry_error entry =
       OutgoingMessageError addr (message (this s)) (timestamp (this s)) None) /\
    (forall code response,
       cause = Some (ProtocolError code response) -> code <> 404 ->
       entry_error entry =
       OutgoingMessageError addr (message (this s)) (timestamp (this s)) cause) /\
    (forall response,
       cause = Some (ProtocolError 404 response) ->
       entry_error entry = ProtocolError 404 response) /\
    (forall e,
       cause = Some e -> protocol_code e = None -> entry_error entry = e).
Proof.
  eexists. rewrite emitError_this. cbn. split; [reflexivity |].
  repeat split.
  - by intros ->.
  - intros code response -> Hcode. cbn.
    by destruct (Z.eqb_spec code 404).
  - by intros response ->.
  - intros e -> He. cbn. by rewrite He.
Qed.

End EmitError.

(** C4 as stated fails for a cause that is not a protocol error: a
    TypeError is recorded as it is, not wrapped. *)
Lemma emitError_keeps_plain_error :
  protocol_code (JsError "TypeError" "boom" : error Bytes) = None /\
  map entry_error
    (errors (this (emitError (scripted (script_ok [1])) "alice"
                     "Failed to send to address alice"
                     (Some (JsError "TypeError" "boom")) (fresh 42 [])).2)) =
  [JsError "TypeError" "boom"] /\
  ~ (map entry_error
       (errors (this (emitError (scripted (script_ok [1])) "alice"
                        "Failed to send to address alice"
                        (Some (JsError "TypeError" "boom")) (fresh 42 [])).2)) =
     [OutgoingMessageError "alice" [] 42 (Some (JsError "TypeError" "boom"))]).
Proof.
  split; [reflexivity |]. split; [vm_compute; reflexivity |].
  vm_compute. discriminate.
Qed.

(** ** A recovered dispatch emits [sent] once too often (C1)

    The method returns after every [emitError], but not after the
    recursive [reloadDevicesAndSend] of line 417: when that call returns,
    control falls through to the [emitSent] of line 427, whatever the inner
    call emitted. *)

(** C1, on the code: local devices 1, 2, 3; the server answers the first
    transmission with 409 (device 3 is extra) and accepts the second: two
    [sent] entries for one dispatch.  Local devices 1, 2; the server
    answers both transmissions with 410: an [error] entry and then a
    [sent] entry. *)
Theorem sendToAddr_recovery_emits_sent_again :
  (let r := sendToAddr (scripted (script_sends [1; 2; 3]
                                   [Some (answer_409 [3] [])]))
              4 "alice" (fresh 42 [Byte.x01]) in
   r.1 = Ret tt /\
   map sent_addr (sent (this r.2)) = ["alice"; "alice"] /\
   errors (this r.2) = [] /\
   length (emitted "sent" (trace r.2)) = 2%nat) /\
  (let r := sendToAddr (scripted (script_sends [1; 2]
                                   [Some (answer_410 [2]); Some (answer_410 [2])]))
              4 "alice" (fresh 42 [Byte.x01]) in
   r.1 = Ret tt /\
   map error_reason (errors (this r.2)) =
     ["Hit retry limit attempting to reload device list"] /\
   map sent_addr (sent (this r.2)) = ["alice"] /\
   length (emitted "error" (trace r.2)) = 1%nat /\
   length (emitted "sent" (trace r.2)) = 1%nat).
Proof. split; vm_compute; repeat split. Qed.

(** ** The timestamp of a dispatch (C9) *)

Section Timestamp.

Context {Content : Type} (E : Env Content).
Implicit Types s : St Content.

Lemma extends_recorded {A} Q (m : Async Content A) s :
  extends Q s (m s).2 -> Forall Q (recorded m s).
Proof.
  intros (t & Ht & HQ). unfold recorded. by rewrite Ht, drop_app_length.
Qed.

Lemma keeps_stamp_refl T s : keeps_stamp T s s.
Proof. intros HT. split; [done | apply extends_refl]. Qed.

Lemma keeps_stamp_trans T s1 s2 s3 :
  keeps_stamp T s1 s2 -> keeps_stamp T s2 s3 -> keeps_stamp T s1 s3.
Proof.
  intros H12 H23 HT. destruct (H12 HT) as [HT2 X12].
  destruct (H23 HT2) as [HT3 X23]. split; [done | by eapply extends_trans].
Qed.

Lemma keeps_stamp_log T ev s : stamped T ev -> keeps_stamp T s (log ev s).2.
Proof. intros HQ HT. split; [done | by apply extends_log]. Qed.

Lemma keeps_stamp_this T A (f : OutgoingMessage Content -> Async Content A) :
  (forall o, timestamp o = T -> preserves (keeps_stamp T) (f o)) ->
  preserves (keeps_stamp T) (get_this ≫= f).
Proof. intros Hf s HT. rewrite bind_eq. cbn. by apply Hf. Qed.

Lemma keeps_stamp_push T : admits_push (@keeps_stamp Content T).
Proof.
  split; intros entry s HT; (split; [done |]);
    exists []; cbn; by rewrite app_nil_r.
Qed.

Lemma keeps_stamp_dispatch T addr :
  admits_dispatch (@keeps_stamp Content T) (stamped T)
    (fun o => timestamp o = T) addr.
Proof.
  unfold admits_dispatch. split_and!; try done.
  - apply keeps_stamp_push.
Qed.

Lemma sendToAddr_keeps_stamp T fuel addr :
  preserves (keeps_stamp T) (sendToAddr E fuel addr).
Proof.
  apply (preserves_sendToAddr E (keeps_stamp T) (stamped T)
           (keeps_stamp_refl T) (keeps_stamp_trans T)
           (fun ev s H => keeps_stamp_log T ev s H)
           (fun o => timestamp o = T) (keeps_stamp_this T)).
  apply keeps_stamp_dispatch.
Qed.

Lemma on_timestamp event callback (o : OutgoingMessage Content) :
  timestamp (on event callback o).2 = timestamp o.
Proof. unfold on. by destruct (listeners_of o event) as [[] |]. Qed.

(** C9: build the object with [constructor T message now], call [on] for
    any listeners (a call that throws leaves the object as it was), and
    dispatch to any recipients in turn: every transmission of every
    dispatch, retries included, carries [T], and the object's timestamp is
    [T] afterwards. *)
Theorem transmitted_timestamp_is_constructed
    (T : Z) (message : Content) (now : Z)
    (listeners : list (string * Handler)) (t0 : list (Event Content))
    (fuel : nat) (recipients : list string) :
  let o := foldr (fun l o => (on l.1 l.2 o).2) (constructor T message now)
             listeners in
  let s := {| this := o; trace := t0 |} in
  timestamp (this (for_of recipients (sendToAddr E fuel) s).2) = T /\
  Forall (fun ev => match ev with
                    | SendMessages _ _ timestamp _ => timestamp = T
                    | _ => True
                    end)
         (recorded (for_of recipients (sendToAddr E fuel)) s).
Proof.
  intros o s.
  assert (timestamp (this s) = T) as HT.
  { subst s o. cbn. induction listeners as [| l ls IH]; [done |].
    cbn [foldr]. by rewrite on_timestamp. }
  assert (preserves (keeps_stamp T) (for_of recipients (sendToAddr E fuel)))
    as Hall.
  { apply (preserves_for_of (keeps_stamp T)
             (keeps_stamp_refl T) (keeps_stamp_trans T)).
    intros addr _. apply sendToAddr_keeps_stamp. }
  destruct (Hall s HT) as [HT' Hx]. split; [done |].
  by apply (extends_recorded (stamped T)).
Qed.

End Timestamp.

(** ** Key exchange (C7, C8) *)

Section KeyExchange.

Context {Content : Type} (E : Env Content).
Implicit Types s : St Content.
Implicit Types retry : Async Content unit.

Lemma for_of_app {A} (l1 l2 : list A) (body : A -> Async Content unit) s :
  for_of (l1 ++ l2) body s =
  match for_of l1 body s with
  | (Ret _, s') => for_of l2 body s'
  | (Throw e, s') => (Throw e, s')
  | (Starved, s') => (Starved, s')
  end.
Proof.
  revert s. induction l1 as [| x l1 IH]; intros s; [done |].
  cbn [app]. rewrite !for_of_cons.
  destruct (body x s) as [[[] | e |] s']; [apply IH | done | done].
Qed.

Lemma for_of_ext {A} (l : list A) (body1 body2 : A -> Async Content unit) :
  (forall x s, body1 x s = body2 x s) ->
  forall s, for_of l body1 s = for_of l body2 s.
Proof.
  intros Hb. induction l as [| x l IH]; intros s; [done |].
  rewrite !for_of_cons, Hb.
  destruct (body2 x s) as [[[] | e |] s']; [apply IH | done | done].
Qed.

Lemma go_on_ext {A} n (pending1 pending2 : list (Async Content A)) s :
  Forall2 same_rest pending1 pending2 ->
  go_on E n pending1 s = go_on E n pending2 s.
Proof.
  revert pending1 pending2 s.
  induction n as [| n IH]; intros pending1 pending2 s Hsame; [done |].
  cbn [go_on]. rewrite !bind_eq. cbn [get_trace]. cbv zeta.
  rewrite <- (Forall2_length _ _ _ Hsame).
  set (k := (_ mod _)%nat).
  destruct (pending1 !! k) as [rest1 |] eqn:H1.
  - destruct (Forall2_lookup_l _ _ _ _ _ Hsame H1) as (rest2 & -> & Hrest).
    rewrite !bind_eq. unfold unawaited. rewrite Hrest.
    apply IH. by apply Forall2_delete.
  - apply lookup_ge_None in H1.
    rewrite (Forall2_length _ _ _ Hsame) in H1.
    apply lookup_ge_None in H1. by rewrite H1.
Qed.

Lemma settle_all_ext {A} n (pending1 pending2 : list (Async Content A)) s :
  Forall2 same_rest pending1 pending2 ->
  settle_all E n pending1 s = settle_all E n pending2 s.
Proof.
  revert pending1 pending2 s.
  induction n as [| n IH]; intros pending1 pending2 s Hsame; [done |].
  cbn [settle_all]. rewrite !bind_eq. cbn [get_trace]. cbv zeta.
  rewrite <- (Forall2_length _ _ _ Hsame).
  set (k := (_ mod _)%nat).
  destruct (pending1 !! k) as [rest1 |] eqn:H1.
  - destruct (Forall2_lookup_l _ _ _ _ _ Hsame H1) as (rest2 & -> & Hrest).
    rewrite !bind_eq, !try_catch_eq, Hrest.
    assert (Forall2 same_rest (delete k pending1) (delete k pending2))
      as Hdelete by by apply Forall2_delete.
    destruct (rest2 s) as [[a | e |] s1]; [| | done].
    + by rewrite !bind_eq, (IH _ (delete k pending2)).
    + rewrite !bind_eq, (go_on_ext _ _ _ _ Hdelete).
      by destruct (go_on E n (delete k pending2) s1) as [[[] | ? |] ?].
  - apply lookup_ge_None in H1.
    rewrite (Forall2_length _ _ _ Hsame) in H1.
    apply lookup_ge_None in H1. by rewrite H1.
Qed.

Lemma start_all_ext {A} (jobs1 jobs2 : list (Job A)) s :
  Forall2 same_job jobs1 jobs2 ->
  match start_all jobs1 s, start_all jobs2 s with
  | (Ret pending1, s1), (Ret pending2, s2) =>
      s1 = s2 /\ Forall2 same_rest pending1 pending2
  | (Throw e1, s1), (Throw e2, s2) => e1 = e2 /\ s1 = s2
  | (Starved, s1), (Starved, s2) => s1 = s2
  | _, _ => False
  end.
Proof.
  intros Hsame. revert s.
  induction Hsame as [| job1 job2 jobs1 jobs2 Hjob _ IH]; intros s;
    [by split |].
  cbn [start_all]. rewrite !bind_eq. specialize (Hjob s).
  destruct (job1 s) as [[rest1 | e1 |] s1], (job2 s) as [[rest2 | e2 |] s2];
    try done.
  destruct Hjob as [<- Hrest]. rewrite !bind_eq. specialize (IH s1).
  destruct (start_all jobs1 s1) as [[pending1 | e1 |] s1'],
           (start_all jobs2 s1) as [[pending2 | e2 |] s2']; try done.
  destruct IH as [<- Hpending]. split; [done | by constructor].
Qed.

Lemma Promise_all_ext {A} (jobs1 jobs2 : list (Job A)) s :
  Forall2 same_job jobs1 jobs2 ->
  Promise_all E jobs1 s = Promise_all E jobs2 s.
Proof.
  intros Hsame. unfold Promise_all. rewrite !bind_eq.
  pose proof (start_all_ext jobs1 jobs2 s Hsame) as Hstart.
  destruct (start_all jobs1 s) as [[pending1 | e1 |] s1],
           (start_all jobs2 s) as [[pending2 | e2 |] s2]; try done.
  - destruct Hstart as [<- Hpending].
    rewrite (Forall2_length _ _ _ Hpending). by apply settle_all_ext.
  - by destruct Hstart as [<- <-].
  - by subst.
Qed.

Lemma Promise_all_map_ext {A B} (l : list A) (f g : A -> Job B) :
  (forall x, same_job (f x) (g x)) ->
  forall s, Promise_all E (map f l) s = Promise_all E (map g l) s.
Proof.
  intros Hfg s. apply Promise_all_ext.
  apply Forall2_fmap, Forall_Forall2_diag, Forall_forall. auto.
Qed.

(** The job of a device depends on [retry] only where the call is not
    reentrant. *)
Lemma processDevice_ext retry1 retry2 addr updateDevices reentrant response x :
  (reentrant = false -> forall s, retry1 s = retry2 s) ->
  same_job (processDevice E retry1 addr updateDevices reentrant response x)
           (processDevice E retry2 addr updateDevices reentrant response x).
Proof.
  intros Hr s. unfold processDevice. cbv zeta.
  match goal with |- context [if ?b then _ else _] => destruct b end;
    [| by split].
  rewrite !bind_eq, call_eq. split; [done |]. intros s1.
  rewrite !try_catch_eq.
  destruct (settle _ s1) as [[[] | e |] s2]; [done | | done].
  destruct (String.eqb _ _); [| done].
  rewrite !bind_eq. cbn [get_this].
  destruct reentrant; cbn [negb]; [done |].
  rewrite !bind_eq.
  destruct (emit _ _ s2) as [[[|] | e' |] s3]; cbn [negb]; auto.
Qed.

Lemma handleResult_ext retry1 retry2 addr updateDevices reentrant response :
  (reentrant = false -> forall s, retry1 s = retry2 s) ->
  forall s,
    handleResult E retry1 addr updateDevices reentrant response s =
    handleResult E retry2 addr updateDevices reentrant response s.
Proof.
  intros Hr s. unfold handleResult. rewrite !bind_eq.
  rewrite (Promise_all_map_ext _ _ _
             (fun x => processDevice_ext retry1 retry2 addr updateDevices
                         reentrant response x Hr)).
  done.
Qed.

Lemma fetchDevice_ext retry1 retry2 addr updateDevices reentrant device :
  (reentrant = false -> forall s, retry1 s = retry2 s) ->
  forall s,
    fetchDevice E retry1 addr updateDevices reentrant device s =
    fetchDevice E retry2 addr updateDevices reentrant device s.
Proof.
  intros Hr s. unfold fetchDevice. rewrite !try_catch_eq, !bind_eq.
  destruct (await _ _ s) as [[response | e |] s1]; [| done | done].
  by rewrite (handleResult_ext retry1 retry2).
Qed.

Lemma getKeysForAddr_body_ext retry1 retry2 addr updateDevices reentrant :
  (reentrant = false -> forall s, retry1 s = retry2 s) ->
  forall s,
    getKeysForAddr_body E retry1 addr updateDevices reentrant s =
    getKeysForAddr_body E retry2 addr updateDevices reentrant s.
Proof.
  intros Hr s. unfold getKeysForAddr_body. rewrite !bind_eq. cbn [log].
  destruct updateDevices as [ids |].
  - apply for_of_ext. intros device s'. by apply fetchDevice_ext.
  - rewrite !bind_eq.
    destruct (await _ _ _) as [[response | e |] s1]; [| done | done].
    by apply handleResult_ext.
Qed.

(** The recursive equation of the source: the call of line 321 is
    [getKeysForAddr(addr, updateDevices, true)]. *)
Lemma getKeysForAddr_reentrant_retry addr updateDevices reentrant s :
  getKeysForAddr E addr updateDevices reentrant s =
  getKeysForAddr_body E (getKeysForAddr E addr updateDevices true)
    addr updateDevices reentrant s.
Proof.
  unfold getKeysForAddr at 1. apply getKeysForAddr_body_ext.
  intros _ s'. unfold getKeysForAddr.
  apply getKeysForAddr_body_ext. discriminate.
Qed.

(** C7: in [getKeysForAddr] with the explicit devices
    [handled ++ device :: rest], when the loop has handled [handled] and
    the fetch for [device] is rejected with [e]: if [e] is a protocol
    error of code 404 and [device] is not 1, the session of [device] is
    removed and the loop goes on with [rest] (nothing is raised for the
    404); any other [e], a 404 for device 1 included, is what
    [getKeysForAddr] throws, with no further fetch. *)
Theorem fetch_rejected addr handled device rest reentrant s0 s e :
  let ids := handled ++ device :: rest in
  let turn :=
    fetchDevice E (getKeysForAddr E addr (Some ids) true) addr (Some ids)
      reentrant in
  let fetched :=
    {| this := this s; trace := trace s ++ [FetchKeys addr (Some device)] |} in
  let pruned :=
    {| this := this s;
       trace := trace s ++ [FetchKeys addr (Some device);
                            RemoveSession (encodedAddr addr device)] |} in
  for_of handled turn
    (log (Enter_getKeysForAddr addr (Some ids) reentrant) s0).2 = (Ret tt, s) ->
  signal_getKeysForAddr E (trace s) addr (Some device) = Reject e ->
  ((exists response, e = ProtocolError 404 response) /\ device <> 1 ->
   getKeysForAddr E addr (Some ids) reentrant s0 =
   match storage_removeSession E (trace fetched) (encodedAddr addr device) with
   | Resolve _ => for_of rest turn pruned
   | Reject e' => (Throw e', pruned)
   end) /\
  (~ ((exists response, e = ProtocolError 404 response) /\ device <> 1) ->
   getKeysForAddr E addr (Some ids) reentrant s0 = (Throw e, fetched)).
Proof.
  intros ids turn fetched pruned. subst ids. intros Hhandled Hfetch.
  unfold log in Hhandled. cbn [snd] in Hhandled.
  assert (getKeysForAddr E addr (Some (handled ++ device :: rest)) reentrant s0 =
          match turn device s with
          | (Ret _, s') => for_of rest turn s'
          | (Throw e', s') => (Throw e', s')
          | (Starved, s') => (Starved, s')
          end) as ->.
  { rewrite getKeysForAddr_reentrant_retry. unfold getKeysForAddr_body.
    rewrite bind_eq. cbn [log]. fold turn. rewrite for_of_app.
    rewrite Hhandled. by rewrite for_of_cons. }
  assert (turn device s =
          if match protocol_code e with
             | Some code => (code =? 404) && negb (device =? 1)
             | None => false
             end
          then removeDeviceIdsForAddr E addr (Some [device]) fetched
          else (Throw e, fetched)) as ->.
  { unfold turn, fetchDevice. rewrite try_catch_eq, bind_eq, await_eq, Hfetch.
    by destruct (match protocol_code e with Some _ => _ | None => _ end). }
  split.
  - intros [[response ->] Hne]. cbn [protocol_code].
    destruct (Z.eqb_spec device 1) as [? | _]; [done |]. cbn.
    rewrite bind_eq, await_eq. cbn.
    rewrite <- app_assoc. cbn [app].
    destruct (storage_removeSession E _ _) as [[] | e']; done.
  - intros Hnot. destruct e as [code response | | | | |]; cbn; try done.
    destruct (Z.eqb_spec code 404) as [-> | _]; cbn [andb]; [| done].
    destruct (Z.eqb_spec device 1) as [-> | Hne]; cbn [negb]; [done |].
    exfalso. apply Hnot. eauto.
Qed.

Lemma not_emitting_emitted event (t : list (Event Content)) :
  Forall (not_emitting event) t -> emitted event t = [].
Proof.
  induction 1 as [| ev t Hev _ IH]; [done |].
  unfold emitted in *. cbn [omap list_omap]. rewrite IH.
  destruct ev; try done. cbn in Hev. by rewrite Hev.
Qed.

Lemma run_callbacks_untouched Q handlers (arg : EventArg Content) accepted s :
  (forall e, Q (ConsoleError e)) ->
  untouched Q s (run_callbacks handlers arg accepted s).2.
Proof.
  intros HQ.
  by apply (preserves_run_callbacks (untouched Q) Q
              (untouched_refl _) (untouched_trans _)
              (fun ev s0 H => untouched_log _ ev s0 H)).
Qed.

(** [emit] records the event, then only what the callbacks threw. *)
Lemma emit_trace event (arg : EventArg Content) s :
  exists t,
    trace (emit event arg s).2 = trace s ++ Emit event arg :: t /\
    Forall (not_emitting "keychange") t.
Proof.
  unfold emit. rewrite bind_eq. cbn [get_this]. rewrite bind_eq. cbn [log].
  unfold listeners_of.
  destruct (_ !! _) as [handlers |].
  - match goal with |- context [run_callbacks ?h ?a ?b ?s0] =>
      destruct (run_callbacks_untouched (not_emitting "keychange") h a b s0)
        as (_ & t & Ht & HQ); [done |] end.
    exists t. rewrite Ht. cbn. by rewrite <- app_assoc.
  - exists []. by destruct (bool_decide _).
Qed.

Lemma run_callbacks_declined handlers (arg : EventArg Content) accepted s :
  (forall h t, h ∈ handlers -> h_accept (h t arg) = false) ->
  (run_callbacks handlers arg accepted s).1 = Ret accepted.
Proof.
  revert accepted s.
  induction handlers as [| callback handlers IH]; intros accepted s Hno;
    [done |].
  cbn [run_callbacks]. rewrite bind_eq. cbn [get_trace]. rewrite bind_eq.
  rewrite (Hno callback) by left. rewrite orb_false_r.
  destruct (h_threw _); cbn; apply IH; intros h t Hh; apply Hno; by right.
Qed.

(** When no callback of [event] sets [accepted], [emit] reports so. *)
Lemma emit_declined event (arg : EventArg Content) s :
  bool_decide (event ∈ Object_prototype) = false ->
  (forall handlers h t,
     _listeners (this s) !! event = Some handlers -> h ∈ handlers ->
     h_accept (h t arg) = false) ->
  (emit event arg s).1 = Ret false.
Proof.
  intros Hown Hno. unfold emit. rewrite bind_eq. cbn [get_this].
  rewrite bind_eq. cbn [log]. unfold listeners_of. rewrite Hown.
  destruct (_ !! _) as [handlers |] eqn:Hl; [| done].
  apply run_callbacks_declined. intros h t Hh. by eapply Hno.
Qed.

Lemma emitted_app event (t1 t2 : list (Event Content)) :
  emitted event (t1 ++ t2) = emitted event t1 ++ emitted event t2.
Proof. apply omap_app. Qed.

Lemma emitted_cons event (ev : Event Content) t :
  emitted event (ev :: t) = emitted event [ev] ++ emitted event t.
Proof. apply (emitted_app event [ev] t). Qed.

(** A reentrant call prompts nobody. *)
Lemma getKeysForAddr_reentrant_untouched addr updateDevices s :
  untouched (not_emitting "keychange") s
    (getKeysForAddr E addr updateDevices true s).2.
Proof.
  apply (preserves_getKeysForAddr E (untouched (not_emitting "keychange"))
           (not_emitting "keychange")
           (untouched_refl _) (untouched_trans _)
           (fun ev s0 H => untouched_log _ ev s0 H)); try done.
Qed.

Lemma getKeysForAddr_reentrant_silent addr updateDevices s :
  emitted "keychange" (recorded (getKeysForAddr E addr updateDevices true) s) = [].
Proof.
  apply not_emitting_emitted, extends_recorded.
  apply getKeysForAddr_reentrant_untouched.
Qed.

(** A call of [getKeysForAddr] starts by marking its entry. *)
Lemma getKeysForAddr_enters addr updateDevices reentrant s :
  exists t,
    trace (getKeysForAddr E addr updateDevices reentrant s).2 =
    trace s ++ Enter_getKeysForAddr addr updateDevices reentrant :: t.
Proof.
  rewrite getKeysForAddr_reentrant_retry. unfold getKeysForAddr_body.
  rewrite bind_eq. cbn [log].
  set (s1 := {| this := this s; trace := _ |}).
  assert (forall m : Async Content unit,
            extends any_event s1 (m s1).2 ->
            exists t, trace (m s1).2 =
                      trace s ++ Enter_getKeysForAddr addr updateDevices reentrant :: t)
    as Hfrom.
  { intros m (t & Ht & _). exists t. rewrite Ht. cbn.
    by rewrite <- app_assoc. }
  assert (forall retry' reentrant',
            (forall s0, extends any_event s0 (retry' s0).2) ->
            preserves (extends any_event)
              (match updateDevices with
               | Some ids =>
                   for_of ids (fetchDevice E retry' addr updateDevices reentrant')
               | None =>
                   response ← await (FetchKeys addr None)
                     (fun t => signal_getKeysForAddr E t addr None);
                   handleResult E retry' addr updateDevices reentrant' response
               end)) as Hbody.
  { intros retry' reentrant' Hretry.
    destruct updateDevices as [ids |].
    - apply (preserves_for_of (extends any_event) (extends_refl _)
               (extends_trans _)).
      intros device _.
      apply (preserves_fetchDevice E (extends any_event) any_event
               (extends_refl _) (extends_trans _)
               (fun ev s1 H => extends_log _ ev s1 H)); try done.
    - apply (preserves_bind (extends any_event) (extends_trans _)).
      + apply (preserves_await (extends any_event) any_event
                 (extends_refl _) (extends_trans _)
                 (fun ev s1 H => extends_log _ ev s1 H)). done.
      + intros response.
        apply (preserves_handleResult E (extends any_event) any_event
                 (extends_refl _) (extends_trans _)
                 (fun ev s1 H => extends_log _ ev s1 H)); try done. }
  apply Hfrom, Hbody. intros s0.
  apply (preserves_getKeysForAddr E (extends any_event) any_event
           (extends_refl _) (extends_trans _)
           (fun ev s1 H => extends_log _ ev s1 H)); by repeat split.
Qed.

(** The job of a device whose pre-key the session builder refuses with
    "Identity key changed". *)
Lemma processDevice_key_changed retry addr updateDevices reentrant response x s e :
  match updateDevices with
  | None => true
  | Some ids => bool_decide (deviceId x ∈ ids)
  end = true ->
  builder_processPreKey E (trace s) addr
    (with_identityKey x (resp_identityKey response)) = Reject e ->
  error_message e = "Identity key changed" ->
  exists rest,
    processDevice E retry addr updateDevices reentrant response x s =
    (Ret rest,
     {| this := this s;
        trace := trace s ++ [ProcessPreKey addr (deviceId x)] |}) /\
    forall s',
      rest s' =
      let keyError :=
        OutgoingIdentityKeyError addr (message (this s')) (timestamp (this s'))
          (Some (resp_identityKey response)) "Identity key changed" false in
      if negb reentrant then
        match emit "keychange" (ArgKeyChange keyError) s' with
        | (Ret accepted, s2) =>
            if negb accepted then (Throw keyError, s2) else retry s2
        | (Throw e', s2) => (Throw e', s2)
        | (Starved, s2) => (Starved, s2)
        end
      else (Throw keyError, s').
Proof.
  intros Hcovered Hfail Hmsg. unfold processDevice. cbv zeta.
  cbn [deviceId with_identityKey identityKey]. rewrite Hcovered.
  rewrite bind_eq, call_eq. cbn [ret]. rewrite Hfail.
  eexists. split; [reflexivity |]. intros s'.
  rewrite try_catch_eq. cbn [settle throw].
  rewrite Hmsg, String.eqb_refl, bind_eq. cbn [get_this].
  destruct reentrant; cbn [negb]; [done |].
  rewrite bind_eq.
  by destruct (emit _ _ _) as [[[|] | e' |] s2].
Qed.

(** C8, as amended: the pre-key of device [x] is processed as part of
    [getKeysForAddr(addr, updateDevices, reentrant)], whose body retries
    with [getKeysForAddr(addr, updateDevices, true)], and the session
    builder fails with "Identity key changed".  The job of [x] has called
    the builder; when [x] is the only device of the response, the job is
    all that [handleResult] does, and what it throws ends the key fetch
    for that device.  When the job goes on, in whatever state [s'], a
    reentrant call throws the OutgoingIdentityKeyError at once, without a
    prompt.  A call that is not reentrant emits [keychange] with that
    error; when no callback accepts, it throws the error; when one does,
    it enters [getKeysForAddr(addr, updateDevices, true)], which emits no
    [keychange] at all.  So the failure of one device, the retry included,
    prompts at most once; a call that is not reentrant prompts again for
    every further device that fails. *)
Theorem identity_key_changed addr updateDevices reentrant response x s e :
  match updateDevices with
  | None => true
  | Some ids => bool_decide (deviceId x ∈ ids)
  end = true ->
  builder_processPreKey E (trace s) addr
    (with_identityKey x (resp_identityKey response)) = Reject e ->
  error_message e = "Identity key changed" ->
  (forall s0,
     getKeysForAddr E addr updateDevices reentrant s0 =
     getKeysForAddr_body E (getKeysForAddr E addr updateDevices true)
       addr updateDevices reentrant s0) /\
  exists rest,
    let called :=
      {| this := this s;
         trace := trace s ++ [ProcessPreKey addr (deviceId x)] |} in
    processDevice E (getKeysForAddr E addr updateDevices true)
      addr updateDevices reentrant response x s = (Ret rest, called) /\
    (devices response = [x] ->
     handleResult E (getKeysForAddr E addr updateDevices true)
       addr updateDevices reentrant response s = rest called /\
     forall device s0,
       signal_getKeysForAddr E (trace s0) addr (Some device) = Resolve response ->
       s = {| this := this s0;
              trace := trace s0 ++ [FetchKeys addr (Some device)] |} ->
       forall keyError s2,
         rest called = (Throw keyError, s2) -> protocol_code keyError = None ->
         fetchDevice E (getKeysForAddr E addr updateDevices true)
           addr updateDevices reentrant device s0 = (Throw keyError, s2)) /\
    forall s',
      let keyError :=
        OutgoingIdentityKeyError addr (message (this s')) (timestamp (this s'))
          (Some (resp_identityKey response)) "Identity key changed" false in
      let prompt := emit "keychange" (ArgKeyChange keyError) s' in
      (reentrant = true -> rest s' = (Throw keyError, s')) /\
      (reentrant = false ->
       (exists accepted t,
          prompt.1 = Ret accepted /\
          trace prompt.2 =
            trace s' ++ Emit "keychange" (ArgKeyChange keyError) :: t /\
          emitted "keychange" t = []) /\
       (prompt.1 = Ret false -> rest s' = (Throw keyError, prompt.2)) /\
       ((forall handlers h t,
           _listeners (this s') !! "keychange" = Some handlers -> h ∈ handlers ->
           h_accept (h t (ArgKeyChange keyError)) = false) ->
        rest s' = (Throw keyError, prompt.2)) /\
       (prompt.1 = Ret true ->
        rest s' = getKeysForAddr E addr updateDevices true prompt.2 /\
        exists t,
          trace (rest s').2 =
            trace prompt.2 ++ Enter_getKeysForAddr addr updateDevices true :: t /\
          emitted "keychange" t = [])) /\
      (length (emitted "keychange" (recorded rest s')) <= 1)%nat.
Proof.
  intros Hcovered Hfail Hmsg.
  split; [intros s0; apply getKeysForAddr_reentrant_retry |].
  destruct (processDevice_key_changed (getKeysForAddr E addr updateDevices true)
              addr updateDevices reentrant response x s e Hcovered Hfail Hmsg)
    as (rest & Hjob & Hgoes).
  exists rest. split; [exact Hjob |]. split.
  { intros Hone.
    assert (handleResult E (getKeysForAddr E addr updateDevices true)
              addr updateDevices reentrant response s =
            rest {| this := this s;
                    trace := trace s ++ [ProcessPreKey addr (deviceId x)] |})
      as Hhandle.
    { unfold handleResult, Promise_all. rewrite Hone.
      cbn [map start_all]. rewrite !bind_eq, Hjob. cbn [ret]. rewrite !bind_eq.
      cbn [ret settle_all length]. rewrite !bind_eq. cbn [get_trace].
      rewrite Nat.mod_1_r. cbn [lookup list_lookup].
      rewrite bind_eq, try_catch_eq.
      by destruct (rest _) as [[[] | e' |] s2]. }
    split; [exact Hhandle |].
    intros device s0 Hfetch Hs keyError s2 Hthrown Hplain.
    unfold fetchDevice. rewrite try_catch_eq, bind_eq, await_eq, Hfetch.
    rewrite <- Hs, Hhandle, Hthrown. cbn [throw]. by rewrite Hplain. }
  intros s' keyError prompt.
  pose proof (Hgoes s') as Hrest. cbv zeta in Hrest.
  fold keyError in Hrest. fold prompt in Hrest.
  destruct (emit_trace "keychange" (ArgKeyChange keyError) s')
    as (t & Ht & HQ).
  destruct (emit_returns "keychange" (ArgKeyChange keyError) s' eq_refl)
    as (accepted & Hprompt).
  fold prompt in Ht, Hprompt.
  assert (prompt.1 = Ret false -> reentrant = false ->
          rest s' = (Throw keyError, prompt.2)) as Hdeclined.
  { intros Hno ->. rewrite Hrest. cbn [negb].
    destruct prompt as [[[|] | e' |] s2]; cbn in *; congruence. }
  split; [by intros ->; rewrite Hrest |]. split.
  - intros ->. split_and!.
    + exists accepted, t. split_and!; [done | done |].
      by apply not_emitting_emitted.
    + intros Hno. by apply Hdeclined.
    + intros Hno. apply Hdeclined; [| done]. by apply emit_declined.
    + intros Hyes. rewrite Hrest. cbn [negb].
      destruct prompt as [[[|] | e' |] s2]; cbn [fst snd] in *; try congruence.
      split; [done |].
      destruct (getKeysForAddr_enters addr updateDevices true s2) as (t' & Ht').
      destruct (getKeysForAddr_reentrant_untouched addr updateDevices s2)
        as (_ & t'' & Ht'' & HQ'').
      exists t'. split; [done |].
      rewrite Ht' in Ht''. apply app_inv_head in Ht''. subst t''.
      apply not_emitting_emitted. by inversion HQ''.
  - unfold recorded. rewrite Hrest.
    destruct reentrant; cbn [negb].
    { cbn [snd]. rewrite drop_all. cbn. lia. }
    destruct prompt as [[b | e' |] s2]; cbn [fst snd] in *; try done.
    injection Hprompt as ->.
    destruct accepted; cbn [negb snd].
    + destruct (getKeysForAddr_reentrant_untouched addr updateDevices s2)
        as (_ & t' & Ht' & HQ').
      rewrite Ht', Ht, <- app_assoc, drop_app_length.
      cbn [app].
      rewrite (emitted_cons _ (Emit _ _)).
      rewrite emitted_app.
      rewrite (not_emitting_emitted _ _ HQ), (not_emitting_emitted _ _ HQ').
      cbn. lia.
    + rewrite Ht, drop_app_length.
      rewrite (emitted_cons _ (Emit _ _)).
      rewrite (not_emitting_emitted _ _ HQ). cbn. lia.
Qed.

End KeyExchange.

(** C7 at work: devices 2 and 3 are to be refreshed and the fetch for
    device 2 is answered 404; its session is removed and the loop goes on
    with device 3. *)
Lemma fetch_rejected_witness :
  getKeysForAddr (scripted (script_fetch_404 [1; 2; 3])) "alice"
    (Some [2; 3]) false (fresh 42 []) =
  for_of [3]
    (fetchDevice (scripted (script_fetch_404 [1; 2; 3]))
       (getKeysForAddr (scripted (script_fetch_404 [1; 2; 3])) "alice"
          (Some [2; 3]) true)
       "alice" (Some [2; 3]) false)
    {| this := constructor 42 [] 0;
       trace := [Enter_getKeysForAddr "alice" (Some [2; 3]) false;
                 FetchKeys "alice" (Some 2); RemoveSession "alice.2"] |}.
Proof.
  refine (proj1 (fetch_rejected (scripted (script_fetch_404 [1; 2; 3])) "alice"
                   [] 2 [3] false (fresh 42 []) _
                   (ProtocolError 404 no_response) eq_refl eq_refl) _).
  split; [by eexists | lia].
Defined.

(** C8 as stated fails when several devices of one address have a
    changed identity key: devices 1, 2 and 3 of alice are refreshed by a
    call that is not reentrant, the callback accepts every prompt, and the
    call returns after three [keychange] prompts for alice, two more than
    the first. *)
Lemma keychange_prompts_for_each_device :
  let r := getKeysForAddr (scripted (script_keys_changed [1; 2; 3])) "alice"
             (Some [1; 2; 3]) false (accepting 42 []) in
  r.1 = Ret tt /\
  omap prompt_addr (emitted "keychange" (trace r.2)) =
    ["alice"; "alice"; "alice"] /\
  ~ (length (emitted "keychange" (trace r.2)) <= 2)%nat.
Proof.
  cbv zeta. split_and!; [vm_compute; reflexivity | vm_compute; reflexivity |].
  intros Hle. vm_compute in Hle. lia.
Qed.

(** C8 at work: the pre-key of device 1 is refused because the identity
    key changed, the registered callback accepts, and the job goes on as
    the reentrant call, which succeeds. *)
Lemma identity_key_changed_witness :
  exists rest,
    processDevice (scripted (script_key_changed [1]))
      (getKeysForAddr (scripted (script_key_changed [1])) "alice" (Some [1]) true)
      "alice" (Some [1]) false
      {| resp_identityKey := [Byte.x07]; devices := [bundle 1] |} (bundle 1)
      (accepting 42 []) =
    (Ret rest,
     {| this := this (accepting 42 []);
        trace := [ProcessPreKey "alice" 1] |}) /\
    (rest {| this := this (accepting 42 []);
             trace := [ProcessPreKey "alice" 1] |}).1 = Ret tt.
Proof.
  destruct (identity_key_changed (scripted (script_key_changed [1])) "alice"
              (Some [1]) false
              {| resp_identityKey := [Byte.x07]; devices := [bundle 1] |}
              (bundle 1) (accepting 42 [])
              (JsError "Error" "Identity key changed")
              eq_refl eq_refl eq_refl) as (_ & rest & Hjob & _ & Hrest).
  exists rest. split; [exact Hjob |].
  destruct (Hrest {| this := this (accepting 42 []);
                     trace := [ProcessPreKey "alice" 1] |})
    as (_ & Hprompted & _).
  destruct (Hprompted eq_refl) as (_ & _ & _ & Haccepted).
  destruct Haccepted as [-> _]; vm_compute; reflexivity.
Defined.

(** ** One call of [doSendMessage], phase by phase *)

Section Transmit.

Context {Content : Type} (E : Env Content).
Implicit Types s : St Content.

Lemma emitError_then {A} addr reason cause (a : A) s :
  (emitError E addr reason cause ;; mret a) s =
  (Ret a, (emitError E addr reason cause s).2).
Proof.
  rewrite bind_eq. pose proof (emitError_returns E addr reason cause s) as Hr.
  destruct (emitError E addr reason cause s) as [[[] | e |] s'];
    cbn in Hr; [reflexivity | discriminate | discriminate].
Qed.

Lemma emitError_then_ret {A} addr reason cause (a : A) s :
  (emitError E addr reason cause ≫= fun _ => ret a) s =
  (Ret a, (emitError E addr reason cause s).2).
Proof. apply emitError_then. Qed.

Lemma transmitMessage_eq addr messages ts s :
  transmitMessage E addr messages ts s =
  let answer := signal_sendMessages E (trace s) addr messages ts in
  (match answer with
   | Resolve _ => Ret tt
   | Reject e =>
       match protocol_code e with
       | Some code =>
           if negb (code =? 409) && negb (code =? 410) then
             if code =? 404 then Throw (UnregisteredUserError addr e)
             else Throw (SendMessageError addr messages e ts)
           else Throw e
       | None => Throw e
       end
   end,
   {| this := this s;
      trace := trace s ++ [SendMessages addr messages ts answer] |}).
Proof.
  unfold transmitMessage. rewrite bind_eq. cbn [get_trace]. cbv zeta.
  rewrite bind_eq. cbn [log]. rewrite try_catch_eq.
  destruct (signal_sendMessages E (trace s) addr messages ts) as [[] | e];
    cbn [settle]; [done |].
  cbn [throw]. destruct (protocol_code e) as [code |]; [| done].
  destruct (negb (code =? 409) && negb (code =? 410)); [| done].
  by destruct (code =? 404).
Qed.

(** [doSendMessage] when every device's message was encrypted. *)
Lemma doSendMessage_encrypted fuel addr deviceIds recurse s paddedBuf messages s1 :
  padMessage (Content_encode E (message (this s))) = Some paddedBuf ->
  encryptAll E addr deviceIds paddedBuf s = (Ret messages, s1) ->
  doSendMessage E (S fuel) addr deviceIds recurse s =
  let answer :=
    signal_sendMessages E (trace s1) addr messages (timestamp (this s1)) in
  match answer with
  | Resolve _ => emitSent E addr (transmitted addr messages answer s1)
  | Reject e =>
      after_rejection E fuel addr deviceIds recurse messages e
        (transmitted addr messages answer s1)
  end.
Proof.
  intros Hpad Henc. cbn [doSendMessage]. cbv zeta.
  rewrite bind_eq. cbn [get_this]. rewrite Hpad.
  rewrite bind_eq, try_catch_eq, fmap_eq, Henc.
  rewrite bind_eq. cbn [get_this].
  rewrite bind_eq, try_catch_eq, bind_eq, transmitMessage_eq. cbv zeta.
  unfold transmitted.
  destruct (signal_sendMessages E (trace s1) addr messages (timestamp (this s1)))
    as [[] | e]; [done |].
  destruct e as [code response | | | | |]; cbn [protocol_code after_rejection];
    try (rewrite ?emitError_then, ?emitError_then_ret; done).
  destruct (Z.eqb_spec code 409) as [-> | H9]; cbn [negb andb orb].
  { cbn [Z.eqb Pos.eqb orb]. destruct recurse; cbn [negb].
    - rewrite bind_eq.
      destruct (recover _ _ _ _ _ _) as [[[] | e' |] s2]; [| done | done].
      rewrite try_catch_eq, bind_eq. unfold reloadDevicesAndSend.
      destruct (reloadDevicesAndSend_with _ _ _ _ _) as [[[] | e' |] s3];
        [done | | done].
      by rewrite ?emitError_then, ?emitError_then_ret.
    - by rewrite ?emitError_then, ?emitError_then_ret. }
  destruct (Z.eqb_spec code 410) as [-> | H10]; cbn [negb andb orb].
  { cbn [Z.eqb Pos.eqb orb]. destruct recurse; cbn [negb].
    - rewrite bind_eq.
      destruct (recover _ _ _ _ _ _) as [[[] | e' |] s2]; [| done | done].
      rewrite try_catch_eq, bind_eq. unfold reloadDevicesAndSend.
      destruct (reloadDevicesAndSend_with _ _ _ _ _) as [[[] | e' |] s3];
        [done | | done].
      by rewrite ?emitError_then, ?emitError_then_ret.
    - by rewrite ?emitError_then, ?emitError_then_ret. }
  destruct (code =? 404); by rewrite ?emitError_then, ?emitError_then_ret.
Qed.

(** [doSendMessage] when the encryption for some device failed. *)
Lemma doSendMessage_not_encrypted fuel addr deviceIds recurse s paddedBuf e s1 :
  padMessage (Content_encode E (message (this s))) = Some paddedBuf ->
  encryptAll E addr deviceIds paddedBuf s = (Throw e, s1) ->
  doSendMessage E (S fuel) addr deviceIds recurse s =
  (Ret tt, (emitError E addr "Failed to create message" (Some e) s1).2).
Proof.
  intros Hpad Henc. cbn [doSendMessage]. cbv zeta.
  rewrite bind_eq. cbn [get_this]. rewrite Hpad.
  rewrite bind_eq, try_catch_eq, fmap_eq, Henc.
  by rewrite ?emitError_then, ?emitError_then_ret.
Qed.

(** *** A stale device that was not encrypted to (C10) *)

Lemma closeStaleSessions_no_cipher Q ciphers stale x s :
  x ∈ stale -> ciphers !! x = None ->
  (forall y cipher, y ∈ stale -> ciphers !! y = Some cipher ->
     Q (CloseOpenSession (cipher_addr cipher) (cipher_device cipher))) ->
  (closeStaleSessions E ciphers stale s).1 = Throw no_cipher /\
  untouched Q s (closeStaleSessions E ciphers stale s).2.
Proof.
  intros Hx Hnone HQ. split.
  2:{ by apply (preserves_closeStaleSessions E (untouched Q) Q
                  (untouched_refl _) (untouched_trans _)
                  (fun ev s0 H => untouched_log _ ev s0 H)). }
  clear HQ. unfold closeStaleSessions, Promise_all. rewrite !bind_eq.
  match goal with |- context [start_all ?jobs s] =>
    assert ((start_all jobs s).1 = Throw no_cipher) as Hstart end.
  { revert s. induction stale as [| y stale IH]; intros s;
      [by apply elem_of_nil in Hx |].
    cbn [map start_all]. rewrite bind_eq.
    destruct (ciphers !! y) as [cipher |] eqn:Hy; [| done].
    apply elem_of_cons in Hx as [-> | Hx]; [congruence |].
    rewrite bind_eq, call_eq. cbn [ret]. rewrite bind_eq.
    match goal with |- context [start_all ?jobs ?s0] =>
      specialize (IH Hx s0); destruct (start_all jobs s0) as [[? | ? |] ?] end;
      cbn [fst] in *; congruence. }
  match goal with |- context [start_all ?jobs s] =>
    destruct (start_all jobs s) as [[? | ? |] ?] end;
    cbn [fst] in *; congruence.
Qed.

(** C10: the transmission to [deviceIds] is answered 410 with a stale
    device [x] that is not among [deviceIds].  The cipher dictionary has
    no entry for [x], and [doSendMessage] throws a TypeError: after the
    transmission it has only closed sessions of devices it holds a cipher
    for; it fetched no key, did not re-enter [reloadDevicesAndSend],
    transmitted nothing more and emitted nothing. *)
Theorem stale_device_without_cipher
    fuel addr deviceIds s paddedBuf messages s1 response stale x :
  padMessage (Content_encode E (message (this s))) = Some paddedBuf ->
  encryptAll E addr deviceIds paddedBuf s = (Ret messages, s1) ->
  signal_sendMessages E (trace s1) addr messages (timestamp (this s1)) =
    Reject (ProtocolError 410 response) ->
  staleDevices response = Some stale ->
  x ∈ stale -> x ∉ deviceIds ->
  build_ciphers addr deviceIds !! x = None /\
  exists s' t,
    doSendMessage E (S fuel) addr deviceIds true s = (Throw no_cipher, s') /\
    this s' = this s1 /\
    trace s' =
      trace s1 ++
      SendMessages addr messages (timestamp (this s1))
        (Reject (ProtocolError 410 response)) :: t /\
    Forall (fun ev => exists id, ev = CloseOpenSession addr id /\ id ∈ deviceIds) t.
Proof.
  intros Hpad Henc Hanswer Hstale Hx Hnot.
  assert (build_ciphers addr deviceIds !! x = None) as Hnone
    by by apply build_ciphers_None.
  split; [done |].
  rewrite (doSendMessage_encrypted _ _ _ _ _ _ _ _ Hpad Henc). cbv zeta.
  rewrite Hanswer. cbn [after_rejection Z.eqb Pos.eqb orb].
  unfold recover. cbn [Z.eqb Pos.eqb]. rewrite Hstale, bind_eq.
  match goal with |- context [closeStaleSessions E ?c ?l ?s0] =>
    destruct (closeStaleSessions_no_cipher
                (fun ev => exists id, ev = CloseOpenSession addr id /\ id ∈ deviceIds)
                c l x s0 Hx Hnone) as (Hthrow & Hthis & t & Ht & HQ);
    [| destruct (closeStaleSessions E c l s0) as [r s'] ] end.
  { intros y cipher _ Hy. apply build_ciphers_lookup in Hy as [Hin ->].
    by exists y. }
  cbn [fst snd] in *. subst r. exists s', t.
  unfold transmitted in Hthis, Ht. cbn [this trace] in Hthis, Ht.
  rewrite <- app_assoc in Ht. by split_and!.
Qed.

(** *** Recovery from mismatched devices (C6) *)

Lemma removeDeviceIdsForAddr_trace addr ids s :
  this (removeDeviceIdsForAddr E addr (Some ids) s).2 = this s /\
  exists removed,
    trace (removeDeviceIdsForAddr E addr (Some ids) s).2 =
      trace s ++ map (fun id => RemoveSession (encodedAddr addr id)) removed /\
    removed `prefix_of` ids /\
    ((removeDeviceIdsForAddr E addr (Some ids) s).1 = Ret tt -> removed = ids).
Proof.
  cbn [removeDeviceIdsForAddr]. revert s.
  induction ids as [| id ids IH]; intros s.
  - split; [done |]. exists []. cbn. by rewrite app_nil_r.
  - rewrite for_of_cons, await_eq.
    set (s1 := {| this := this s; trace := _ |}).
    destruct (storage_removeSession E _ _) as [[] | e].
    + destruct (IH s1) as (Hthis & removed & Ht & Hpre & Hall).
      split; [by rewrite Hthis |]. exists (id :: removed).
      rewrite Ht. cbn. rewrite <- app_assoc. split; [done |].
      split; [by apply prefix_cons | intros Hr; f_equal; auto].
    + split; [done |]. exists [id]. split; [done |].
      split; [by apply prefix_cons, prefix_nil | done].
Qed.

Lemma getKeysForAddr_extends addr updateDevices reentrant s :
  extends any_event s (getKeysForAddr E addr updateDevices reentrant s).2.
Proof.
  apply (preserves_getKeysForAddr E (extends any_event) any_event
           (extends_refl _) (extends_trans _)
           (fun ev s0 H => extends_log _ ev s0 H)); by repeat split.
Qed.

Lemma handleResult_extends retry addr updateDevices reentrant response s :
  (forall s0, extends any_event s0 (retry s0).2) ->
  extends any_event s
    (handleResult E retry addr updateDevices reentrant response s).2.
Proof.
  intros Hretry.
  by apply (preserves_handleResult E (extends any_event) any_event
              (extends_refl _) (extends_trans _)
              (fun ev s0 H => extends_log _ ev s0 H)).
Qed.

(** A turn of the key-fetch loop starts by fetching. *)
Lemma fetchDevice_fetches retry addr updateDevices reentrant device s :
  (forall s0, extends any_event s0 (retry s0).2) ->
  exists t,
    trace (fetchDevice E retry addr updateDevices reentrant device s).2 =
    trace s ++ FetchKeys addr (Some device) :: t.
Proof.
  intros Hretry. unfold fetchDevice.
  rewrite try_catch_eq, bind_eq, await_eq.
  set (s1 := {| this := this s; trace := _ |}).
  assert (forall s2, extends any_event s1 s2 ->
            exists t, trace s2 = trace s ++ FetchKeys addr (Some device) :: t)
    as Hfrom.
  { intros s2 (t & Ht & _). exists t. rewrite Ht. cbn.
    by rewrite <- app_assoc. }
  assert (forall e,
    extends any_event s1
      ((if match protocol_code e with
           | Some code => (code =? 404) && negb (device =? 1)
           | None => false
           end
        then removeDeviceIdsForAddr E addr (Some [device])
        else throw e) s1).2) as Hcatch.
  { intros e.
    destruct (match protocol_code e with Some _ => _ | None => _ end);
      [| apply extends_refl].
    destruct (removeDeviceIdsForAddr_trace addr [device] s1)
      as (_ & removed & Ht & _).
    eexists. split; [exact Ht | by apply Forall_forall]. }
  destruct (signal_getKeysForAddr E (trace s) addr (Some device))
    as [response | e]; cbn [ret throw mret].
  - pose proof (handleResult_extends retry addr updateDevices reentrant
                  response s1 Hretry) as Hh.
    destruct (handleResult E retry addr updateDevices reentrant response s1)
      as [[[] | e |] s2]; cbn [snd] in Hh; try (by apply Hfrom).
    apply Hfrom. eapply extends_trans; [exact Hh |].
    specialize (Hcatch e).
    destruct (match protocol_code e with Some _ => _ | None => _ end).
    + destruct (removeDeviceIdsForAddr_trace addr [device] s2)
        as (_ & removed & Ht & _).
      eexists. split; [exact Ht | by apply Forall_forall].
    + apply extends_refl.
  - apply Hfrom, Hcatch.
Qed.

Lemma for_of_fetches retry addr updateDevices reentrant ids s :
  (forall s0, extends any_event s0 (retry s0).2) ->
  (for_of ids (fetchDevice E retry addr updateDevices reentrant) s).1 = Ret tt ->
  exists t,
    trace (for_of ids (fetchDevice E retry addr updateDevices reentrant) s).2 =
      trace s ++ t /\
    forall id, id ∈ ids -> FetchKeys addr (Some id) ∈ t.
Proof.
  intros Hretry. revert s.
  induction ids as [| device ids IH]; intros s Hret.
  - exists []. split; [by rewrite app_nil_r | by intros id ?%elem_of_nil].
  - revert Hret. rewrite for_of_cons.
    destruct (fetchDevice_fetches retry addr updateDevices reentrant device s
                Hretry) as (t1 & Ht1).
    destruct (fetchDevice E retry addr updateDevices reentrant device s)
      as [[[] | e |] s1]; cbn [snd] in Ht1; [| done | done].
    intros Hret. destruct (IH s1 Hret) as (t2 & Ht2 & Hall).
    exists ((FetchKeys addr (Some device) :: t1) ++ t2).
    split; [by rewrite Ht2, Ht1, app_assoc |].
    intros id [-> | Hid]%elem_of_cons.
    + apply elem_of_app. left. left.
    + apply elem_of_app. right. auto.
Qed.

Lemma getKeysForAddr_explicit addr ids reentrant s :
  untouched (key_exchange_event addr ids) s
    (getKeysForAddr E addr (Some ids) reentrant s).2 /\
  ((getKeysForAddr E addr (Some ids) reentrant s).1 = Ret tt ->
   forall id, id ∈ ids ->
     FetchKeys addr (Some id) ∈
       recorded (getKeysForAddr E addr (Some ids) reentrant) s).
Proof.
  split.
  - apply (preserves_getKeysForAddr E (untouched (key_exchange_event addr ids))
             (key_exchange_event addr ids)
             (untouched_refl _) (untouched_trans _)
             (fun ev s0 H => untouched_log _ ev s0 H)); try done.
    split_and!; try done.
    + intros ids' id [= <-] Hid. cbn. eauto.
  - unfold recorded. rewrite getKeysForAddr_reentrant_retry.
    unfold getKeysForAddr_body. rewrite bind_eq. cbn [log].
    set (s1 := {| this := this s; trace := _ |}).
    intros Hret id Hid.
    destruct (for_of_fetches (getKeysForAddr E addr (Some ids) true) addr
                (Some ids) reentrant ids s1) as (t & Ht & Hall);
      [intros s0; apply getKeysForAddr_extends | exact Hret |].
    rewrite Ht. cbn [trace s1]. rewrite <- app_assoc, drop_app_length.
    right. by apply Hall.
Qed.

Lemma this_unconstrained (R : St Content -> St Content -> Prop) A
    (f : OutgoingMessage Content -> Async Content A) :
  (forall s, R s s) ->
  (forall o, True -> preserves R (f o)) -> preserves R (get_this ≫= f).
Proof. intros Hrefl Hf s. rewrite bind_eq. cbn. by apply Hf. Qed.

Lemma grows_dispatch addr :
  admits_dispatch (@grows Content any_event) any_event (fun _ => True) addr.
Proof. unfold admits_dispatch. split_and!; try done. apply grows_push. Qed.

Lemma doSendMessage_grows fuel addr deviceIds recurse s :
  grows any_event s (doSendMessage E fuel addr deviceIds recurse s).2.
Proof.
  apply (preserves_doSendMessage E (grows any_event) any_event
           (grows_refl _) (grows_trans _) (fun ev s0 H => grows_log _ ev s0 H)
           (fun _ => True)
           (fun A f => this_unconstrained _ A f (grows_refl _))).
  apply grows_dispatch.
Qed.

Lemma emitError_grows addr reason cause s :
  grows any_event s (emitError E addr reason cause s).2.
Proof.
  by apply (preserves_emitError E (grows any_event) any_event
              (grows_refl _) (grows_trans _)
              (fun ev s0 H => grows_log _ ev s0 H));
    [apply grows_push | |].
Qed.

Lemma emitSent_grows addr s :
  grows any_event s (emitSent E addr s).2.
Proof.
  by apply (preserves_emitSent E (grows any_event) any_event
              (grows_refl _) (grows_trans _)
              (fun ev s0 H => grows_log _ ev s0 H));
    [apply grows_push | |].
Qed.

Lemma grows_trace Q s s' :
  grows Q s s' -> exists t, trace s' = trace s ++ t.
Proof. intros (_ & _ & _ & _ & _ & t & Ht & _). by exists t. Qed.

(** [reloadDevicesAndSend] marks its entry, reads the device list and
    hands over to [doSendMessage]. *)
Lemma reloadDevicesAndSend_eq fuel addr recurse s :
  reloadDevicesAndSend E fuel addr recurse s =
  let entered :=
    {| this := this s;
       trace := trace s ++ [Enter_reloadDevicesAndSend addr recurse;
                            GetDeviceIds addr] |} in
  match storage_getDeviceIds E
          (trace s ++ [Enter_reloadDevicesAndSend addr recurse]) addr with
  | Resolve deviceIds => doSendMessage E fuel addr deviceIds recurse entered
  | Reject e => (Throw e, entered)
  end.
Proof.
  unfold reloadDevicesAndSend, reloadDevicesAndSend_with.
  rewrite bind_eq. cbn [log]. rewrite bind_eq, await_eq. cbn [this trace].
  rewrite <- app_assoc. cbn [app].
  by destruct (storage_getDeviceIds E _ _).
Qed.

Lemma reloadDevicesAndSend_enters fuel addr recurse s :
  grows any_event s (reloadDevicesAndSend E fuel addr recurse s).2 /\
  exists rest,
    trace (reloadDevicesAndSend E fuel addr recurse s).2 =
    trace s ++ Enter_reloadDevicesAndSend addr recurse :: GetDeviceIds addr :: rest.
Proof.
  rewrite reloadDevicesAndSend_eq. cbv zeta.
  set (entered := {| this := this s; trace := _ |}).
  assert (grows any_event s entered) as Hentered.
  { apply untouched_grows. split; [done |]. eexists. split; [done |].
    by repeat constructor. }
  destruct (storage_getDeviceIds E _ _) as [deviceIds | e].
  - pose proof (doSendMessage_grows fuel addr deviceIds recurse entered) as Hg.
    split; [by eapply grows_trans |].
    destruct (grows_trace _ _ _ Hg) as (t & Ht). exists t. rewrite Ht.
    cbn [entered trace]. by rewrite <- app_assoc.
  - split; [done |]. exists []. done.
Qed.

(** C6: the transmission is answered 409 with [extraDevices = extra] and
    [missingDevices = missing], and [recurse] is true.  The recovery asks
    the session store to remove, for the extra devices [e] in order, the
    session named by [addr], a dot and the decimal digits of [e]; then it
    runs the key exchange for the missing devices: every key fetch is for
    [addr] and one of [missing], and nothing is transmitted.  When the
    recovery returns, all of [extra] were removed and all of [missing]
    fetched, and only then [doSendMessage] re-enters
    [reloadDevicesAndSend] with [recurse = true].  When the recovery
    throws, nothing is retried. *)
Theorem mismatched_devices_recovery
    fuel addr deviceIds s paddedBuf messages s1 response extra missing :
  padMessage (Content_encode E (message (this s))) = Some paddedBuf ->
  encryptAll E addr deviceIds paddedBuf s = (Ret messages, s1) ->
  signal_sendMessages E (trace s1) addr messages (timestamp (this s1)) =
    Reject (ProtocolError 409 response) ->
  extraDevices response = Some extra ->
  missingDevices response = Some missing ->
  let answered :=
    transmitted addr messages (Reject (ProtocolError 409 response)) s1 in
  let recovered :=
    recover E (build_ciphers addr deviceIds) addr 409 response answered in
  let run := doSendMessage E (S fuel) addr deviceIds true s in
  (exists removed keys,
     trace recovered.2 =
       trace answered ++
       map (fun e => RemoveSession (addr +:+ "." +:+ pretty e)) removed ++
       keys /\
     removed `prefix_of` extra /\
     Forall (key_exchange_event addr missing) keys /\
     (recovered.1 = Ret tt ->
      removed = extra /\
      forall id, id ∈ missing -> FetchKeys addr (Some id) ∈ keys)) /\
  (recovered.1 = Ret tt ->
   (exists rest,
      trace run.2 =
      trace recovered.2 ++ Enter_reloadDevicesAndSend addr true :: rest) /\
   run =
   match reloadDevicesAndSend E fuel addr true recovered.2 with
   | (Ret _, s3) => emitSent E addr s3
   | (Throw e', s3) =>
       (Ret tt, (emitError E addr "Failed to reload device keys" (Some e') s3).2)
   | (Starved, s3) => (Starved, s3)
   end) /\
  (forall e, recovered.1 = Throw e -> run = (Throw e, recovered.2)).
Proof.
  intros Hpad Henc Hanswer Hextra Hmissing answered recovered run.
  assert (run =
          match recovered with
          | (Ret _, s2) =>
              match reloadDevicesAndSend E fuel addr true s2 with
              | (Ret _, s3) => emitSent E addr s3
              | (Throw e', s3) =>
                  (Ret tt,
                   (emitError E addr "Failed to reload device keys" (Some e') s3).2)
              | (Starved, s3) => (Starved, s3)
              end
          | (Throw e', s2) => (Throw e', s2)
          | (Starved, s2) => (Starved, s2)
          end) as Hrun.
  { unfold run. rewrite (doSendMessage_encrypted _ _ _ _ _ _ _ _ Hpad Henc).
    cbv zeta. rewrite Hanswer. done. }
  split; [| split].
  - unfold recovered, recover. cbn [Z.eqb Pos.eqb]. rewrite Hextra, Hmissing.
    rewrite bind_eq.
    destruct (removeDeviceIdsForAddr_trace addr extra answered)
      as (Hthis & removed & Ht & Hpre & Hall).
    destruct (removeDeviceIdsForAddr E addr (Some extra) answered)
      as [[[] | e |] s2]; cbn [fst snd] in *.
    + destruct (getKeysForAddr_explicit addr missing false s2)
        as [(_ & keys & Hk & HQ) Hfetched].
      exists removed, keys. rewrite Hk, Ht, <- app_assoc.
      split; [done |]. split; [done |]. split; [done |].
      intros Hret. split; [by apply Hall |].
      intros id Hid. specialize (Hfetched Hret id Hid).
      unfold recorded in Hfetched. by rewrite Hk, drop_app_length in Hfetched.
    + exists removed, []. rewrite app_nil_r. by split_and!.
    + exists removed, []. rewrite app_nil_r. by split_and!.
  - intros Hret. rewrite Hrun.
    destruct recovered as [[[] | e |] s2]; cbn [fst snd] in *; try done.
    split; [| done].
    destruct (reloadDevicesAndSend_enters fuel addr true s2)
      as (_ & rest & Hrest).
    destruct (reloadDevicesAndSend E fuel addr true s2) as [[[] | e |] s3];
      cbn [snd] in Hrest.
    + destruct (grows_trace _ _ _ (emitSent_grows addr s3)) as (t & Ht).
      eexists. rewrite Ht, Hrest, <- app_assoc. done.
    + destruct (grows_trace _ _ _
                  (emitError_grows addr "Failed to reload device keys"
                     (Some e) s3)) as (t & Ht).
      eexists. cbn [snd]. rewrite Ht, Hrest, <- app_assoc. done.
    + eexists. exact Hrest.
  - intros e He. rewrite Hrun.
    destruct recovered as [[[] | e' |] s2]; cbn [fst snd] in *; congruence.
Qed.

(** *** The shape of a dispatch (C5) *)

Lemma after_410_mono addr (message : Content) timestamp post es es' :
  (forall entry, entry ∈ es -> entry ∈ es') ->
  after_410 addr message timestamp post es ->
  after_410 addr message timestamp post es'.
Proof.
  intros Hsub [-> | [-> | (j & ts & answer & -> & Hhit)]];
    [by left | by right; left |].
  right; right. exists j, ts, answer. split; [done |].
  intros response Hanswer.
  destruct (Hhit response Hanswer) as (entry & Hin & Hrest).
  exists entry. split; [by apply Hsub | done].
Qed.

Lemma dispatch_run_after_410 addr (message : Content) timestamp recurse c es :
  dispatch_run addr message timestamp recurse c es ->
  forall pre a jsonData ts response post,
    c = pre ++
        SendMessages a jsonData ts (Reject (ProtocolError 410 response)) :: post ->
    after_410 addr message timestamp post es.
Proof.
  induction 1 as [recurse es | recurse j0 ts0 answer es Hhit
                  | j0 ts0 code response0 c es es' Hsub IH Hes];
    intros pre a jsonData ts response post Hc.
  - by destruct pre.
  - destruct pre as [| ev pre]; [| by destruct pre].
    cbn [app] in Hc. simplify_eq. by left.
  - destruct pre as [| ev1 [| ev2 pre]].
    + cbn [app] in Hc. simplify_eq. cbn [Z.eqb Pos.eqb] in *.
      inversion Hsub as [? ? | ? j1 ts1 answer1 ? Hhit |]; subst.
      * right; left. done.
      * right; right. exists j1, ts1, answer1. split; [done |].
        intros response1 Hanswer.
        destruct (Hhit eq_refl response1 Hanswer) as (entry & Hin & Hrest).
        exists entry. split; [by apply Hes | done].
    + discriminate Hc.
    + cbn [app] in Hc. simplify_eq.
      eapply after_410_mono; [exact Hes |]. by eapply IH.
Qed.

Lemma control_app (t1 t2 : list (Event Content)) :
  control (t1 ++ t2) = control t1 ++ control t2.
Proof. apply List.filter_app. Qed.

Lemma control_quiet (t : list (Event Content)) :
  Forall quiet t -> control t = [].
Proof.
  induction 1 as [| ev t Hev _ IH]; [done |].
  unfold control in *. cbn [List.filter]. by rewrite Hev.
Qed.

Lemma encryptAll_quiet addr deviceIds paddedBuf s :
  untouched quiet s (encryptAll E addr deviceIds paddedBuf s).2.
Proof.
  by apply (preserves_encryptAll E (untouched quiet) quiet
              (untouched_refl _) (untouched_trans _)
              (fun ev s0 H => untouched_log _ ev s0 H)).
Qed.

Lemma recover_quiet addr deviceIds code response s :
  untouched quiet s
    (recover E (build_ciphers addr deviceIds) addr code response s).2.
Proof.
  apply (preserves_recover E (untouched quiet) quiet
           (untouched_refl _) (untouched_trans _)
           (fun ev s0 H => untouched_log _ ev s0 H)).
  unfold admits_recovery, admits_key_exchange. by split_and!.
Qed.

Lemma getKeysForAddr_quiet addr updateDevices reentrant s :
  untouched quiet s (getKeysForAddr E addr updateDevices reentrant s).2.
Proof.
  apply (preserves_getKeysForAddr E (untouched quiet) quiet
           (untouched_refl _) (untouched_trans _)
           (fun ev s0 H => untouched_log _ ev s0 H)); try done.
  all: unfold admits_key_exchange; by split_and!.
Qed.

Lemma getStaleDeviceIdsForAddr_quiet addr s :
  untouched quiet s (getStaleDeviceIdsForAddr E addr s).2.
Proof.
  by apply (preserves_getStaleDeviceIdsForAddr E (untouched quiet) quiet
              (untouched_refl _) (untouched_trans _)
              (fun ev s0 H => untouched_log _ ev s0 H)).
Qed.

(** [emitError] appends one entry and records nothing but the event and
    what its callbacks threw. *)
Lemma emitError_effect addr reason cause s :
  exists t,
    trace (emitError E addr reason cause s).2 = trace s ++ t /\
    Forall quiet t /\
    this (emitError E addr reason cause s).2 =
      push_error {| entry_timestamp := Date_now E (trace s);
                    entry_error := wrap_error (this s) addr cause;
                    error_addr := addr;
                    error_reason := reason |} (this s).
Proof.
  destruct (preserves_emitError E (grows quiet) quiet
              (grows_refl _) (grows_trans _)
              (fun ev s0 H => grows_log _ ev s0 H) addr reason cause
              (grows_push _) ltac:(done) ltac:(done) s)
    as (_ & _ & _ & _ & _ & t & Ht & HQ).
  exists t. split; [done |]. split; [done | apply emitError_this].
Qed.

Lemma emitSent_effect addr s :
  exists t,
    trace (emitSent E addr s).2 = trace s ++ t /\
    Forall quiet t /\
    errors (this (emitSent E addr s).2) = errors (this s) /\
    message (this (emitSent E addr s).2) = message (this s) /\
    timestamp (this (emitSent E addr s).2) = timestamp (this s).
Proof.
  destruct (preserves_emitSent E (grows quiet) quiet
              (grows_refl _) (grows_trans _)
              (fun ev s0 H => grows_log _ ev s0 H) addr
              (grows_push _) ltac:(done) ltac:(done) s)
    as (_ & _ & _ & _ & _ & t & Ht & HQ).
  exists t. rewrite emitSent_this. by split_and!.
Qed.

Lemma doSendMessage_starved_encrypting
    fuel addr deviceIds recurse s paddedBuf s1 :
  padMessage (Content_encode E (message (this s))) = Some paddedBuf ->
  encryptAll E addr deviceIds paddedBuf s = (Starved, s1) ->
  doSendMessage E (S fuel) addr deviceIds recurse s = (Starved, s1).
Proof.
  intros Hpad Henc. cbn [doSendMessage]. cbv zeta.
  rewrite bind_eq. cbn [get_this]. rewrite Hpad.
  by rewrite bind_eq, try_catch_eq, fmap_eq, Henc.
Qed.

Lemma control_cons (ev : Event Content) t :
  control (ev :: t) = (if is_control ev then [ev] else []) ++ control t.
Proof. unfold control. cbn [List.filter]. by destruct (is_control ev). Qed.

Lemma control_nil : control (@nil (Event Content)) = [].
Proof. reflexivity. Qed.

Ltac control_simpl :=
  repeat first [rewrite control_app | rewrite control_cons | rewrite control_nil];
  repeat match goal with
         | H : Forall quiet ?t |- context [control ?t] =>
             rewrite (control_quiet t H)
         end;
  cbn [is_control app]; rewrite ?app_nil_r.

(** Every call of [doSendMessage] has the shape [dispatch_run]. *)
Lemma doSendMessage_run fuel addr deviceIds recurse s :
  exists t es,
    trace (doSendMessage E fuel addr deviceIds recurse s).2 = trace s ++ t /\
    errors (this (doSendMessage E fuel addr deviceIds recurse s).2) =
      errors (this s) ++ es /\
    message (this (doSendMessage E fuel addr deviceIds recurse s).2) =
      message (this s) /\
    timestamp (this (doSendMessage E fuel addr deviceIds recurse s).2) =
      timestamp (this s) /\
    dispatch_run addr (message (this s)) (timestamp (this s)) recurse
      (control t) es.
Proof.
  revert deviceIds recurse s.
  induction fuel as [| fuel IH]; intros deviceIds recurse s.
  { exists [], []. cbn. rewrite !app_nil_r. split_and!; try done. constructor. }
  destruct (padMessage (Content_encode E (message (this s))))
    as [paddedBuf |] eqn:Hpad; [| by rewrite padMessage_eq in Hpad].
  destruct (encryptAll_quiet addr deviceIds paddedBuf s)
    as (Hthis1 & t1 & Ht1 & Hq1).
  destruct (encryptAll E addr deviceIds paddedBuf s)
    as [[messages | e |] s1] eqn:Henc; cbn [snd] in *.
  2:{ (* the encryption failed *)
    rewrite (doSendMessage_not_encrypted _ _ _ _ _ _ _ _ Hpad Henc). cbn [snd].
    destruct (emitError_effect addr "Failed to create message" (Some e) s1)
      as (t2 & Ht2 & Hq2 & Hthis2).
    eexists (t1 ++ t2), _. rewrite Ht2, Ht1, Hthis2, Hthis1, app_assoc. cbn.
    split_and!; try done. control_simpl. constructor. }
  2:{ rewrite (doSendMessage_starved_encrypting _ _ _ _ _ _ _ Hpad Henc).
    exists t1, []. cbn [snd]. rewrite Ht1, Hthis1, app_nil_r.
    split_and!; try done. control_simpl. constructor. }
  rewrite (doSendMessage_encrypted _ _ _ _ _ _ _ _ Hpad Henc). cbv zeta.
  set (answer := signal_sendMessages E (trace s1) addr messages
                   (timestamp (this s1))).
  set (sT := transmitted addr messages answer s1).
  assert (this sT = this s) as HthisT by done.
  assert (trace sT = trace s ++ t1 ++
            [SendMessages addr messages (timestamp (this s1)) answer]) as HtT.
  { cbn. by rewrite Ht1, <- app_assoc. }
  clearbody sT.
  assert (forall reason cause,
    (forall response, answer = Reject (ProtocolError 410 response) ->
       recurse = false ->
       reason = "Hit retry limit attempting to reload device list" /\
       wrap_error (this sT) addr cause =
         OutgoingMessageError addr (message (this s)) (timestamp (this s))
           (Some (ProtocolError 410 response))) ->
    exists t es,
      trace (emitError E addr reason cause sT).2 = trace s ++ t /\
      errors (this (emitError E addr reason cause sT).2) = errors (this s) ++ es /\
      message (this (emitError E addr reason cause sT).2) = message (this s) /\
      timestamp (this (emitError E addr reason cause sT).2) = timestamp (this s) /\
      dispatch_run addr (message (this s)) (timestamp (this s)) recurse
        (control t) es) as Hstop.
  { intros reason cause Hlimit.
    destruct (emitError_effect addr reason cause sT) as (t2 & Ht2 & Hq2 & Hthis2).
    eexists (t1 ++ _ :: t2), _. rewrite Ht2, HtT, Hthis2, HthisT. cbn.
    rewrite <- !app_assoc. split_and!; try done.
    control_simpl. constructor. intros Hrec response Hanswer.
    destruct (Hlimit response Hanswer Hrec) as [-> Hwrap].
    eexists. split; [left |]. cbn. by rewrite HthisT in Hwrap. }
  destruct answer as [[] | e] eqn:Hanswer.
  { (* accepted *)
    destruct (emitSent_effect addr sT) as (t2 & Ht2 & Hq2 & He2 & Hm2 & Hts2).
    eexists (t1 ++ _ :: t2), []. rewrite Ht2, HtT, He2, Hm2, Hts2, HthisT.
    rewrite <- !app_assoc, app_nil_r. split_and!; try done.
    control_simpl. constructor. intros _ response [=]. }
  destruct e as [code response | | | | |]; cbn [after_rejection snd];
    try (apply Hstop; intros ? [=]).
  destruct (Z.eqb_spec code 410) as [-> | H10];
    [| destruct (Z.eqb_spec code 409) as [-> | H9]]; cbn [orb].
  3:{ apply Hstop. intros ? [=]. congruence. }
  all: destruct recurse.
  2,4: apply Hstop; intros response' [= <-] _;
       (split; [done |]); cbn; by rewrite HthisT.
  all: match goal with |- context [recover E (build_ciphers ?a ?ids) _ ?code ?r ?st] =>
         destruct (recover_quiet a ids code r st)
           as (Hthis2 & t2 & Ht2 & Hq2);
         destruct (recover E (build_ciphers a ids) a code r st)
           as [[[] | e' |] s2]; cbn [snd] in *
       end.
  2,3,5,6:
    eexists (t1 ++ _ :: t2), []; rewrite Ht2, HtT, Hthis2, HthisT;
    rewrite <- !app_assoc, app_nil_r; (split_and!; try done);
    control_simpl; constructor; done.
  all: rewrite reloadDevicesAndSend_eq; cbv zeta;
       set (entered := {| this := this s2; trace := _ |});
       destruct (storage_getDeviceIds E _ _) as [deviceIds' | e'].
  2,4:
    destruct (emitError_effect addr "Failed to reload device keys" (Some e')
                entered) as (t3 & Ht3 & Hq3 & Hthis3);
    eexists (t1 ++ _ :: t2 ++ _ :: _ :: t3), _;
    cbn [snd]; rewrite Ht3, Hthis3; cbn [entered this trace];
    rewrite Ht2, HtT, Hthis2, HthisT; cbn;
    rewrite <- !app_assoc; (split_and!; try done);
    control_simpl; eapply run_retry; [apply run_silent | done].
  all: match goal with
       |- context [doSendMessage E ?n ?a ?ids ?b ?st] =>
         destruct (IH ids b st)
           as (ti & esi & Hti & Hei & Hmi & Htsi & Hrun);
         cbn [entered this trace] in Hti, Hei, Hmi, Htsi, Hrun;
         rewrite Hthis2, HthisT in Hei, Hmi, Htsi, Hrun;
         rewrite Ht2, HtT in Hti;
         destruct (doSendMessage E n a ids b st)
           as [[[] | e' |] s3]; cbn [snd] in *
       end.
  1,4:
    destruct (emitSent_effect addr s3) as (t4 & Ht4 & Hq4 & He4 & Hm4 & Hts4);
    eexists (t1 ++ _ :: t2 ++ _ :: _ :: ti ++ t4), esi;
    rewrite Ht4, He4, Hm4, Hts4, Hti, Hei, Hmi, Htsi;
    rewrite <- ?app_assoc; cbn [app]; rewrite <- ?app_assoc;
    (split_and!; try done);
    control_simpl; eapply run_retry; [exact Hrun | done].
  1,3:
    destruct (emitError_effect addr "Failed to reload device keys" (Some e') s3)
      as (t4 & Ht4 & Hq4 & Hthis4);
    eexists (t1 ++ _ :: t2 ++ _ :: _ :: ti ++ t4), (esi ++ _);
    rewrite Ht4, Hthis4, Hti; cbn [push_error errors message timestamp];
    rewrite Hei, Hmi, Htsi;
    rewrite <- ?app_assoc; cbn [app]; rewrite <- ?app_assoc;
    (split_and!; try done);
    control_simpl; eapply run_retry;
      [exact Hrun | intros entry Hin; apply elem_of_app; by left].
  all:
    eexists (t1 ++ _ :: t2 ++ _ :: _ :: ti), esi;
    rewrite Hti, Hei, Hmi, Htsi;
    rewrite <- ?app_assoc; cbn [app]; rewrite <- ?app_assoc;
    (split_and!; try done);
    control_simpl; eapply run_retry; [exact Hrun | done].
Qed.

(** A dispatch transmits nothing, or enters [reloadDevicesAndSend] with
    [recurse = true] and goes on as [dispatch_run] says. *)
Lemma sendToAddr_run fuel addr s :
  exists t es,
    trace (sendToAddr E fuel addr s).2 = trace s ++ t /\
    errors (this (sendToAddr E fuel addr s).2) = errors (this s) ++ es /\
    (control t = [] \/
     exists c es0,
       control t = Enter_reloadDevicesAndSend addr true :: c /\
       dispatch_run addr (message (this s)) (timestamp (this s)) true c es0 /\
       forall entry, entry ∈ es0 -> entry ∈ es).
Proof.
  assert (forall reason cause s0 t0,
    this s0 = this s -> trace s0 = trace s ++ t0 -> Forall quiet t0 ->
    exists t es,
      trace (emitError E addr reason cause s0).2 = trace s ++ t /\
      errors (this (emitError E addr reason cause s0).2) = errors (this s) ++ es /\
      control t = []) as Hstop.
  { intros reason cause s0 t0 Hthis0 Ht0 Hq0.
    destruct (emitError_effect addr reason cause s0) as (t1 & Ht1 & Hq1 & Hthis1).
    eexists (t0 ++ t1), _. rewrite Ht1, Ht0, Hthis1, Hthis0, app_assoc. cbn.
    split_and!; try done. by control_simpl. }
  unfold sendToAddr. rewrite bind_eq, try_catch_eq, fmap_eq.
  destruct (getStaleDeviceIdsForAddr_quiet addr s) as (Hthis1 & t1 & Ht1 & Hq1).
  destruct (getStaleDeviceIdsForAddr E addr s) as [[updateDevices | e |] s1];
    cbn [snd] in *.
  2:{ rewrite emitError_then_ret.
      destruct (Hstop ("Failed to get device ids for address " +:+ addr)
                  (Some e) s1 t1 Hthis1 Ht1 Hq1) as (t & es & Ht & Hes & Hc).
      exists t, es. cbn [snd]. split_and!; try done. by left. }
  2:{ exists t1, []. rewrite app_nil_r, Hthis1. split_and!; try done.
      left. by control_simpl. }
  rewrite bind_eq, try_catch_eq, bind_eq.
  destruct (getKeysForAddr_quiet addr (Some updateDevices) false s1)
    as (Hthis2 & t2 & Ht2 & Hq2).
  destruct (getKeysForAddr E addr (Some updateDevices) false s1)
    as [[[] | e |] s2]; cbn [snd] in *.
  2:{ rewrite emitError_then_ret.
      destruct (Hstop ("Failed to retrieve new device keys for address " +:+ addr)
                  (Some e) s2 (t1 ++ t2)) as (t & es & Ht & Hes & Hc).
      - congruence.
      - by rewrite Ht2, Ht1, app_assoc.
      - by apply Forall_app.
      - exists t, es. cbn [snd]. split_and!; try done. by left. }
  2:{ exists (t1 ++ t2), []. rewrite Ht2, Ht1, Hthis2, Hthis1, app_nil_r, app_assoc.
      split_and!; try done. left. by control_simpl. }
  cbn [mret ret Async_ret]. rewrite try_catch_eq, reloadDevicesAndSend_eq.
  cbv zeta. set (entered := {| this := this s2; trace := _ |}).
  destruct (storage_getDeviceIds E _ _) as [deviceIds | e].
  2:{ destruct (emitError_effect addr ("Failed to send to address " +:+ addr)
                  (Some e) entered) as (t3 & Ht3 & Hq3 & Hthis3).
      eexists (t1 ++ t2 ++ _ :: _ :: t3), _.
      rewrite Ht3, Hthis3. cbn [entered this trace].
      rewrite Ht2, Ht1, Hthis2, Hthis1. cbn.
      rewrite <- ?app_assoc. split_and!; try done.
      right. eexists [], []. control_simpl.
      split; [done |]. split; [apply run_silent | by intros ? ?%elem_of_nil]. }
  destruct (doSendMessage_run fuel addr deviceIds true entered)
    as (ti & esi & Hti & Hei & Hmi & Htsi & Hrun).
  cbn [entered this trace] in Hti, Hei, Hmi, Htsi, Hrun.
  rewrite Hthis2, Hthis1 in Hei, Hmi, Htsi, Hrun. rewrite Ht2, Ht1 in Hti.
  destruct (doSendMessage E fuel addr deviceIds true entered)
    as [[[] | e |] s3]; cbn [snd] in *.
  - eexists (t1 ++ t2 ++ _ :: _ :: ti), esi. rewrite Hti, Hei.
    rewrite <- ?app_assoc. cbn [app]. split_and!; try done.
    right. exists (control ti), esi. control_simpl. by split_and!.
  - destruct (emitError_effect addr ("Failed to send to address " +:+ addr)
                (Some e) s3) as (t4 & Ht4 & Hq4 & Hthis4).
    eexists (t1 ++ t2 ++ _ :: _ :: ti ++ t4), (esi ++ _).
    rewrite Ht4, Hthis4, Hti. cbn [push_error errors]. rewrite Hei.
    rewrite <- ?app_assoc. cbn [app]. rewrite <- ?app_assoc.
    split_and!; try done.
    right. exists (control ti), esi. control_simpl.
    split_and!; try done. intros entry Hin. apply elem_of_app. by left.
  - eexists (t1 ++ t2 ++ _ :: _ :: ti), esi. rewrite Hti, Hei.
    rewrite <- ?app_assoc. cbn [app]. split_and!; try done.
    right. exists (control ti), esi. control_simpl. by split_and!.
Qed.

(** C5: among the transmissions and re-entries of one dispatch, a
    transmission answered 410 is followed by nothing, or by one entry into
    [reloadDevicesAndSend] with [recurse = false] and at most one more
    transmission; when that one is answered 410 as well, the dispatch has
    appended the error "Hit retry limit attempting to reload device list"
    to [errors], and nothing is transmitted after it. *)
Theorem second_410_ends_dispatch
    fuel addr s pre a jsonData ts response post :
  control (recorded (sendToAddr E fuel addr) s) =
    pre ++ SendMessages a jsonData ts (Reject (ProtocolError 410 response)) :: post ->
  exists es,
    errors (this (sendToAddr E fuel addr s).2) = errors (this s) ++ es /\
    (post = [] \/
     post = [Enter_reloadDevicesAndSend addr false] \/
     exists jsonData' ts' answer',
       post = [Enter_reloadDevicesAndSend addr false;
               SendMessages addr jsonData' ts' answer'] /\
       forall response',
         answer' = Reject (ProtocolError 410 response') ->
         exists entry,
           entry ∈ es /\
           error_reason entry =
             "Hit retry limit attempting to reload device list" /\
           error_addr entry = addr /\
           entry_error entry =
             OutgoingMessageError addr (message (this s)) (timestamp (this s))
               (Some (ProtocolError 410 response'))).
Proof.
  intros Hc.
  destruct (sendToAddr_run fuel addr s) as (t & es & Ht & Hes & Hshape).
  unfold recorded in Hc. rewrite Ht, drop_app_length in Hc.
  exists es. split; [done |].
  destruct Hshape as [Hnil | (c & es0 & Hct & Hrun & Hsub)].
  { rewrite Hnil in Hc. by destruct pre. }
  rewrite Hct in Hc. destruct pre as [| ev pre]; [discriminate Hc |].
  cbn [app] in Hc. injection Hc as _ Hc.
  apply (after_410_mono _ _ _ _ es0 es Hsub).
  by eapply dispatch_run_after_410.
Qed.

End Transmit.

(** C10 at work: devices 1 and 2 were encrypted to and the server answers
    410 with the stale device 3. *)
Lemma stale_device_without_cipher_witness :
  build_ciphers "alice" [1; 2] !! 3 = None /\
  exists s' t,
    doSendMessage (scripted (script_sends [1; 2] [Some (answer_410 [3])]))
      1 "alice" [1; 2] true (fresh 42 [Byte.x01]) = (Throw no_cipher, s') /\
    this s' = this (encrypted_to [1; 2]) /\
    trace s' =
      trace (encrypted_to [1; 2]) ++
      SendMessages "alice" (map plain_message [1; 2])
        (timestamp (this (encrypted_to [1; 2])))
        (Reject (answer_410 [3])) :: t /\
    Forall (fun ev => exists id, ev = CloseOpenSession "alice" id /\ id ∈ [1; 2]) t.
Proof.
  apply (stale_device_without_cipher
           (scripted (script_sends [1; 2] [Some (answer_410 [3])]))
           0 "alice" [1; 2] (fresh 42 [Byte.x01]) padded_one
           (map plain_message [1; 2]) (encrypted_to [1; 2])
           {| extraDevices := None; missingDevices := None;
              staleDevices := Some [3] |} [3] 3);
    try (vm_compute; reflexivity).
  - left.
  - compute_done.
Defined.

(** C6 at work: devices 1, 2 and 3 were encrypted to and the server
    answers 409, device 3 being extra and none missing: the session
    [alice.3] is removed, no key is fetched, and then [doSendMessage]
    re-enters [reloadDevicesAndSend] with [recurse = true]. *)
Lemma mismatched_devices_recovery_witness :
  exists keys rest,
    trace (doSendMessage
             (scripted (script_sends [1; 2; 3] [Some (answer_409 [3] [])]))
             2 "alice" [1; 2; 3] true (fresh 42 [Byte.x01])).2 =
    (trace (encrypted_to [1; 2; 3]) ++
     [SendMessages "alice" (map plain_message [1; 2; 3]) 42
        (Reject (answer_409 [3] []))]) ++
    ([RemoveSession "alice.3"] ++ keys) ++
    Enter_reloadDevicesAndSend "alice" true :: rest /\
    Forall (fun ev => ~ exists device, ev = FetchKeys "alice" device) keys.
Proof.
  destruct (mismatched_devices_recovery
              (scripted (script_sends [1; 2; 3] [Some (answer_409 [3] [])]))
              1 "alice" [1; 2; 3] (fresh 42 [Byte.x01]) padded_one
              (map plain_message [1; 2; 3]) (encrypted_to [1; 2; 3])
              {| extraDevices := Some [3]; missingDevices := Some [];
                 staleDevices := None |} [3] []
              ltac:(vm_compute; reflexivity) ltac:(vm_compute; reflexivity)
              ltac:(vm_compute; reflexivity) eq_refl eq_refl)
    as ((removed & keys & Htrace & _ & Hkeys & Hall) & Hreturned & _).
  destruct Hreturned as [[rest Hrest] _]; [vm_compute; reflexivity |].
  destruct Hall as [-> _]; [vm_compute; reflexivity |].
  exists keys, rest. split.
  - rewrite Hrest, Htrace. reflexivity.
  - eapply Forall_impl; [exact Hkeys |].
    intros ev Hev [device ->]. cbn in Hev.
    destruct Hev as (_ & id & _ & Hid). by apply elem_of_nil in Hid.
Defined.

(** C5 at work: devices 1 and 2, and the server answers both
    transmissions with 410. *)
Lemma second_410_ends_dispatch_witness :
  exists es,
    errors (this (sendToAddr
                    (scripted (script_sends [1; 2]
                                 [Some (answer_410 [2]); Some (answer_410 [2])]))
                    4 "alice" (fresh 42 [Byte.x01])).2) =
      errors (this (fresh 42 [Byte.x01])) ++ es /\
    exists entry,
      entry ∈ es /\
      error_reason entry = "Hit retry limit attempting to reload device list" /\
      error_addr entry = "alice" /\
      entry_error entry =
        OutgoingMessageError "alice" [Byte.x01] 42 (Some (answer_410 [2])).
Proof.
  destruct (second_410_ends_dispatch
              (scripted (script_sends [1; 2]
                           [Some (answer_410 [2]); Some (answer_410 [2])]))
              4 "alice" (fresh 42 [Byte.x01])
              [Enter_reloadDevicesAndSend "alice" true]
              "alice" (map plain_message [1; 2]) 42
              {| extraDevices := None; missingDevices := None;
                 staleDevices := Some [2] |}
              [Enter_reloadDevicesAndSend "alice" false;
               SendMessages "alice" (map plain_message [1; 2]) 42
                 (Reject (answer_410 [2]))]
              ltac:(vm_compute; reflexivity))
    as (es & Hes & [Hpost | [Hpost | (j & ts & answer & Hpost & Hhit)]]);
    [discriminate Hpost | discriminate Hpost |].
  exists es. split; [exact Hes |].
  injection Hpost as _ _ <-. by apply Hhit.
Defined.

(** * Further properties of the dispatcher *)

Section Emit.
Context {Content : Type} (E : Env Content).
Implicit Types s : St Content.

Lemma on_plain_listeners event callback (o : OutgoingMessage Content) :
  plain_listeners o -> plain_listeners (on event callback o).2.
Proof.
  intros Hplain ev Hev. unfold on, listeners_of.
  destruct (_listeners o !! event) as [handlers |] eqn:Hown.
  - cbn. rewrite lookup_insert_ne; [by apply Hplain |].
    intros <-. by rewrite Hplain in Hown.
  - destruct (bool_decide_reflect (event ∈ Object_prototype)) as [Hin | Hout];
      cbn; [by apply Hplain |].
    rewrite lookup_insert_ne; [by apply Hplain | by intros <-].
Qed.

Lemma register_plain_listeners regs (o : OutgoingMessage Content) :
  plain_listeners o -> plain_listeners (register regs o).
Proof.
  revert o. induction regs as [| [ev cb] regs IH]; intros o Hplain; [done |].
  cbn [register foldl fst snd]. apply IH. by apply on_plain_listeners.
Qed.

Lemma register_listeners event regs (o : OutgoingMessage Content) :
  plain_listeners o -> event ∉ Object_prototype ->
  _listeners (register regs o) !! event =
  match registered event regs with
  | [] => _listeners o !! event
  | hs => Some (default [] (_listeners o !! event) ++ hs)
  end.
Proof.
  intros Hplain Hevent. revert o Hplain.
  induction regs as [| [ev cb] regs IH]; intros o Hplain; [done |].
  cbn [register foldl registered omap list_omap fst snd].
  fold (register regs (on ev cb o).2).
  rewrite IH by by apply on_plain_listeners. fold (registered event regs).
  unfold on, listeners_of.
  destruct (String.eqb_spec ev event) as [-> | Hne].
  - rewrite bool_decide_eq_false_2 by done.
    destruct (_listeners o !! event) as [handlers |] eqn:Hown;
      cbn [snd set_listeners _listeners default];
      rewrite lookup_insert_eq; cbn [default];
      destruct (registered event regs) as [| h hs]; try done;
      unfold id; by rewrite <- app_assoc.
  - destruct (_listeners o !! ev) as [handlers |];
      [| destruct (bool_decide _)];
      cbn [snd set_listeners _listeners]; by rewrite ?lookup_insert_ne.
Qed.

Lemma consoles_cons (r : @HandlerRun Content) rs :
  consoles (r :: rs) = consoles [r] ++ consoles rs.
Proof. unfold consoles. cbn. by destruct (h_threw r). Qed.

Lemma run_callbacks_runs handlers (arg : EventArg Content) accepted s :
  exists rs,
    length rs = length handlers /\
    (forall i h r, handlers !! i = Some h -> rs !! i = Some r ->
       r = h (trace s ++ consoles (take i rs)) arg) /\
    run_callbacks handlers arg accepted s =
      (Ret (accepted || existsb h_accept rs),
       {| this := this s; trace := trace s ++ consoles rs |}).
Proof.
  revert accepted s.
  induction handlers as [| callback handlers IH]; intros accepted s.
  { exists []. split_and!; [done | by intros i h r [=] | ].
    cbn. rewrite orb_false_r, app_nil_r. by destruct s. }
  cbn [run_callbacks]. rewrite bind_eq. cbn [get_trace]. rewrite bind_eq.
  set (r0 := callback (trace s) arg).
  set (s1 := {| this := this s; trace := trace s ++ consoles [r0] |}).
  assert ((match h_threw r0 with
           | Some e => log (ConsoleError e)
           | None => ret tt
           end) s = (Ret tt, s1)) as ->.
  { subst s1. unfold consoles. cbn. destruct (h_threw r0); cbn; [done |].
    rewrite app_nil_r. by destruct s. }
  destruct (IH (accepted || h_accept r0)%bool s1) as (rs & Hlen & Hrs & Hrun).
  exists (r0 :: rs). split_and!.
  - cbn. by rewrite Hlen.
  - intros [| i] h r Hh Hr; cbn in Hh, Hr.
    + injection Hh as <-. injection Hr as <-. cbn. by rewrite app_nil_r.
    + rewrite (Hrs i h r Hh Hr). cbn [take]. rewrite (consoles_cons r0).
      cbn [s1 trace]. by rewrite app_assoc.
  - rewrite Hrun. cbn [existsb s1 this trace].
    rewrite (consoles_cons r0 rs), orb_assoc, app_assoc. done.
Qed.

(** X1: build the object and call [on] any number of times.  Under a name
    that [Object.prototype] defines ([toString], [constructor], ...) there
    is no array of callbacks: [on] throws a TypeError and leaves the object
    as it was, and [emit] records the event and is rejected with a
    TypeError.  Under every other name, [emit] runs the callbacks that
    were registered for that event, and only those, once each in the order
    of their registration; a callback that throws is reported to
    [console.error] and the next one still runs; [emit] itself returns,
    with [accepted] set when a callback set it. *)
Theorem emit_calls_registered_callbacks
    (T : Z) (message : Content) (now : Z)
    (regs : list (string * Handler)) (t : list (Event Content))
    (event : string) (arg : EventArg Content) :
  let s := {| this := register regs (constructor T message now); trace := t |} in
  let handlers := registered event regs in
  if bool_decide (event ∈ Object_prototype) then
    (forall callback,
       exists text, on event callback (this s) = (Some (TypeError text), this s)) /\
    (exists text,
       emit event arg s =
         (Throw (TypeError text),
          {| this := this s; trace := t ++ [Emit event arg] |}))
  else
    exists rs,
      length rs = length handlers /\
      (forall i h r, handlers !! i = Some h -> rs !! i = Some r ->
         r = h (t ++ Emit event arg :: consoles (take i rs)) arg) /\
      emit event arg s =
        (Ret (existsb h_accept rs),
         {| this := this s; trace := t ++ Emit event arg :: consoles rs |}).
Proof.
  intros s handlers.
  assert (plain_listeners (this s)) as Hplain.
  { apply register_plain_listeners. intros ev _. apply lookup_empty. }
  destruct (bool_decide_reflect (event ∈ Object_prototype)) as [Hin | Hout].
  { unfold on, emit, listeners_of. rewrite bind_eq. cbn [get_this].
    rewrite bind_eq. cbn [log].
    rewrite (Hplain event Hin), bool_decide_eq_true_2 by done.
    split; [intros callback |]; by eexists. }
  unfold emit. rewrite bind_eq. cbn [get_this].
  rewrite bind_eq. cbn [log]. cbn [s this trace]. unfold listeners_of.
  rewrite register_listeners; [| by intros ev _; apply lookup_empty | done].
  fold handlers. cbn [constructor _listeners].
  rewrite lookup_empty, bool_decide_eq_false_2 by done. cbn [default app].
  set (s1 := {| this := _; trace := t ++ [Emit event arg] |}).
  destruct (run_callbacks_runs handlers arg false s1) as (rs & Hlen & Hrs & Hrun).
  exists rs. split; [done |]. split.
  - intros i h r Hh Hr. rewrite (Hrs i h r Hh Hr). cbn [s1 trace].
    by rewrite <- app_assoc.
  - destruct handlers as [| h hs] eqn:Hhs.
    + destruct rs; [| done]. cbn. done.
    + rewrite Hrun. cbn [orb s1 this trace]. by rewrite <- app_assoc.
Qed.

End Emit.

Section Logs.
Context {Content : Type} (E : Env Content).
Implicit Types s : St Content.

Lemma emitted_consoles event (rs : list (@HandlerRun Content)) :
  emitted event (consoles rs) = [].
Proof.
  induction rs as [| r rs IH]; [done |].
  unfold consoles, emitted in *. cbn. by destruct (h_threw r).
Qed.

Lemma emit_effect event (arg : EventArg Content) s :
  exists rs,
    (emit event arg s).2 =
    {| this := this s; trace := trace s ++ Emit event arg :: consoles rs |}.
Proof.
  unfold emit. rewrite bind_eq. cbn [get_this]. rewrite bind_eq. cbn [log].
  unfold listeners_of.
  destruct (_ !! _) as [handlers |].
  - match goal with |- context [run_callbacks ?h ?a ?b ?s0] =>
      destruct (run_callbacks_runs h a b s0) as (rs & _ & _ & ->) end.
    exists rs. cbn. by rewrite <- app_assoc.
  - exists []. by destruct (bool_decide _).
Qed.

Lemma balanced_refl addr s : balanced addr s s.
Proof.
  unfold balanced. split_and!; try done.
  exists [], [], []. rewrite !app_nil_r. by split_and!.
Qed.

Lemma balanced_trans addr s1 s2 s3 :
  balanced addr s1 s2 -> balanced addr s2 s3 -> balanced addr s1 s3.
Proof.
  intros (Ha & Hb & Hc & Hd & t & es & ss & Ht & Hes & Hss & He & Hs & Fe & Fs)
         (Ha' & Hb' & Hc' & Hd' & t' & es' & ss' & Ht' & Hes' & Hss' & He' & Hs'
          & Fe' & Fs').
  unfold balanced. split_and!; try congruence.
  exists (t ++ t'), (es ++ es'), (ss ++ ss').
  rewrite Ht', Ht, Hes', Hes, Hss', Hss, !emitted_app, !map_app, He, He', Hs, Hs'.
  rewrite <- !app_assoc. split_and!; try done; by apply Forall_app.
Qed.

Lemma balanced_log addr ev s : background ev -> balanced addr s (log ev s).2.
Proof.
  intros [He Hs]. unfold balanced. cbn. split_and!; try done.
  exists [ev], [], []. rewrite !app_nil_r. split_and!; try done.
  - by apply not_emitting_emitted, Forall_singleton.
  - by apply not_emitting_emitted, Forall_singleton.
Qed.

Lemma balanced_this addr A (f : OutgoingMessage Content -> Async Content A) :
  (forall o, True -> preserves (balanced addr) (f o)) ->
  preserves (balanced addr) (get_this ≫= f).
Proof. intros Hf s. rewrite bind_eq. cbn. by apply Hf. Qed.

Lemma emitError_balanced addr reason cause :
  preserves (balanced addr) (emitError E addr reason cause).
Proof.
  intros s. unfold emitError. rewrite bind_eq. cbn [get_this].
  rewrite bind_eq, fmap_eq. cbn [get_trace].
  rewrite bind_eq. cbn [modify_this]. rewrite bind_eq.
  match goal with |- context [emit ?ev ?arg ?s0] =>
    destruct (emit_effect ev arg s0) as [rs Hs];
    pose proof (emit_returns ev arg s0 eq_refl) as [b Hb];
    destruct (emit ev arg s0) as [[? | ? |] s1]; cbn in Hs, Hb; [| done | done]
  end.
  subst s1. unfold balanced. cbn. split_and!; try done.
  eexists (Emit _ _ :: consoles rs), [_], []. rewrite ?app_nil_r.
  split_and!; try done; try (by rewrite emitted_cons, emitted_consoles).
  by apply Forall_singleton.
Qed.

Lemma emitSent_balanced addr :
  preserves (balanced addr) (emitSent E addr).
Proof.
  intros s. unfold emitSent. rewrite bind_eq, fmap_eq. cbn [get_trace].
  rewrite bind_eq. cbn [modify_this]. rewrite bind_eq.
  match goal with |- context [emit ?ev ?arg ?s0] =>
    destruct (emit_effect ev arg s0) as [rs Hs];
    pose proof (emit_returns ev arg s0 eq_refl) as [b Hb];
    destruct (emit ev arg s0) as [[? | ? |] s1]; cbn in Hs, Hb; [| done | done]
  end.
  subst s1. unfold balanced. cbn. split_and!; try done.
  eexists (Emit _ _ :: consoles rs), [], [_]. rewrite ?app_nil_r.
  split_and!; try done; try (by rewrite emitted_cons, emitted_consoles).
  by apply Forall_singleton.
Qed.

Lemma balanced_sending addr :
  admits_sending E (balanced addr) background (fun _ => True) addr.
Proof.
  unfold admits_sending. split_and!; try done.
  - apply emitError_balanced.
  - apply emitSent_balanced.
Qed.

(** X2: in a dispatch to [addr], the [errors] and [sent] logs grow by
    exactly the entries that are emitted under the names [error] and
    [sent], in the same order; every such entry names [addr]; earlier
    entries and the other fields of the object are left as they were. *)
Theorem logs_mirror_events fuel addr s :
  let s' := (sendToAddr E fuel addr s).2 in
  exists es ss,
    errors (this s') = errors (this s) ++ es /\
    sent (this s') = sent (this s) ++ ss /\
    emitted "error" (recorded (sendToAddr E fuel addr) s) = map ArgError es /\
    emitted "sent" (recorded (sendToAddr E fuel addr) s) = map ArgSent ss /\
    Forall (fun entry => error_addr entry = addr) es /\
    Forall (fun entry => sent_addr entry = addr) ss /\
    timestamp (this s') = timestamp (this s) /\
    message (this s') = message (this s) /\
    created (this s') = created (this s) /\
    _listeners (this s') = _listeners (this s).
Proof.
  intros s'.
  destruct (sending_sendToAddr E (balanced addr) background
              (balanced_refl addr) (balanced_trans addr)
              (fun ev s0 H => balanced_log addr ev s0 H)
              (fun _ => True) (balanced_this addr) fuel addr
              (balanced_sending addr) s)
    as (Ha & Hb & Hc & Hd & t & es & ss & Ht & Hes & Hss & He & Hs & Fe & Fs).
  exists es, ss. unfold recorded. subst s'. rewrite Ht, drop_app_length.
  by split_and!.
Qed.

End Logs.

Section Plaintext.
Context {Content : Type} (E : Env Content).
Implicit Types s : St Content.

Lemma keeps_message_refl m s : keeps_message E m s s.
Proof. intros Hm. split; [done | apply extends_refl]. Qed.

Lemma keeps_message_trans m s1 s2 s3 :
  keeps_message E m s1 s2 -> keeps_message E m s2 s3 -> keeps_message E m s1 s3.
Proof.
  intros H12 H23 Hm. destruct (H12 Hm) as [Hm2 X12].
  destruct (H23 Hm2) as [Hm3 X23]. split; [done | by eapply extends_trans].
Qed.

Lemma keeps_message_log m ev s :
  padded_for E m ev -> keeps_message E m s (log ev s).2.
Proof. intros HQ Hm. split; [done | by apply extends_log]. Qed.

Lemma keeps_message_this m A (f : OutgoingMessage Content -> Async Content A) :
  (forall o, message o = m -> preserves (keeps_message E m) (f o)) ->
  preserves (keeps_message E m) (get_this ≫= f).
Proof. intros Hf s Hm. rewrite bind_eq. cbn. by apply Hf. Qed.

Lemma keeps_message_push m : admits_push (keeps_message E m).
Proof.
  split; intros entry s Hm; (split; [done |]);
    exists []; cbn; by rewrite app_nil_r.
Qed.

Lemma keeps_message_sending m addr :
  admits_sending E (keeps_message E m) (padded_for E m)
    (fun o => message o = m) addr.
Proof.
  unfold admits_sending. split_and!; try done.
  - intros reason cause.
    apply (preserves_emitError E (keeps_message E m) (padded_for E m)
             (keeps_message_refl m) (keeps_message_trans m)
             (fun ev s H => keeps_message_log m ev s H));
      [apply keeps_message_push | done | done].
  - apply (preserves_emitSent E (keeps_message E m) (padded_for E m)
             (keeps_message_refl m) (keeps_message_trans m)
             (fun ev s H => keeps_message_log m ev s H));
      [apply keeps_message_push | done | done].
  - intros o id paddedBuf <- Hpad. exact Hpad.
Qed.

(** X3: every encryption of a dispatch, retries included, is of the same
    plaintext: the padded encoding of the message of the object; the
    message itself is not changed. *)
Theorem every_encryption_is_of_the_padded_message fuel addr s :
  exists paddedBuf,
    padMessage (Content_encode E (message (this s))) = Some paddedBuf /\
    message (this (sendToAddr E fuel addr s).2) = message (this s) /\
    Forall (fun ev => match ev with
                      | Encrypt _ _ plaintext => plaintext = paddedBuf
                      | _ => True
                      end)
           (recorded (sendToAddr E fuel addr) s).
Proof.
  destruct (padMessage (Content_encode E (message (this s))))
    as [paddedBuf |] eqn:Hpad; [| by rewrite padMessage_eq in Hpad].
  exists paddedBuf. split; [done |].
  destruct (sending_sendToAddr E (keeps_message E (message (this s)))
              (padded_for E (message (this s)))
              (keeps_message_refl _) (keeps_message_trans _)
              (fun ev s0 H => keeps_message_log _ ev s0 H)
              (fun o => message o = message (this s)) (keeps_message_this _)
              fuel addr (keeps_message_sending _ addr) s eq_refl)
    as [Hm Hx].
  split; [done |].
  apply extends_recorded in Hx.
  eapply Forall_impl; [exact Hx |].
  intros [] Hev; try done. cbn in Hev. congruence.
Qed.

End Plaintext.

Section FirstPhase.
Context {Content : Type} (E : Env Content).
Implicit Types s : St Content.

Lemma settle_all_settled {A} n (pending : list (Async Content A))
    (rs : list (outcome A)) s :
  length pending = n ->
  Forall2 (fun rest r => settled_with r rest) pending rs ->
  (settle_all E n pending s).2 = s /\
  match (settle_all E n pending s).1 with
  | Ret values => rs = Ret <$> values
  | Throw e => Throw e ∈ rs
  | Starved => False
  end.
Proof.
  revert pending rs.
  induction n as [| n IH]; intros pending rs Hlen Hall.
  { destruct pending; [| done]. apply Forall2_nil_inv_l in Hall as ->. done. }
  cbn [settle_all]. rewrite bind_eq. cbn [get_trace]. cbv zeta.
  set (k := (_ mod _)%nat).
  assert (k < length pending)%nat as Hk
    by (apply Nat.mod_upper_bound; lia).
  destruct (lookup_lt_is_Some_2 pending k Hk) as [rest Hrest].
  rewrite Hrest.
  destruct (Forall2_lookup_l _ _ _ _ _ Hall Hrest) as (r & Hr & Hne & Hrun).
  assert (Forall silent (delete k pending)) as Hsilent.
  { apply Forall_delete, Forall_forall. intros m Hm s0.
    apply list_elem_of_lookup in Hm as [i Hi].
    destruct (Forall2_lookup_l _ _ _ _ _ Hall Hi) as (? & _ & _ & Hm).
    by rewrite Hm. }
  rewrite bind_eq, try_catch_eq, Hrun.
  destruct r as [a | e |]; [| | done].
  - rewrite bind_eq.
    destruct (IH (delete k pending) (delete k rs)) as [Hs Hout].
    { rewrite length_delete by done. lia. }
    { by apply Forall2_delete. }
    destruct (settle_all E n (delete k pending) s) as [[values | e |] s1];
      cbn [fst snd] in *; [| | done].
    + split; [done |]. cbn [ret fst].
      rewrite fmap_app, fmap_take, fmap_cons, fmap_drop, <- Hout.
      rewrite delete_take_drop.
      assert (length (take k rs) = k) as Hlk.
      { rewrite length_take. apply lookup_lt_Some in Hr. lia. }
      rewrite take_app_length' by done.
      rewrite drop_app_length' by done.
      symmetry. by apply take_drop_middle.
    + split; [done |]. eapply elem_of_sublist; [exact Hout |].
      apply sublist_delete.
  - rewrite bind_eq, go_on_silent by done.
    split; [done |]. by eapply list_elem_of_lookup_2.
Qed.

(** Jobs that call one operation each and go on with its answer: the
    operations are called in array order. *)
Lemma start_all_calls {X A B} (ev : X -> Event Content)
    (op : X -> list (Event Content) -> reply A)
    (k : X -> reply A -> Async Content B) (xs : list X) s :
  start_all (map (fun x => r ← call (ev x) (op x); ret (k x r)) xs) s =
  (Ret (imap (fun i x => k x (op x (trace s ++ map ev (take i xs)))) xs),
   {| this := this s; trace := trace s ++ map ev xs |}).
Proof.
  revert s. induction xs as [| x xs IH]; intros s.
  { cbn. rewrite app_nil_r. by destruct s. }
  cbn [map start_all]. rewrite bind_eq, bind_eq, call_eq. cbn [ret].
  rewrite bind_eq, IH. cbn [this trace imap take map].
  rewrite app_nil_r, <- app_assoc. cbn [app]. unfold ret. do 3 f_equal.
  apply imap_ext. intros i y _. cbn. by rewrite <- app_assoc.
Qed.

(** What [encryptAll] does: every device's cipher is asked, in order;
    the result is one of the rejections, or else the devices' messages. *)
Lemma encryptAll_outcome addr ids buf s :
  (encryptAll E addr ids buf s).2 =
    {| this := this s;
       trace := trace s ++ map (fun id => Encrypt addr id buf) ids |} /\
  match (encryptAll E addr ids buf s).1 with
  | Ret messages =>
      length messages = length ids /\
      forall i id, ids !! i = Some id ->
        exists enc,
          asked_to_encrypt E addr ids buf s i id = Resolve enc /\
          messages !! i = Some (toJSON E id enc)
  | Throw e =>
      exists i id,
        ids !! i = Some id /\
        asked_to_encrypt E addr ids buf s i id = Reject e
  | Starved => False
  end.
Proof.
  unfold encryptAll, Promise_all, encryptToDevice. rewrite bind_eq.
  rewrite (start_all_calls (fun id => Encrypt addr id buf)
             (fun id t => cipher_encrypt E t addr id buf)
             (fun id answer => encrypted ← settle answer;
                               ret (toJSON E id encrypted))).
  set (s1 := {| this := this s; trace := _ |}).
  set (pending := imap _ ids).
  destruct (settle_all_settled (length pending) pending
              (imap (fun i id =>
                       match asked_to_encrypt E addr ids buf s i id with
                       | Resolve enc => Ret (toJSON E id enc)
                       | Reject e => Throw e
                       end) ids) s1 eq_refl) as [Hs Hout].
  { apply Forall2_same_length_lookup. split; [unfold pending; by rewrite !length_imap |].
    intros i rest r. unfold pending. rewrite !list_lookup_imap.
    destruct (ids !! i) as [id |]; [| done]. cbn. intros [= <-] [= <-].
    unfold asked_to_encrypt.
    destruct (cipher_encrypt E _ addr id buf); by split. }
  split; [done |].
  destruct (settle_all E (length pending) pending s1) as [[messages | e |] s2];
    cbn [fst snd] in *; [| | done].
  - assert (length messages = length ids) as Hlen.
    { apply (f_equal length) in Hout.
      by rewrite length_imap, length_fmap in Hout. }
    split; [done |]. intros i id Hid.
    apply (f_equal (fun l => l !! i)) in Hout.
    rewrite list_lookup_imap, list_lookup_fmap, Hid in Hout. cbn in Hout.
    destruct (asked_to_encrypt E addr ids buf s i id) as [enc | e];
      destruct (messages !! i); try done.
    injection Hout as <-. by exists enc.
  - apply list_elem_of_lookup in Hout as [i Hi].
    rewrite list_lookup_imap in Hi.
    destruct (ids !! i) as [id |] eqn:Hid; [| done]. cbn in Hi.
    exists i, id. split; [done |].
    destruct (asked_to_encrypt E addr ids buf s i id); congruence.
Qed.

Lemma emitError_result addr reason cause s :
  exists rs,
    emitError E addr reason cause s =
    let entry := {| entry_timestamp := Date_now E (trace s);
                    entry_error := wrap_error (this s) addr cause;
                    error_addr := addr;
                    error_reason := reason |} in
    (Ret tt,
     {| this := push_error entry (this s);
        trace := trace s ++ Emit "error" (ArgError entry) :: consoles rs |}).
Proof.
  unfold emitError. rewrite bind_eq. cbn [get_this].
  rewrite bind_eq, fmap_eq. cbn [get_trace].
  rewrite bind_eq. cbn [modify_this]. rewrite bind_eq.
  match goal with |- context [emit ?ev ?arg ?s0] =>
    destruct (emit_effect ev arg s0) as [rs Hs];
    pose proof (emit_returns ev arg s0 eq_refl) as [b Hb];
    destruct (emit ev arg s0) as [[? | ? |] s1]; cbn in Hs, Hb; [| done | done]
  end.
  subst s1. by exists rs.
Qed.

Lemma emitSent_result addr s :
  exists rs,
    emitSent E addr s =
    let entry := {| sent_timestamp := Date_now E (trace s); sent_addr := addr |} in
    (Ret tt,
     {| this := push_sent entry (this s);
        trace := trace s ++ Emit "sent" (ArgSent entry) :: consoles rs |}).
Proof.
  unfold emitSent. rewrite bind_eq, fmap_eq. cbn [get_trace].
  rewrite bind_eq. cbn [modify_this]. rewrite bind_eq.
  match goal with |- context [emit ?ev ?arg ?s0] =>
    destruct (emit_effect ev arg s0) as [rs Hs];
    pose proof (emit_returns ev arg s0 eq_refl) as [b Hb];
    destruct (emit ev arg s0) as [[? | ? |] s1]; cbn in Hs, Hb; [| done | done]
  end.
  subst s1. by exists rs.
Qed.

Lemma reloadDevicesAndSend_grows fuel addr recurse s :
  grows any_event s (reloadDevicesAndSend E fuel addr recurse s).2.
Proof.
  apply (preserves_reloadDevicesAndSend E (grows any_event) any_event
           (grows_refl _) (grows_trans _) (fun ev s0 H => grows_log _ ev s0 H)
           (fun _ => True)
           (fun A f => this_unconstrained _ A f (grows_refl _))).
  apply grows_dispatch.
Qed.

Lemma recover_grows ciphers addr code response s :
  grows any_event s (recover E ciphers addr code response s).2.
Proof.
  apply (preserves_recover E (grows any_event) any_event
           (grows_refl _) (grows_trans _) (fun ev s0 H => grows_log _ ev s0 H)).
  unfold admits_recovery, admits_key_exchange. by split_and!.
Qed.

(** Whatever [doSendMessage] does with a rejected transmission, it only
    adds to the trace. *)
Lemma after_rejection_grows fuel addr deviceIds recurse messages e s :
  grows any_event s
    (after_rejection E fuel addr deviceIds recurse messages e s).2.
Proof.
  assert (forall reason cause,
    grows any_event s
      (@Ret Content unit tt, (emitError E addr reason cause s).2).2) as Hstop
    by (intros; apply emitError_grows).
  destruct e as [code response | | | | |]; cbn [after_rejection]; try apply Hstop.
  destruct (_ || _); [| apply Hstop].
  destruct recurse; [| apply Hstop].
  pose proof (recover_grows (build_ciphers addr deviceIds) addr code response s)
    as H1.
  destruct (recover _ _ _ _ _ _) as [[[] | e' |] s2]; cbn [snd] in *;
    [| done | done].
  pose proof (reloadDevicesAndSend_grows fuel addr (code =? 409) s2) as H2.
  destruct (reloadDevicesAndSend _ _ _ _ _) as [[[] | e' |] s3]; cbn [snd] in *.
  - eapply grows_trans; [exact H1 |]. eapply grows_trans; [exact H2 |].
    apply emitSent_grows.
  - eapply grows_trans; [exact H1 |]. eapply grows_trans; [exact H2 |].
    apply emitError_grows.
  - by eapply grows_trans.
Qed.

(** X4: [doSendMessage] first asks the cipher of every device of
    [deviceIds], in order, to encrypt the padded message; all of them are
    asked before any answer is looked at.  When some cipher rejects, one
    rejection (the first to arrive, whichever device it comes from) is
    recorded with the reason "Failed to create message", nothing is
    transmitted and the method returns.  When every cipher resolves, the
    method transmits, stamped with the object's timestamp, one bundle that
    holds one message per device, in the order of the devices, made by
    [toJSON] of what that device's cipher answered. *)
Theorem doSendMessage_encrypts_then_transmits fuel addr deviceIds recurse s :
  let r := doSendMessage E (S fuel) addr deviceIds recurse s in
  exists paddedBuf rest,
    padMessage (Content_encode E (message (this s))) = Some paddedBuf /\
    recorded (doSendMessage E (S fuel) addr deviceIds recurse) s =
      map (fun id => Encrypt addr id paddedBuf) deviceIds ++ rest /\
    ((exists i id e entry rs,
        deviceIds !! i = Some id /\
        asked_to_encrypt E addr deviceIds paddedBuf s i id = Reject e /\
        r.1 = Ret tt /\
        rest = Emit "error" (ArgError entry) :: consoles rs /\
        error_reason entry = "Failed to create message" /\
        entry_error entry = wrap_error (this s) addr (Some e) /\
        errors (this r.2) = errors (this s) ++ [entry] /\
        sent (this r.2) = sent (this s))
     \/
     (exists jsonData rest',
        rest =
          SendMessages addr jsonData (timestamp (this s))
            (signal_sendMessages E
               (trace s ++ map (fun id => Encrypt addr id paddedBuf) deviceIds)
               addr jsonData (timestamp (this s))) :: rest' /\
        length jsonData = length deviceIds /\
        forall i id, deviceIds !! i = Some id ->
          exists enc,
            asked_to_encrypt E addr deviceIds paddedBuf s i id = Resolve enc /\
            jsonData !! i = Some (toJSON E id enc))).
Proof.
  intros r. subst r. unfold recorded.
  destruct (padMessage (Content_encode E (message (this s))))
    as [paddedBuf |] eqn:Hpad; [| by rewrite padMessage_eq in Hpad].
  destruct (encryptAll_outcome addr deviceIds paddedBuf s) as [Hs1 Hout].
  destruct (encryptAll E addr deviceIds paddedBuf s)
    as [[messages | e |] s1] eqn:Henc; cbn [fst snd] in *; [| | done].
  - (* every cipher answered *)
    rewrite (doSendMessage_encrypted E _ _ _ _ _ _ _ _ Hpad Henc). cbv zeta.
    set (answer := signal_sendMessages E (trace s1) addr messages
                     (timestamp (this s1))).
    assert (exists t,
      trace (match answer with
             | Resolve _ => emitSent E addr (transmitted addr messages answer s1)
             | Reject e =>
                 after_rejection E fuel addr deviceIds recurse messages e
                   (transmitted addr messages answer s1)
             end).2 = trace (transmitted addr messages answer s1) ++ t)
      as [t Ht].
    { destruct answer as [[] | e].
      - apply (grows_trace any_event), emitSent_grows.
      - apply (grows_trace any_event), after_rejection_grows. }
    exists paddedBuf, (SendMessages addr messages (timestamp (this s)) answer :: t).
    split; [done |]. split.
    + rewrite Ht. cbn [transmitted trace]. subst s1.
      cbn [this trace]. rewrite <- !app_assoc. by rewrite drop_app_length.
    + right. exists messages, t. subst answer s1. cbn [this trace].
      split; [done |]. exact Hout.
  - (* a cipher rejected *)
    rewrite (doSendMessage_not_encrypted E _ _ _ _ _ _ _ _ Hpad Henc).
    destruct (emitError_result addr "Failed to create message" (Some e) s1)
      as [rs Hr]. rewrite Hr. cbv zeta. cbn [fst snd].
    destruct Hout as (i & id & Hid & Ha).
    eexists paddedBuf, _. split; [done |]. split.
    + cbn [trace]. subst s1. cbn [trace].
      by rewrite <- app_assoc, drop_app_length.
    + left. exists i, id, e. eexists _, rs. subst s1. cbn.
      by split_and!.
Qed.

Lemma encryptAll_resolved addr deviceIds buf s :
  (forall t id, id ∈ deviceIds ->
     exists enc, cipher_encrypt E t addr id buf = Resolve enc) ->
  exists messages,
    encryptAll E addr deviceIds buf s =
      (Ret messages,
       {| this := this s;
          trace := trace s ++ map (fun id => Encrypt addr id buf) deviceIds |}) /\
    length messages = length deviceIds.
Proof.
  intros Hres.
  destruct (encryptAll_outcome addr deviceIds buf s) as [Hs1 Hout].
  destruct (encryptAll E addr deviceIds buf s) as [[messages | e |] s1];
    cbn [fst snd] in *; [| | done].
  - exists messages. rewrite Hs1. by destruct Hout.
  - destruct Hout as (i & id & Hid & Ha). unfold asked_to_encrypt in Ha.
    destruct (Hres (trace s ++ map (fun id => Encrypt addr id buf)
                                 (take i deviceIds)) id) as [enc Henc];
      [by eapply list_elem_of_lookup_2 | congruence].
Qed.

Lemma control_encryptions addr ids buf :
  control (map (fun id => Encrypt addr id buf) ids : list (Event Content)) = [].
Proof. by induction ids. Qed.

Lemma control_consoles (rs : list (@HandlerRun Content)) :
  control (consoles rs) = [].
Proof.
  induction rs as [| r rs IH]; [done |].
  unfold consoles, control in *. cbn. by destruct (h_threw r).
Qed.

Lemma emitted_encryptions event addr ids buf :
  emitted event (map (fun id => Encrypt addr id buf) ids : list (Event Content))
  = [].
Proof. by induction ids. Qed.

Lemma emitted_head event (ev : Event Content) t :
  emitted event (ev :: t) =
  match ev with
  | Emit name arg => if String.eqb name event then [arg] else []
  | _ => []
  end ++ emitted event t.
Proof.
  unfold emitted. cbn [omap list_omap].
  destruct ev; try done. by destruct (String.eqb _ _).
Qed.

Ltac observe :=
  repeat first
    [ rewrite emitted_app | rewrite emitted_encryptions
    | rewrite emitted_consoles | rewrite emitted_head
    | rewrite control_app | rewrite control_encryptions
    | rewrite control_consoles | rewrite control_cons ];
  cbn.

(** X5: when every cipher encrypts and the server accepts the
    transmission, [doSendMessage] returns after one transmission and no
    re-entry; [sent] has grown by one entry for [addr], which was emitted
    under the name [sent]; [errors] is as it was and no [error] was
    emitted. *)
Theorem accepted_transmission_is_sent_once fuel addr deviceIds recurse s :
  (forall t id buf, id ∈ deviceIds ->
     exists enc, cipher_encrypt E t addr id buf = Resolve enc) ->
  (forall t jsonData,
     signal_sendMessages E t addr jsonData (timestamp (this s)) = Resolve tt) ->
  let r := doSendMessage E (S fuel) addr deviceIds recurse s in
  let t := recorded (doSendMessage E (S fuel) addr deviceIds recurse) s in
  exists entry jsonData,
    r.1 = Ret tt /\
    sent (this r.2) = sent (this s) ++ [entry] /\
    sent_addr entry = addr /\
    errors (this r.2) = errors (this s) /\
    emitted "sent" t = [ArgSent entry] /\
    emitted "error" t = [] /\
    control t = [SendMessages addr jsonData (timestamp (this s)) (Resolve tt)] /\
    length jsonData = length deviceIds.
Proof.
  intros Hciphers Hserver r t. subst r t. unfold recorded.
  destruct (padMessage (Content_encode E (message (this s))))
    as [paddedBuf |] eqn:Hpad; [| by rewrite padMessage_eq in Hpad].
  destruct (encryptAll_resolved addr deviceIds paddedBuf s)
    as (messages & Henc & Hlen); [by auto |].
  rewrite (doSendMessage_encrypted E _ _ _ _ _ _ _ _ Hpad Henc). cbv zeta.
  cbn [this trace]. rewrite Hserver.
  match goal with |- context [emitSent E addr ?s0] =>
    destruct (emitSent_result addr s0) as [rs ->] end.
  cbv zeta. cbn [fst snd transmitted this trace push_sent sent errors].
  eexists _, messages. rewrite <- !app_assoc, drop_app_length.
  observe. by split_and!.
Qed.

(** X6: when every cipher encrypts and the server rejects the
    transmission with anything but a 409 or a 410, [doSendMessage] returns
    after that one transmission with one more [errors] entry, reason
    "Failed to send message": a protocol error 404 as an
    UnregisteredUserError, another protocol error as a SendMessageError
    that holds the bundle and the timestamp, anything else as it is; none
    of them is wrapped in an OutgoingMessageError.  Nothing is added to
    [sent]. *)
Theorem rejected_transmission_is_reported fuel addr deviceIds recurse s e :
  protocol_code e <> Some 409 -> protocol_code e <> Some 410 ->
  (forall t id buf, id ∈ deviceIds ->
     exists enc, cipher_encrypt E t addr id buf = Resolve enc) ->
  (forall t jsonData,
     signal_sendMessages E t addr jsonData (timestamp (this s)) = Reject e) ->
  let r := doSendMessage E (S fuel) addr deviceIds recurse s in
  let t := recorded (doSendMessage E (S fuel) addr deviceIds recurse) s in
  exists entry jsonData,
    r.1 = Ret tt /\
    errors (this r.2) = errors (this s) ++ [entry] /\
    error_addr entry = addr /\
    error_reason entry = "Failed to send message" /\
    entry_error entry =
      match protocol_code e with
      | Some code =>
          if code =? 404 then UnregisteredUserError addr e
          else SendMessageError addr jsonData e (timestamp (this s))
      | None => e
      end /\
    sent (this r.2) = sent (this s) /\
    emitted "error" t = [ArgError entry] /\
    emitted "sent" t = [] /\
    control t = [SendMessages addr jsonData (timestamp (this s)) (Reject e)] /\
    length jsonData = length deviceIds.
Proof.
  intros H409 H410 Hciphers Hserver r t. subst r t. unfold recorded.
  destruct (padMessage (Content_encode E (message (this s))))
    as [paddedBuf |] eqn:Hpad; [| by rewrite padMessage_eq in Hpad].
  destruct (encryptAll_resolved addr deviceIds paddedBuf s)
    as (messages & Henc & Hlen); [by auto |].
  rewrite (doSendMessage_encrypted E _ _ _ _ _ _ _ _ Hpad Henc). cbv zeta.
  cbn [this trace]. rewrite Hserver.
  assert (exists cause,
    after_rejection E fuel addr deviceIds recurse messages e
      (transmitted addr messages (Reject e)
         {| this := this s;
            trace := trace s ++
              map (fun id => Encrypt addr id paddedBuf) deviceIds |}) =
    (Ret tt,
     (emitError E addr "Failed to send message" (Some cause)
        (transmitted addr messages (Reject e)
           {| this := this s;
              trace := trace s ++
                map (fun id => Encrypt addr id paddedBuf) deviceIds |})).2) /\
    protocol_code cause = None /\
    cause = match protocol_code e with
            | Some code =>
                if code =? 404 then UnregisteredUserError addr e
                else SendMessageError addr messages e (timestamp (this s))
            | None => e
            end) as (cause & -> & Hcause & Hmap).
  { destruct e as [code response | | | | |]; cbn [after_rejection protocol_code];
      try (eexists; split_and!; reflexivity).
    cbn in H409, H410.
    destruct (Z.eqb_spec code 410) as [-> | _]; [done |].
    destruct (Z.eqb_spec code 409) as [-> | _]; [done |]. cbn [orb].
    eexists; split_and!; [reflexivity | by destruct (code =? 404) | done]. }
  match goal with |- context [emitError E addr ?reason ?c ?s0] =>
    destruct (emitError_result addr reason c s0) as [rs ->] end.
  cbv zeta. cbn [fst snd transmitted this trace push_error sent errors wrap_error].
  rewrite Hcause.
  eexists _, messages. rewrite <- !app_assoc, drop_app_length.
  observe. by split_and!.
Qed.

End FirstPhase.

(** X5 at work: devices 1 and 2, and the server accepts. *)
Lemma accepted_transmission_is_sent_once_witness :
  exists entry,
    sent (this (doSendMessage (steady [1; 2] (Resolve tt)) 1 "alice" [1; 2] true
                  (fresh 42 [Byte.x01])).2) = [entry] /\
    sent_addr entry = "alice".
Proof.
  destruct (accepted_transmission_is_sent_once
              (steady [1; 2] (Resolve tt)) 0 "alice" [1; 2] true
              (fresh 42 [Byte.x01]))
    as (entry & jsonData & _ & Hsent & Haddr & _).
  - intros t id buf _. by eexists.
  - reflexivity.
  - exists entry. split; [exact Hsent | exact Haddr].
Defined.

(** X6 at work: devices 1 and 2, and the server answers 404. *)
Lemma rejected_transmission_is_reported_witness :
  exists entry,
    errors (this (doSendMessage
                    (steady [1; 2] (Reject (ProtocolError 404 no_response)))
                    1 "alice" [1; 2] true (fresh 42 [Byte.x01])).2) = [entry] /\
    entry_error entry =
      UnregisteredUserError "alice" (ProtocolError 404 no_response).
Proof.
  destruct (rejected_transmission_is_reported
              (steady [1; 2] (Reject (ProtocolError 404 no_response)))
              0 "alice" [1; 2] true (fresh 42 [Byte.x01])
              (ProtocolError 404 no_response))
    as (entry & jsonData & _ & Herrors & _ & _ & Herror & _).
  - discriminate.
  - discriminate.
  - intros t id buf _. by eexists.
  - reflexivity.
  - exists entry. split; [exact Herrors | exact Herror].
Defined.

Section Termination.
Context {Content : Type} (E : Env Content).
Implicit Types s : St Content.

Lemma ns_ret {A} (a : A) : never_starves (mret a : Async Content A).
Proof. by intros s. Qed.

Lemma ns_throw {A} e : never_starves (@throw Content A e).
Proof. by intros s. Qed.

Lemma ns_bind {A B} (m : Async Content A) (f : A -> Async Content B) :
  never_starves m -> (forall a, never_starves (f a)) -> never_starves (m ≫= f).
Proof.
  intros Hm Hf s. rewrite bind_eq. specialize (Hm s).
  destruct (m s) as [[a | e |] s']; cbn in *; [apply Hf | done | done].
Qed.

Lemma ns_fmap {A B} (g : A -> B) (m : Async Content A) :
  never_starves m -> never_starves (g <$> m).
Proof.
  intros Hm s. rewrite fmap_eq. specialize (Hm s).
  by destruct (m s) as [[a | e |] s'].
Qed.

Lemma ns_try_catch {A} (m : Async Content A) h :
  never_starves m -> (forall e, never_starves (h e)) ->
  never_starves (try_catch m h).
Proof.
  intros Hm Hh s. rewrite try_catch_eq. specialize (Hm s).
  destruct (m s) as [[a | e |] s']; cbn in *; [done | apply Hh | done].
Qed.

Lemma ns_await {A} ev (op : list (Event Content) -> reply A) :
  never_starves (await ev op).
Proof. intros s. rewrite await_eq. by destruct (op (trace s)). Qed.

Lemma ns_for_of {A} (l : list A) (body : A -> Async Content unit) :
  (forall x, never_starves (body x)) -> never_starves (for_of l body).
Proof.
  intros Hb. induction l as [| x l IH]; [apply ns_ret |].
  cbn [for_of]. apply ns_bind; [apply Hb | by intros _].
Qed.

Lemma ns_Promise_all {A} (jobs : list (Job A)) :
  Forall ns_job jobs -> never_starves (Promise_all E jobs).
Proof.
  intros Hjobs s. unfold Promise_all. rewrite bind_eq.
  assert ((start_all jobs s).1 <> Starved /\
          forall pending, (start_all jobs s).1 = Ret pending ->
            Forall never_starves pending) as [Hstart Hpending].
  { revert s. induction Hjobs as [| job jobs Hjob _ IH]; intros s.
    { split; [done |]. by intros ? [= <-]. }
    cbn [start_all]. rewrite bind_eq. destruct (Hjob s) as [Hs Hrest].
    destruct (job s) as [[rest | e |] s1]; cbn [fst] in *; [| done | done].
    rewrite bind_eq. destruct (IH s1) as [Hs1 Hp].
    destruct (start_all jobs s1) as [[pending | e |] s2]; cbn [fst] in *;
      [| done | done].
    split; [done |]. intros ? [= <-]. constructor; auto. }
  destruct (start_all jobs s) as [[pending | e |] s1]; cbn [fst] in *;
    [| done | done].
  specialize (Hpending pending eq_refl). clear Hstart.
  generalize (length pending). intros n. revert pending Hpending s1.
  induction n as [| n IH]; intros pending Hpending s1; [done |].
  cbn [settle_all]. rewrite bind_eq. cbn [get_trace]. cbv zeta.
  destruct (pending !! _) as [rest |] eqn:Hk; [| done].
  rewrite bind_eq.
  assert (never_starves rest) as Hrest.
  { rewrite Forall_forall in Hpending.
    eapply Hpending, list_elem_of_lookup_2, Hk. }
  specialize (Hrest s1). rewrite try_catch_eq.
  destruct (rest s1) as [[a | e |] s2]; cbn [fst] in *; [| | done].
  2: { rewrite bind_eq.
       match goal with |- context [go_on E n ?p s2] =>
         pose proof (go_on_returns E n p s2) as Hleft;
         destruct (go_on E n p s2) as [[[] | ? |] ?] end;
         cbn [fst] in Hleft; done. }
  rewrite bind_eq.
  match goal with |- context [settle_all E n ?p s2] =>
    specialize (IH p (Forall_delete _ _ _ Hpending) s2);
    destruct (settle_all E n p s2) as [[? | ? |] ?] end; done.
Qed.

Lemma ns_emit event (arg : EventArg Content) : never_starves (emit event arg).
Proof.
  intros s. unfold emit. rewrite bind_eq. cbn [get_this].
  rewrite bind_eq. cbn [log]. unfold listeners_of.
  destruct (_ !! _) as [handlers |]; [| by destruct (bool_decide _)].
  match goal with |- context [run_callbacks ?h ?a ?b ?s0] =>
    destruct (run_callbacks_returns h a b s0) as [accepted ->] end.
  done.
Qed.

Lemma ns_emitError addr reason cause :
  never_starves (emitError E addr reason cause).
Proof. intros s. by rewrite emitError_returns. Qed.

Lemma ns_removeDeviceIdsForAddr addr ids :
  never_starves (removeDeviceIdsForAddr E addr ids).
Proof.
  destruct ids as [l |]; cbn; [| apply ns_throw].
  apply ns_for_of. intros id. apply ns_await.
Qed.

Lemma ns_getStaleDeviceIdsForAddr addr :
  never_starves (getStaleDeviceIdsForAddr E addr).
Proof.
  unfold getStaleDeviceIdsForAddr.
  apply ns_bind; [apply ns_await | intros deviceIds].
  destruct (length deviceIds =? 0)%nat; [apply ns_ret |].
  generalize (@nil Z). induction deviceIds as [| id ids IH]; intros acc;
    [apply ns_ret |].
  cbn [staleScan]. apply ns_bind; [apply ns_await | intros open; apply IH].
Qed.

Lemma ns_getKeysForAddr_body retry addr updateDevices reentrant :
  never_starves retry ->
  never_starves (getKeysForAddr_body E retry addr updateDevices reentrant).
Proof.
  intros Hretry.
  assert (forall response,
    never_starves (handleResult E retry addr updateDevices reentrant response))
    as Hhandle.
  { intros response. unfold handleResult.
    apply ns_bind; [| intros _; apply ns_ret].
    apply ns_Promise_all, Forall_map, Forall_forall. intros x _.
    unfold processDevice. cbv zeta.
    match goal with |- ns_job (if ?b then _ else _) => destruct b end;
      [| by intros s; split; [| intros ? [= <-]; apply ns_ret]].
    intros s. rewrite bind_eq, call_eq. split; [done |]. intros ? [= <-].
    apply ns_try_catch; [by intros s0; destruct (builder_processPreKey _ _ _ _) |].
    intros e.
    destruct (String.eqb _ _); [| apply ns_throw].
    apply ns_bind; [by intros s1 | intros o].
    destruct reentrant; cbn [negb]; [apply ns_throw |].
    apply ns_bind; [apply ns_emit | intros accepted].
    destruct accepted; cbn [negb]; [done | apply ns_throw]. }
  unfold getKeysForAddr_body. apply ns_bind; [by intros s | intros _].
  destruct updateDevices as [ids |].
  - apply ns_for_of. intros device. unfold fetchDevice.
    apply ns_try_catch.
    + apply ns_bind; [apply ns_await | done].
    + intros e.
      match goal with |- never_starves (if ?b then _ else _) => destruct b end;
        [apply ns_removeDeviceIdsForAddr | apply ns_throw].
  - apply ns_bind; [apply ns_await | done].
Qed.

Lemma ns_getKeysForAddr addr updateDevices reentrant :
  never_starves (getKeysForAddr E addr updateDevices reentrant).
Proof.
  unfold getKeysForAddr. apply ns_getKeysForAddr_body, ns_getKeysForAddr_body.
  apply ns_throw.
Qed.

Lemma ns_recover ciphers addr code response :
  never_starves (recover E ciphers addr code response).
Proof.
  unfold recover. apply ns_bind; [| intros _; apply ns_getKeysForAddr].
  destruct (code =? 409); [apply ns_removeDeviceIdsForAddr |].
  destruct (staleDevices response) as [stale |]; [| apply ns_throw].
  unfold closeStaleSessions. apply ns_bind; [| intros _; apply ns_ret].
  apply ns_Promise_all, Forall_map, Forall_forall. intros x _ s.
  destruct (ciphers !! x) as [cipher |]; [| done].
  rewrite bind_eq, call_eq. split; [done |]. intros ? [= <-] s0.
  by destruct (cipher_closeOpenSessionForDevice _ _ _ _).
Qed.

(** X7: a dispatch never rejects: whatever a collaborator throws,
    [sendToAddr] returns (unless it runs on for ever). *)
Theorem sendToAddr_never_throws fuel addr s :
  (sendToAddr E fuel addr s).1 = Ret tt \/
  (sendToAddr E fuel addr s).1 = Starved.
Proof.
  unfold sendToAddr. rewrite bind_eq, try_catch_eq.
  destruct ((Some <$> getStaleDeviceIdsForAddr E addr) s)
    as [[[updateDevices |] | e |] s1]; [| by left | | by right].
  2:{ rewrite emitError_then_ret. by left. }
  rewrite bind_eq, try_catch_eq.
  destruct ((getKeysForAddr E addr (Some updateDevices) false
             ≫= fun _ => ret true) s1) as [[[|] | e |] s2].
  2:{ by left. }
  2:{ rewrite emitError_then_ret. by left. }
  2:{ by right. }
  rewrite try_catch_eq.
  destruct (reloadDevicesAndSend E fuel addr true s2) as [[[] | e |] s3];
    [by left | | by right].
  left. apply emitError_returns.
Qed.

Lemma transmissions_app (t1 t2 : list (Event Content)) :
  transmissions (t1 ++ t2) = transmissions t1 ++ transmissions t2.
Proof. apply List.filter_app. Qed.

Lemma transmissions_control (t : list (Event Content)) :
  transmissions (control t) = transmissions t.
Proof.
  induction t as [| ev t IH]; [done |].
  unfold transmissions, control in *. cbn [List.filter].
  destruct ev; cbn [is_control is_transmission List.filter]; by rewrite ?IH.
Qed.

Lemma transmissions_quiet (t : list (Event Content)) :
  Forall quiet t -> transmissions t = [].
Proof.
  intros Hq. by rewrite <- transmissions_control, (control_quiet t Hq).
Qed.

Lemma answered_409_control (t : list (Event Content)) :
  answered_409 (control t) = answered_409 t.
Proof.
  induction t as [| ev t IH]; [done |].
  unfold answered_409, control in *. cbn [List.filter].
  destruct ev; cbn [is_control is_409 List.filter]; by rewrite ?IH.
Qed.

(** Only an answer 409 lets a call of [doSendMessage] transmit more than
    twice (once, when it may not recurse). *)
Lemma dispatch_run_transmissions addr (message : Content) timestamp recurse c es :
  dispatch_run addr message timestamp recurse c es ->
  (length (transmissions c) <=
   (if recurse then 2 else 1) + length (answered_409 c))%nat.
Proof.
  induction 1 as [recurse es | recurse jsonData ts answer es _
                  | jsonData ts code response c es es' _ IH _].
  - cbn. lia.
  - cbn [transmissions List.filter is_transmission length].
    destruct recurse; lia.
  - unfold transmissions, answered_409 in *.
    cbn [List.filter is_transmission is_409 length].
    destruct (code =? 409); cbn [length] in *; lia.
Qed.

(** X8: a dispatch transmits at most twice more than the server answers
    409: only an answer 409 lets the dispatch go on recursing. *)
Theorem transmissions_bounded_by_409_answers fuel addr s :
  (length (transmissions (recorded (sendToAddr E fuel addr) s)) <=
   2 + length (answered_409 (recorded (sendToAddr E fuel addr) s)))%nat.
Proof.
  destruct (sendToAddr_run E fuel addr s) as (t & es & Ht & _ & Hshape).
  unfold recorded. rewrite Ht, drop_app_length.
  rewrite <- (transmissions_control t), <- (answered_409_control t).
  destruct Hshape as [-> | (c & es0 & -> & Hrun & _)]; [cbn; lia |].
  apply dispatch_run_transmissions in Hrun.
  unfold transmissions, answered_409 in *.
  cbn [List.filter is_transmission is_409]. lia.
Qed.

(** A call that may not recurse returns. *)
Lemma doSendMessage_last_try fuel addr deviceIds s :
  (doSendMessage E (S fuel) addr deviceIds false s).1 = Ret tt.
Proof.
  destruct (padMessage (Content_encode E (message (this s))))
    as [paddedBuf |] eqn:Hpad; [| by rewrite padMessage_eq in Hpad].
  destruct (encryptAll_outcome E addr deviceIds paddedBuf s) as [_ Hout].
  destruct (encryptAll E addr deviceIds paddedBuf s)
    as [[messages | e |] s1] eqn:Henc; cbn [fst] in Hout; [| | done].
  2:{ by rewrite (doSendMessage_not_encrypted E _ _ _ _ _ _ _ _ Hpad Henc). }
  rewrite (doSendMessage_encrypted E _ _ _ _ _ _ _ _ Hpad Henc). cbv zeta.
  destruct (signal_sendMessages E _ _ _ _) as [[] | e];
    [apply emitSent_returns |].
  destruct e as [code response | | | | |]; cbn [after_rejection]; try done.
  by destruct (_ || _).
Qed.

(** A call that may recurse returns or throws, unless the server answers
    409. *)
Lemma doSendMessage_without_409 fuel addr deviceIds recurse s :
  (forall t a jsonData ts response,
     signal_sendMessages E t a jsonData ts <> Reject (ProtocolError 409 response)) ->
  (doSendMessage E (S (S fuel)) addr deviceIds recurse s).1 <> Starved.
Proof.
  intros H409.
  destruct recurse; [| by rewrite doSendMessage_last_try].
  destruct (padMessage (Content_encode E (message (this s))))
    as [paddedBuf |] eqn:Hpad; [| by rewrite padMessage_eq in Hpad].
  destruct (encryptAll_outcome E addr deviceIds paddedBuf s) as [_ Hout].
  destruct (encryptAll E addr deviceIds paddedBuf s)
    as [[messages | e |] s1] eqn:Henc; cbn [fst] in Hout; [| | done].
  2:{ by rewrite (doSendMessage_not_encrypted E _ _ _ _ _ _ _ _ Hpad Henc). }
  rewrite (doSendMessage_encrypted E _ _ _ _ _ _ _ _ Hpad Henc). cbv zeta.
  destruct (signal_sendMessages E _ _ _ _) as [[] | e] eqn:Hanswer;
    [by rewrite emitSent_returns |].
  destruct e as [code response | | | | |]; cbn [after_rejection]; try done.
  destruct (Z.eqb_spec code 409) as [-> | H9]; [by apply H409 in Hanswer |].
  rewrite orb_false_r. destruct (code =? 410); [| done].
  match goal with |- context [recover E ?c ?a ?k ?r ?st] =>
    pose proof (ns_recover c a k r st) as Hrec;
    destruct (recover E c a k r st) as [[[] | e' |] s2]; cbn [fst] in Hrec;
      [| done | done]
  end.
  rewrite reloadDevicesAndSend_eq. cbv zeta.
  destruct (storage_getDeviceIds E _ _) as [deviceIds' | e']; [| done].
  match goal with |- context [doSendMessage E (S fuel) ?a ?ids false ?st] =>
    pose proof (doSendMessage_last_try fuel a ids st) as Hlast;
    destruct (doSendMessage E (S fuel) a ids false st) as [[[] | ? |] s3];
      cbn [fst] in Hlast; try done
  end.
  by rewrite emitSent_returns.
Qed.

(** X9: when the server never answers 409, a dispatch comes to its end
    within two nested calls of [doSendMessage], and returns. *)
Theorem dispatch_without_409_returns fuel addr s :
  (forall t a jsonData ts response,
     signal_sendMessages E t a jsonData ts <> Reject (ProtocolError 409 response)) ->
  (sendToAddr E (S (S fuel)) addr s).1 = Ret tt.
Proof.
  intros H409.
  destruct (sendToAddr_never_throws (S (S fuel)) addr s) as [Hr | Hstarved];
    [done | exfalso].
  revert Hstarved. unfold sendToAddr. rewrite bind_eq, try_catch_eq, fmap_eq.
  pose proof (ns_getStaleDeviceIdsForAddr addr s) as H1.
  destruct (getStaleDeviceIdsForAddr E addr s) as [[updateDevices | e |] s1];
    cbn [fst] in H1; [| | done].
  2:{ by rewrite emitError_then_ret. }
  rewrite bind_eq, try_catch_eq, bind_eq.
  pose proof (ns_getKeysForAddr addr (Some updateDevices) false s1) as H2.
  destruct (getKeysForAddr E addr (Some updateDevices) false s1)
    as [[[] | e |] s2]; cbn [fst] in H2; [| | done].
  2:{ by rewrite emitError_then_ret. }
  cbn [ret]. rewrite try_catch_eq, reloadDevicesAndSend_eq. cbv zeta.
  destruct (storage_getDeviceIds E _ _) as [deviceIds | e].
  2:{ by rewrite emitError_returns. }
  match goal with |- context [doSendMessage E ?n ?a ?ids ?b ?st] =>
    pose proof (doSendMessage_without_409 fuel a ids b st H409) as H3;
    destruct (doSendMessage E n a ids b st) as [[[] | e |] s3];
      cbn [fst] in H3; try done
  end.
  by rewrite emitError_returns.
Qed.

Section Persistent409.

Variables (addr : string) (response : Response) (extra : list Z).
Hypothesis Hextra : extraDevices response = Some extra.
Hypothesis Hmissing : missingDevices response = Some [].
Hypothesis Hserver : forall t jsonData ts,
  signal_sendMessages E t addr jsonData ts = Reject (ProtocolError 409 response).
Hypothesis Hremove : forall t a, storage_removeSession E t a = Resolve tt.
Hypothesis Hdevices : forall t, exists ids, storage_getDeviceIds E t addr = Resolve ids.
Hypothesis Hopen : forall t id, cipher_hasOpenSession E t addr id = Resolve true.
Hypothesis Hciphers : forall t id buf,
  exists enc, cipher_encrypt E t addr id buf = Resolve enc.

Lemma removeDeviceIdsForAddr_done ids s :
  (removeDeviceIdsForAddr E addr (Some ids) s).1 = Ret tt.
Proof.
  revert s. induction ids as [| id ids IH]; intros s; [done |].
  cbn [removeDeviceIdsForAddr] in *. rewrite for_of_cons, await_eq, Hremove.
  apply IH.
Qed.

Lemma getKeysForAddr_nothing_to_fetch reentrant s :
  (getKeysForAddr E addr (Some []) reentrant s).1 = Ret tt.
Proof. reflexivity. Qed.

Lemma recover_409_done ciphers s :
  (recover E ciphers addr 409 response s).1 = Ret tt.
Proof.
  unfold recover. rewrite bind_eq. cbn [Z.eqb Pos.eqb].
  rewrite Hextra, Hmissing.
  pose proof (removeDeviceIdsForAddr_done extra s) as Hr.
  destruct (removeDeviceIdsForAddr E addr (Some extra) s) as [[[] | e |] s1];
    cbn [fst] in Hr; try done.
Qed.

Lemma staleScan_all_open ids acc s :
  (staleScan E addr ids acc s).1 = Ret acc.
Proof.
  revert acc s. induction ids as [| id ids IH]; intros acc s; [done |].
  cbn [staleScan]. rewrite bind_eq, await_eq, Hopen. cbn [negb]. apply IH.
Qed.

Lemma getStaleDeviceIdsForAddr_all_open s :
  (getStaleDeviceIdsForAddr E addr s).1 = Ret [].
Proof.
  unfold getStaleDeviceIdsForAddr. rewrite bind_eq, await_eq.
  destruct (Hdevices (trace s)) as [ids ->].
  destruct (length ids =? 0)%nat; [done | apply staleScan_all_open].
Qed.

Lemma doSendMessage_persistent_409 fuel deviceIds s :
  exists t,
    doSendMessage E fuel addr deviceIds true s =
      (Starved, {| this := this s; trace := trace s ++ t |}) /\
    length (transmissions t) = fuel.
Proof.
  revert deviceIds s. induction fuel as [| fuel IH]; intros deviceIds s.
  { exists []. cbn. rewrite app_nil_r. by destruct s. }
  destruct (padMessage (Content_encode E (message (this s))))
    as [paddedBuf |] eqn:Hpad; [| by rewrite padMessage_eq in Hpad].
  destruct (encryptAll_resolved E addr deviceIds paddedBuf s)
    as (messages & Henc & _); [by intros t id _ |].
  rewrite (doSendMessage_encrypted E _ _ _ _ _ _ _ _ Hpad Henc). cbv zeta.
  rewrite Hserver. cbn [after_rejection Z.eqb Pos.eqb orb].
  match goal with |- context [recover E ?c addr 409 response ?st] =>
    pose proof (recover_409_done c st) as Hrec;
    destruct (recover_quiet E addr deviceIds 409 response st)
      as (Hthis2 & t2 & Ht2 & Hq2);
    destruct (recover E c addr 409 response st) as [[[] | e' |] s2];
      cbn [fst snd] in Hrec, Hthis2, Ht2; try done
  end.
  rewrite reloadDevicesAndSend_eq. cbv zeta.
  destruct (Hdevices (trace s2 ++ [Enter_reloadDevicesAndSend addr true]))
    as [deviceIds' ->].
  match goal with |- context [doSendMessage E fuel addr deviceIds' true ?st] =>
    destruct (IH deviceIds' st) as (t3 & -> & Hn) end.
  cbn [this trace transmitted] in *.
  eexists (map (fun id => Encrypt addr id paddedBuf) deviceIds ++
           SendMessages addr messages (timestamp (this s))
             (Reject (ProtocolError 409 response)) :: t2 ++
           Enter_reloadDevicesAndSend addr true :: GetDeviceIds addr :: t3).
  split.
  - rewrite Hthis2, Ht2. by rewrite <- !app_assoc.
  - rewrite transmissions_app, (transmissions_quiet (map _ _)).
    2:{ apply Forall_map, Forall_forall. by intros. }
    cbn [app]. unfold transmissions at 1. cbn [List.filter is_transmission].
    fold (transmissions (t2 ++ Enter_reloadDevicesAndSend addr true
                           :: GetDeviceIds addr :: t3)).
    rewrite transmissions_app, (transmissions_quiet t2 Hq2). cbn [app].
    unfold transmissions at 1. cbn [List.filter is_transmission length].
    fold (transmissions t3). by rewrite Hn.
Qed.

(** X10: there is no limit on 409.  When the server answers every
    transmission to [addr] with a 409 that names no missing device, and the
    stores and ciphers work, the dispatch never comes to an end: cut after
    any number [fuel] of nested calls of [doSendMessage], it is still
    running and has transmitted [fuel] times. *)
Theorem persistent_409_never_ends fuel s :
  (sendToAddr E fuel addr s).1 = Starved /\
  length (transmissions (recorded (sendToAddr E fuel addr) s)) = fuel.
Proof.
  unfold recorded, sendToAddr. rewrite bind_eq, try_catch_eq, fmap_eq.
  pose proof (getStaleDeviceIdsForAddr_all_open s) as H1.
  destruct (getStaleDeviceIdsForAddr_quiet E addr s) as (_ & t1 & Ht1 & Hq1).
  destruct (getStaleDeviceIdsForAddr E addr s) as [[updateDevices | e |] s1];
    cbn [fst snd] in H1, Ht1; try done.
  injection H1 as ->.
  rewrite bind_eq, try_catch_eq, bind_eq.
  pose proof (getKeysForAddr_nothing_to_fetch false s1) as H2.
  destruct (getKeysForAddr_quiet E addr (Some []) false s1)
    as (_ & t2 & Ht2 & Hq2).
  destruct (getKeysForAddr E addr (Some []) false s1) as [[[] | e |] s2];
    cbn [fst snd] in H2, Ht2; try done.
  cbn [ret]. rewrite try_catch_eq, reloadDevicesAndSend_eq. cbv zeta.
  destruct (Hdevices (trace s2 ++ [Enter_reloadDevicesAndSend addr true]))
    as [deviceIds ->].
  match goal with |- context [doSendMessage E fuel addr deviceIds true ?st] =>
    destruct (doSendMessage_persistent_409 fuel deviceIds st) as (t3 & -> & Hn)
  end.
  cbn [fst snd this trace]. split; [done |].
  rewrite Ht2, Ht1, <- !app_assoc, drop_app_length. cbn [app].
  rewrite !transmissions_app, (transmissions_quiet t1 Hq1),
    (transmissions_quiet t2 Hq2).
  cbn [app]. unfold transmissions at 1. cbn [List.filter is_transmission].
  by fold (transmissions t3).
Qed.

End Persistent409.

End Termination.

(** X9 at work: the server answers every transmission with 410. *)
Lemma dispatch_without_409_returns_witness :
  (sendToAddr (steady [1; 2] (Reject (answer_410 [2]))) 2 "alice"
     (fresh 42 [Byte.x01])).1 = Ret tt.
Proof.
  apply (dispatch_without_409_returns
           (steady [1; 2] (Reject (answer_410 [2]))) 0 "alice"
           (fresh 42 [Byte.x01])).
  intros t a jsonData ts response. discriminate.
Defined.

(** X10 at work: the server answers every transmission with 409. *)
Lemma persistent_409_never_ends_witness :
  (sendToAddr (steady [1; 2] (Reject (answer_409 [] []))) 5 "alice"
     (fresh 42 [Byte.x01])).1 = Starved /\
  length (transmissions
            (recorded (sendToAddr (steady [1; 2] (Reject (answer_409 [] [])))
                         5 "alice") (fresh 42 [Byte.x01]))) = 5%nat.
Proof.
  apply (persistent_409_never_ends
           (steady [1; 2] (Reject (answer_409 [] []))) "alice"
           {| extraDevices := Some []; missingDevices := Some [];
              staleDevices := None |} []);
    try reflexivity.
  - intros t. by eexists.
  - intros t id buf. by eexists.
Defined.

Section Stages.
Context {Content : Type} (E : Env Content).
Implicit Types s : St Content.

Lemma staleScan_steady addr ids (open : Z -> bool) acc s :
  (forall t id, id ∈ ids -> cipher_hasOpenSession E t addr id = Resolve (open id)) ->
  staleScan E addr ids acc s =
  (Ret (acc ++ List.filter (fun id => negb (open id)) ids),
   {| this := this s;
      trace := trace s ++ map (fun id => HasOpenSession addr id) ids |}).
Proof.
  revert acc s. induction ids as [| id ids IH]; intros acc s Hopen.
  { cbn. rewrite !app_nil_r. by destruct s. }
  cbn [staleScan]. rewrite bind_eq, await_eq, Hopen by left.
  rewrite IH by (intros t id' Hid; apply Hopen; by right).
  cbn [this trace map List.filter]. rewrite <- !app_assoc. cbn [app].
  destruct (open id); cbn [negb]; [done |]. by rewrite <- app_assoc.
Qed.

(** X11: [getStaleDeviceIdsForAddr] asks for the devices of [addr] once,
    then asks every device's cipher, in order, whether it has an open
    session, and returns the devices that have none, in that order; with no
    device it returns the empty list without asking a cipher. *)
Theorem getStaleDeviceIdsForAddr_lists_closed_sessions
    addr ids (open : Z -> bool) s :
  storage_getDeviceIds E (trace s) addr = Resolve ids ->
  (forall t id, id ∈ ids -> cipher_hasOpenSession E t addr id = Resolve (open id)) ->
  getStaleDeviceIdsForAddr E addr s =
  (Ret (List.filter (fun id => negb (open id)) ids),
   {| this := this s;
      trace := trace s ++ GetDeviceIds addr ::
               map (fun id => HasOpenSession addr id) ids |}).
Proof.
  intros Hids Hopen. unfold getStaleDeviceIdsForAddr.
  rewrite bind_eq, await_eq, Hids.
  destruct ids as [| id ids]; [done |].
  cbn [length Nat.eqb]. rewrite (staleScan_steady addr (id :: ids) open) by done.
  cbn [this trace app]. by rewrite <- app_assoc.
Qed.

(** X12: when the device list of [addr] cannot be read, the dispatch
    records one error, with the reason "Failed to get device ids for
    address " followed by the address, and returns: no key server, cipher
    or message server is asked. *)
Theorem sendToAddr_without_device_list fuel addr e s :
  storage_getDeviceIds E (trace s) addr = Reject e ->
  exists entry rs,
    sendToAddr E fuel addr s =
      (Ret tt,
       {| this := push_error entry (this s);
          trace := trace s ++
            GetDeviceIds addr :: Emit "error" (ArgError entry) :: consoles rs |}) /\
    error_addr entry = addr /\
    error_reason entry = "Failed to get device ids for address " +:+ addr /\
    entry_error entry = wrap_error (this s) addr (Some e).
Proof.
  intros Hids. unfold sendToAddr, getStaleDeviceIdsForAddr.
  rewrite bind_eq, try_catch_eq, fmap_eq, bind_eq, await_eq, Hids.
  rewrite bind_eq.
  match goal with |- context [emitError E addr ?reason ?c ?s0] =>
    destruct (emitError_result E addr reason c s0) as [rs ->] end.
  cbv zeta. cbn [this trace]. eexists _, rs.
  rewrite <- app_assoc. cbn [app]. by split_and!.
Qed.

End Stages.

(** X11 at work: devices 1 and 2 both have an open session. *)
Lemma getStaleDeviceIdsForAddr_lists_closed_sessions_witness :
  (getStaleDeviceIdsForAddr (scripted (script_ok [1; 2])) "alice"
     (fresh 42 [Byte.x01])).1 = Ret [].
Proof.
  by rewrite (getStaleDeviceIdsForAddr_lists_closed_sessions
                (scripted (script_ok [1; 2])) "alice" [1; 2] (fun _ => true)
                (fresh 42 [Byte.x01]) eq_refl (fun t id _ => eq_refl)).
Defined.

(** X12 at work: the session store is locked. *)
Lemma sendToAddr_without_device_list_witness :
  map error_reason
    (errors (this (sendToAddr (unreadable (JsError "Error" "locked")) 3 "alice"
                     (fresh 42 [Byte.x01])).2)) =
  ["Failed to get device ids for address alice"].
Proof.
  destruct (sendToAddr_without_device_list
              (unreadable (JsError "Error" "locked")) 3 "alice"
              (JsError "Error" "locked") (fresh 42 [Byte.x01]) eq_refl)
    as (entry & rs & -> & _ & Hreason & _).
  cbn. by rewrite Hreason.
Defined.

Section MissingLists.
Context {Content : Type} (E : Env Content).
Implicit Types s : St Content.

(** X13: the recovery reads the device lists off the answer.  After a 409
    without [extraDevices] or a 410 without [staleDevices],
    [doSendMessage] throws a TypeError right after the transmission: no
    session is touched, no key is fetched, no error entry is written and
    nothing is retried. *)
Theorem recovery_needs_the_device_lists
    fuel addr deviceIds code response s :
  (forall t id buf, id ∈ deviceIds ->
     exists enc, cipher_encrypt E t addr id buf = Resolve enc) ->
  (forall t jsonData,
     signal_sendMessages E t addr jsonData (timestamp (this s)) =
     Reject (ProtocolError code response)) ->
  (code = 409 /\ extraDevices response = None) \/
  (code = 410 /\ staleDevices response = None) ->
  exists paddedBuf jsonData text,
    padMessage (Content_encode E (message (this s))) = Some paddedBuf /\
    doSendMessage E (S fuel) addr deviceIds true s =
      (Throw (TypeError text),
       {| this := this s;
          trace := trace s ++
            map (fun id => Encrypt addr id paddedBuf) deviceIds ++
            [SendMessages addr jsonData (timestamp (this s))
               (Reject (ProtocolError code response))] |}).
Proof.
  intros Hciphers Hserver Hmissing.
  destruct (padMessage (Content_encode E (message (this s))))
    as [paddedBuf |] eqn:Hpad; [| by rewrite padMessage_eq in Hpad].
  destruct (encryptAll_resolved E addr deviceIds paddedBuf s)
    as (messages & Henc & Hlen); [by auto |].
  rewrite (doSendMessage_encrypted E _ _ _ _ _ _ _ _ Hpad Henc). cbv zeta.
  cbn [this trace]. rewrite Hserver.
  exists paddedBuf, messages.
  destruct Hmissing as [[-> Hnone] | [-> Hnone]];
    cbn [after_rejection Z.eqb Pos.eqb orb]; unfold recover;
    rewrite bind_eq; cbn [Z.eqb Pos.eqb]; rewrite Hnone;
    cbn [removeDeviceIdsForAddr throw transmitted this trace].
  all: eexists; (split; [reflexivity |]).
  all: unfold transmitted; cbn [this trace]; by rewrite <- app_assoc.
Qed.

End MissingLists.

(** X13 at work: a 409 that carries no device list. *)
Lemma recovery_needs_the_device_lists_witness :
  exists text,
    (doSendMessage (steady [1; 2] (Reject (ProtocolError 409 no_response)))
       1 "alice" [1; 2] true (fresh 42 [Byte.x01])).1 =
    Throw (TypeError text).
Proof.
  destruct (recovery_needs_the_device_lists
              (steady [1; 2] (Reject (ProtocolError 409 no_response)))
              0 "alice" [1; 2] 409 no_response (fresh 42 [Byte.x01]))
    as (paddedBuf & jsonData & text & _ & Hthrown).
  - intros t id buf _. by eexists.
  - reflexivity.
  - by left.
  - exists text. by rewrite Hthrown.
Defined.

Section Requested.
Context {Content : Type} (E : Env Content).
Implicit Types s : St Content.

(** X15: [getKeysForAddr] with an explicit list of devices fetches keys
    and builds sessions for devices of that list only (a device that the
    server's answer holds besides is passed over), removes sessions only of
    devices of the list other than device 1, prompts only when it is not
    reentrant, encrypts and transmits nothing, and leaves the object as it
    was. *)
Theorem getKeysForAddr_touches_requested_devices_only addr ids reentrant s :
  this (getKeysForAddr E addr (Some ids) reentrant s).2 = this s /\
  Forall (fun ev =>
            match ev with
            | Enter_getKeysForAddr a updateDevices _ =>
                a = addr /\ updateDevices = Some ids
            | FetchKeys a device =>
                a = addr /\ exists id, device = Some id /\ id ∈ ids
            | ProcessPreKey a id => a = addr /\ id ∈ ids
            | RemoveSession encoded =>
                exists id, id ∈ ids /\ id <> 1 /\ encoded = encodedAddr addr id
            | Emit name _ => name = "keychange" /\ reentrant = false
            | ConsoleError _ => reentrant = false
            | _ => False
            end)
         (recorded (getKeysForAddr E addr (Some ids) reentrant) s).
Proof.
  assert (preserves (untouched (requested addr ids reentrant))
            (getKeysForAddr E addr (Some ids) reentrant)) as Hkeys.
  { unfold getKeysForAddr.
    apply (preserves_getKeysForAddr_body_of E
             (untouched (requested addr ids reentrant))
             (requested addr ids reentrant)
             (untouched_refl _) (untouched_trans _)
             (fun ev s0 H => untouched_log _ ev s0 H)); try done.
    - intros _.
      apply (preserves_getKeysForAddr_body_of E
               (untouched (requested addr ids reentrant))
               (requested addr ids reentrant)
               (untouched_refl _) (untouched_trans _)
               (fun ev s0 H => untouched_log _ ev s0 H)); try done.
      + cbn. eauto.
      + cbn. eauto.
    - cbn. eauto.
    - cbn. eauto.
    - intros Hre e. done. }
  destruct (Hkeys s) as [Hthis Hx]. split; [done |].
  by apply extends_recorded in Hx.
Qed.

End Requested.

Section Preparation.
Context {Content : Type} (E : Env Content).
Implicit Types s : St Content.

Lemma getStaleDeviceIdsForAddr_preparing addr s :
  untouched preparing s (getStaleDeviceIdsForAddr E addr s).2.
Proof.
  by apply (preserves_getStaleDeviceIdsForAddr E (untouched preparing) preparing
              (untouched_refl _) (untouched_trans _)
              (fun ev s0 H => untouched_log _ ev s0 H)).
Qed.

Lemma getKeysForAddr_preparing addr updateDevices reentrant s :
  untouched preparing s (getKeysForAddr E addr updateDevices reentrant s).2.
Proof.
  apply (preserves_getKeysForAddr E (untouched preparing) preparing
           (untouched_refl _) (untouched_trans _)
           (fun ev s0 H => untouched_log _ ev s0 H)); done.
Qed.

(** The scan for stale sessions starts by reading the device list. *)
Lemma getStaleDeviceIdsForAddr_starts addr s :
  exists t,
    recorded (getStaleDeviceIdsForAddr E addr) s = GetDeviceIds addr :: t.
Proof.
  unfold recorded, getStaleDeviceIdsForAddr. rewrite bind_eq, await_eq.
  set (s1 := {| this := this s; trace := _ |}).
  destruct (storage_getDeviceIds E (trace s) addr) as [deviceIds | e].
  2:{ exists []. cbn. by rewrite drop_app_length. }
  destruct (length deviceIds =? 0)%nat.
  { exists []. cbn. by rewrite drop_app_length. }
  destruct (preserves_staleScan E (extends any_event) any_event
              (extends_refl _) (extends_trans _)
              (fun ev s0 H => extends_log _ ev s0 H) addr deviceIds []
              ltac:(done) s1) as (t & Ht & _).
  exists t. rewrite Ht. cbn [s1 trace].
  by rewrite <- app_assoc, drop_app_length.
Qed.

(** X14: a dispatch starts with the scan for stale sessions
    ([getStaleDeviceIdsForAddr], which starts by reading the device list)
    and goes on with the retrieval of their keys ([getKeysForAddr] for the
    devices the scan returned, not reentrant).  Neither step encrypts,
    transmits or enters [reloadDevicesAndSend].  When the scan throws, the
    dispatch records exactly one error, what the scan threw under the
    reason "Failed to get device ids for address" and the address, and
    returns without doing anything else; when the retrieval throws, it
    does the same under the reason "Failed to retrieve new device keys for
    address"; [sent] stays as it was.  When both steps return, the next
    step is the entry into [reloadDevicesAndSend] with [recurse = true]. *)
Theorem nothing_is_sent_before_the_keys_are_there fuel addr s :
  let r := sendToAddr E fuel addr s in
  let failed reason e (s' : St Content) :=
    exists entry rs,
      r = (Ret tt,
           {| this := push_error entry (this s);
              trace := trace s' ++ Emit "error" (ArgError entry) :: consoles rs |}) /\
      error_reason entry = reason +:+ addr /\
      error_addr entry = addr /\
      entry_error entry = wrap_error (this s) addr (Some e) in
  Forall preparing (recorded (getStaleDeviceIdsForAddr E addr) s) /\
  (exists t,
     recorded (getStaleDeviceIdsForAddr E addr) s = GetDeviceIds addr :: t) /\
  match getStaleDeviceIdsForAddr E addr s with
  | (Throw e, s1) => failed "Failed to get device ids for address " e s1
  | (Ret updateDevices, s1) =>
      Forall preparing
        (recorded (getKeysForAddr E addr (Some updateDevices) false) s1) /\
      (exists t,
         recorded (getKeysForAddr E addr (Some updateDevices) false) s1 =
         Enter_getKeysForAddr addr (Some updateDevices) false :: t) /\
      match getKeysForAddr E addr (Some updateDevices) false s1 with
      | (Throw e, s2) =>
          failed "Failed to retrieve new device keys for address " e s2
      | (Ret _, s2) =>
          this s2 = this s /\
          exists t,
            trace r.2 = trace s2 ++ Enter_reloadDevicesAndSend addr true :: t
      | (Starved, _) => False
      end
  | (Starved, _) => False
  end.
Proof.
  intros r failed.
  destruct (getStaleDeviceIdsForAddr_preparing addr s) as (Hthis1 & Hx1).
  split; [by apply extends_recorded |].
  split; [apply getStaleDeviceIdsForAddr_starts |].
  pose proof (ns_getStaleDeviceIdsForAddr E addr s) as H1.
  subst r failed. unfold sendToAddr.
  rewrite bind_eq, try_catch_eq, fmap_eq.
  destruct (getStaleDeviceIdsForAddr E addr s) as [[updateDevices | e |] s1];
    cbn [fst snd] in H1, Hthis1; [| | done].
  2:{ rewrite bind_eq.
      match goal with |- context [emitError E addr ?reason ?c ?s0] =>
        destruct (emitError_result E addr reason c s0) as [rs ->] end.
      cbv zeta. cbn [ret]. rewrite Hthis1. eexists _, rs. by split_and!. }
  destruct (getKeysForAddr_preparing addr (Some updateDevices) false s1)
    as (Hthis2 & Hx2).
  split; [by apply extends_recorded |].
  split.
  { destruct (getKeysForAddr_enters E addr (Some updateDevices) false s1)
      as [t Ht].
    exists t. unfold recorded. by rewrite Ht, drop_app_length. }
  rewrite bind_eq, try_catch_eq, bind_eq.
  pose proof (ns_getKeysForAddr E addr (Some updateDevices) false s1) as H2.
  destruct (getKeysForAddr E addr (Some updateDevices) false s1)
    as [[[] | e |] s2]; cbn [fst snd] in H2, Hthis2; [| | done].
  2:{ rewrite bind_eq.
      match goal with |- context [emitError E addr ?reason ?c ?s0] =>
        destruct (emitError_result E addr reason c s0) as [rs ->] end.
      cbv zeta. cbn [ret]. rewrite Hthis2, Hthis1. eexists _, rs.
      by split_and!. }
  split; [congruence |].
  cbn [ret]. rewrite try_catch_eq.
  destruct (reloadDevicesAndSend_enters E fuel addr true s2)
    as (_ & t3 & Ht3).
  destruct (reloadDevicesAndSend E fuel addr true s2) as [[[] | e |] s3];
    cbn [fst snd] in *; try by eexists.
  destruct (emitError_effect E addr ("Failed to send to address " +:+ addr)
              (Some e) s3) as (t4 & Ht4 & _).
  eexists. rewrite Ht4, Ht3, <- !app_assoc. cbn [app]. reflexivity.
Qed.

End Preparation.

(** * Properties of the localStorage adapter *)

Section Strings.

Import Stdlib.Strings.Ascii.

Lemma split_cons sep s : exists piece pieces, Backbone.split sep s = piece :: pieces.
Proof.
  induction s as [| c s (piece & pieces & IH)]; cbn; [by eexists _, _ |].
  destruct (Ascii.eqb c sep); [by eexists _, _ |].
  rewrite IH. by eexists _, _.
Qed.

Lemma append_cons c s r : String c s +:+ r = String c (s +:+ r).
Proof. reflexivity. Qed.

Lemma append_nil r : "" +:+ r = r.
Proof. reflexivity. Qed.

Lemma split_app sep s r :
  Backbone.split sep (s +:+ String sep r) =
  Backbone.split sep s ++ Backbone.split sep r.
Proof.
  induction s as [| c s IH].
  { rewrite append_nil. cbn. by rewrite Ascii.eqb_refl. }
  rewrite append_cons. cbn [Backbone.split].
  rewrite IH. destruct (Ascii.eqb c sep); [done |].
  by destruct (split_cons sep s) as (piece & pieces & ->).
Qed.

Lemma split_join array :
  array <> [] ->
  Backbone.split "," (Backbone.join "," array) =
  flat_map (Backbone.split ",") array.
Proof.
  induction array as [| x array IH]; [done | intros _].
  destruct array as [| y array].
  { cbn. by rewrite app_nil_r. }
  change (Backbone.join "," (x :: y :: array))
    with (x +:+ String "," (Backbone.join "," (y :: array))).
  rewrite split_app, IH by done. done.
Qed.

Lemma split_comma_free s :
  comma_free s = true -> Backbone.split "," s = [s].
Proof.
  induction s as [| c s IH]; [done |]. cbn [comma_free Backbone.split].
  intros [Hc Hs]%andb_prop. rewrite (IH Hs).
  destruct (Ascii.eqb_spec c ",") as [-> | _]; [done | done].
Qed.

Lemma join_empty array :
  Forall (fun s => comma_free s = true) array ->
  Backbone.join "," array = "" -> array = [] \/ array = [""].
Proof.
  intros Hfree Hj. destruct array as [| x [| y array]]; [by left | |].
  - cbn in Hj. subst x. by right.
  - exfalso.
    change (Backbone.join "," (x :: y :: array))
      with (x +:+ String "," (Backbone.join "," (y :: array))) in Hj.
    by destruct x.
Qed.

End Strings.

Section Store.

Import Stdlib.Strings.Ascii.
Import Backbone.
Context (H : Host).
Implicit Types w : World.

Lemma js_bind_eq {A B} (m : Js A) (f : A -> Js B) w :
  (m ≫= f) w =
  match m w with
  | (Returned a, w') => f a w'
  | (Thrown e, w') => (Thrown e, w')
  end.
Proof. reflexivity. Qed.

Ltac js_run Hs :=
  repeat first
    [ rewrite js_bind_eq
    | progress cbn [mret Js_ret ret getItem setItem removeItem put_store lift
                    throw call items stores drawn called name serializer
                    records fst snd]
    | progress unfold get_store, set_records, push_record
    | rewrite lookup_insert_eq
    | rewrite Hs ].

Lemma get_store_eq this store w :
  stores w !! this = Some store -> get_store this w = (Returned store, w).
Proof. intros Hs. unfold get_store. by rewrite Hs. Qed.

Lemma save_eq this store w :
  stores w !! this = Some store ->
  save this w =
  (Returned tt,
   {| items := <[name store := join "," (records store)]> (items w);
      stores := stores w; drawn := drawn w; called := called w |}).
Proof.
  intros Hs. unfold save. by rewrite js_bind_eq, (get_store_eq _ _ _ Hs).
Qed.

Lemma LocalStorage_eq this name serializer w :
  LocalStorage H this name serializer w =
  (Returned tt,
   {| items := items w;
      stores :=
        <[this := {| name := name;
                     serializer := default (default_serializer H) serializer;
                     records := match items w !! name with
                                | Some text =>
                                    if String.eqb text "" then []
                                    else split "," text
                                | None => []
                                end |}]> (stores w);
      drawn := drawn w; called := called w |}).
Proof. reflexivity. Qed.

(** What a new store reads back from what [save] wrote: every record,
    cut at its commas. *)
Lemma reload_records this that store serializer w :
  stores w !! this = Some store ->
  records_at that
    (LocalStorage H that (name store) serializer (save this w).2).2 =
  if String.eqb (join "," (records store)) "" then []
  else flat_map (split ",") (records store).
Proof.
  intros Hs. rewrite (save_eq _ _ _ Hs), LocalStorage_eq.
  unfold records_at, store_at. cbn [snd items stores].
  rewrite !lookup_insert_eq. cbn [records].
  destruct (String.eqb_spec (join "," (records store)) "") as [He | Hne];
    [done |].
  apply split_join. intros Hnil. by rewrite Hnil in Hne.
Qed.

(** X16: what [save] writes, a new store of the same name reads back:
    the same records, provided that no record holds a comma and that the
    records are not the one empty id. *)
Theorem saved_records_are_read_back this that store serializer w :
  stores w !! this = Some store ->
  Forall (fun id => comma_free id = true) (records store) ->
  records store <> [""] ->
  records_at that
    (LocalStorage H that (name store) serializer (save this w).2).2 =
  records store.
Proof.
  intros Hs Hfree Hne. rewrite (reload_records _ _ _ _ _ Hs).
  destruct (String.eqb_spec (join "," (records store)) "") as [He | _].
  - destruct (join_empty _ Hfree He) as [Hl | Hl]; [by rewrite Hl | done].
  - clear Hne. induction Hfree as [| id ids Hid _ IH]; [done |].
    cbn [flat_map]. by rewrite (split_comma_free _ Hid), IH.
Qed.

Lemma itemName_not_name store id : _itemName H store id <> name store.
Proof.
  unfold _itemName. generalize (Id_concat H id). intros r.
  induction (name store) as [| c s IH]; [done |].
  rewrite append_cons. intros [= Heq]. by apply IH.
Qed.

Lemma guid_eq w :
  guid H w =
  (Returned (guid_from H (drawn w)),
   {| items := items w; stores := stores w; drawn := 8 + drawn w;
      called := called w |}).
Proof. reflexivity. Qed.

Lemma guid_from_not_empty k : guid_from H k <> "".
Proof.
  unfold guid_from. generalize (digits_of H k), (digits_of H (1 + k)).
  intros a b. by destruct a, b.
Qed.

(** [create] for a model that has an id. *)
Lemma create_with_id this model store w :
  stores w !! this = Some store ->
  lacks_id (id model) = false ->
  create H this model w =
  let store' := {| name := name store; serializer := serializer store;
                   records := records store ++ [Id_concat H (id model)] |} in
  (match deserialize (serializer store)
           (Some (serialize (serializer store) model)) with
   | Returned data => Returned (model, data)
   | Thrown e => Thrown e
   end,
   {| items := <[name store := join "," (records store')]>
                 (<[_itemName H store (id model) :=
                      serialize (serializer store) model]> (items w));
      stores := <[this := store']> (stores w);
      drawn := drawn w; called := called w |}).
Proof.
  intros Hs Hid. unfold create. rewrite Hid.
  assert (Id_toString H (id model) = Returned (Id_concat H (id model))) as Hstr
    by (by destruct (id model)).
  unfold save, find. js_run Hs. rewrite Hstr. js_run Hs.
  change (_itemName H {| name := name store; serializer := serializer store;
                       records := records store ++ [Id_concat H (id model)] |}
            (id model)) with (_itemName H store (id model)).
  rewrite lookup_insert_ne by apply not_eq_sym, itemName_not_name.
  rewrite lookup_insert_eq.
  by destruct (deserialize _ _).
Qed.

(** [create] for a model that has no id: the model gets a [guid] and
    goes on as a model that has one. *)
Lemma create_assigns_id this model w :
  lacks_id (id model) = true ->
  create H this model w =
  create H this (assign_id (guid_from H (drawn w)) model)
    {| items := items w; stores := stores w; drawn := 8 + drawn w;
       called := called w |}.
Proof.
  intros Hid. unfold create at 1. rewrite Hid.
  rewrite !js_bind_eq, guid_eq. cbn [mret Js_ret ret].
  unfold create. cbn [id assign_id lacks_id].
  destruct (String.eqb_spec (guid_from H (drawn w)) "") as [He | _];
    [by apply guid_from_not_empty in He |].
  by rewrite js_bind_eq.
Qed.

(** X17: when [create] returns, [find] returns the same data for the
    created model.  The created model has an id: its own, or else a fresh
    [guid]; that id is listed last in [records]; the serialized model is
    stored under [name-id], and the list of records under [name]. *)
Theorem find_after_create this model store w model' data w' :
  stores w !! this = Some store ->
  create H this model w = (Returned (model', data), w') ->
  find H this model' w' = (Returned data, w') /\
  lacks_id (id model') = false /\
  model' = (if lacks_id (id model)
            then assign_id (guid_from H (drawn w)) model else model) /\
  records_at this w' = records store ++ [Id_concat H (id model')] /\
  items w' !! _itemName H store (id model') =
    Some (serialize (serializer store) model') /\
  items w' !! name store = Some (join "," (records_at this w')).
Proof.
  intros Hs Hcreate.
  assert (exists w0,
    stores w0 !! this = Some store /\
    lacks_id (id model') = false /\
    model' = (if lacks_id (id model)
              then assign_id (guid_from H (drawn w)) model else model) /\
    create H this model' w0 = (Returned (model', data), w'))
    as (w0 & Hs0 & Hid' & Hmodel & Hc0).
  { destruct (lacks_id (id model)) eqn:Hid.
    - rewrite (create_assigns_id _ _ _ Hid) in Hcreate.
      set (m1 := assign_id _ model) in *. set (w1 := Build_World _ _ _ _) in *.
      assert (lacks_id (id m1) = false) as Hid1.
      { cbn. destruct (String.eqb_spec (guid_from H (drawn w)) "") as [He | _];
          [by apply guid_from_not_empty in He | done]. }
      rewrite (create_with_id this m1 store w1 Hs Hid1) in Hcreate.
      cbv zeta in Hcreate.
      destruct (deserialize _ _) as [data1 |] eqn:Hd; [| done].
      injection Hcreate as <- <- <-.
      exists w1. split_and!; try done.
      rewrite (create_with_id this m1 store w1 Hs Hid1). cbv zeta.
      by rewrite Hd.
    - pose proof Hcreate as Hc.
      rewrite (create_with_id this model store w Hs Hid) in Hc. cbv zeta in Hc.
      destruct (deserialize _ _) as [data1 |] eqn:Hd; [| done].
      injection Hc as <- <- <-. by exists w. }
  clear Hcreate.
  rewrite (create_with_id this model' store w0 Hs0 Hid') in Hc0. cbv zeta in Hc0.
  destruct (deserialize _ _) as [data1 |] eqn:Hd; [| done].
  injection Hc0 as <- <-.
  unfold records_at, store_at. cbn [stores items].
  rewrite lookup_insert_eq. cbn [records].
  rewrite lookup_insert_eq.
  rewrite lookup_insert_ne by apply not_eq_sym, itemName_not_name.
  rewrite lookup_insert_eq.
  split_and!; try done.
  unfold find. js_run Hs0.
  change (_itemName H {| name := name store; serializer := serializer store;
                       records := records store ++ [Id_concat H (id model')] |}
            (id model')) with (_itemName H store (id model')).
  rewrite lookup_insert_ne by apply not_eq_sym, itemName_not_name.
  rewrite lookup_insert_eq. by rewrite Hd.
Qed.

Lemma contains_from_spec i array item :
  contains_from i array item = true <->
  exists j, (j < i)%nat /\ array !! j = Some item.
Proof.
  induction i as [| i IH]; cbn [contains_from].
  { split; [done | intros (j & Hj & _); lia]. }
  destruct (array !! i) as [x |] eqn:Hx.
  - destruct (String.eqb_spec x item) as [-> | Hne].
    + split; [intros _; exists i; split; [lia | done] | done].
    + rewrite IH. split; intros (j & Hj & Hl).
      * exists j. split; [lia | done].
      * exists j. split; [| done].
        destruct (decide (j = i)) as [-> | ?]; [congruence | lia].
  - rewrite IH. split; intros (j & Hj & Hl).
    + exists j. split; [lia | done].
    + exists j. split; [| done].
      destruct (decide (j = i)) as [-> | ?]; [congruence | lia].
Qed.

(** [contains] is membership. *)
Lemma contains_spec array item :
  contains array item = true <-> item ∈ array.
Proof.
  unfold contains. rewrite contains_from_spec, list_elem_of_lookup.
  split; [intros (j & _ & Hj); by exists j |].
  intros (j & Hj). exists j. split; [by eapply lookup_lt_Some | done].
Qed.

Lemma Id_toString_defined id :
  Id_defined id = true -> Id_toString H id = Returned (Id_concat H id).
Proof. by destruct id. Qed.

Lemma update_eq this model store w :
  stores w !! this = Some store ->
  Id_defined (id model) = true ->
  update H this model w =
  let modelId := Id_concat H (id model) in
  let listed := contains (records store) modelId in
  let records' := if listed then records store else records store ++ [modelId] in
  let written :=
    <[_itemName H store (id model) := serialize (serializer store) model]>
      (items w) in
  (deserialize (serializer store) (Some (serialize (serializer store) model)),
   {| items := if listed then written
               else <[name store := join "," records']> written;
      stores := if listed then stores w
                else <[this := {| name := name store;
                                  serializer := serializer store;
                                  records := records' |}]> (stores w);
      drawn := drawn w; called := called w |}).
Proof.
  intros Hs Hid. unfold update. js_run Hs.
  rewrite (Id_toString_defined _ Hid). js_run Hs. cbv zeta.
  destruct (contains (records store) (Id_concat H (id model))); cbn [negb].
  - unfold find. js_run Hs. by destruct (deserialize _ _).
  - unfold save, find. js_run Hs.
    change (_itemName H {| name := name store; serializer := serializer store;
                         records := records store ++ [Id_concat H (id model)] |}
              (id model)) with (_itemName H store (id model)).
    rewrite lookup_insert_ne by apply not_eq_sym, itemName_not_name.
    rewrite lookup_insert_eq. by destruct (deserialize _ _).
Qed.

(** X18: [update] stores the serialized model under [name-id] and lists
    the id once: an id that is listed already is not listed again, so
    records without duplicates stay so, and a second [update] of the same
    model leaves the records as they are. *)
Theorem update_lists_the_id_once this model store w :
  stores w !! this = Some store ->
  Id_defined (id model) = true ->
  let w' := (update H this model w).2 in
  records_at this w' =
    (if bool_decide (Id_concat H (id model) ∈ records store)
     then records store else records store ++ [Id_concat H (id model)]) /\
  (NoDup (records store) -> NoDup (records_at this w')) /\
  items w' !! _itemName H store (id model) =
    Some (serialize (serializer store) model) /\
  records_at this (update H this model w').2 = records_at this w'.
Proof.
  intros Hs Hid w'. subst w'. rewrite (update_eq _ _ _ _ Hs Hid). cbv zeta.
  cbn [snd]. set (modelId := Id_concat H (id model)).
  destruct (contains (records store) modelId) eqn:Hc.
  - apply contains_spec in Hc as Hin. rewrite bool_decide_eq_true_2 by done.
    unfold records_at, store_at. cbn [stores items]. rewrite Hs.
    rewrite lookup_insert_eq. split_and!; try done.
    set (w1 := Build_World _ _ _ _).
    rewrite (update_eq this model store w1 Hs Hid). cbv zeta. fold modelId.
    rewrite Hc. cbn [snd stores w1]. by rewrite Hs.
  - assert (modelId ∉ records store) as Hnotin.
    { intros Hin. apply contains_spec in Hin. congruence. }
    rewrite bool_decide_eq_false_2 by done.
    unfold records_at, store_at. cbn [stores items].
    rewrite lookup_insert_eq. cbn [records].
    rewrite lookup_insert_ne by apply not_eq_sym, itemName_not_name.
    rewrite lookup_insert_eq. split_and!; try done.
    + intros Hnd. apply NoDup_app. split_and!; [done | | apply NoDup_singleton].
      intros x Hx Hx'. apply list_elem_of_singleton in Hx' as ->. done.
    + set (store1 := Build_Store _ _ _). set (w1 := Build_World _ _ _ _).
      assert (stores w1 !! this = Some store1) as Hs1
        by (subst w1; cbn; by rewrite lookup_insert_eq).
      rewrite (update_eq this model store1 w1 Hs1 Hid). cbv zeta.
      fold modelId.
      assert (contains (records store1) modelId = true) as ->.
      { apply contains_spec. subst store1. cbn. apply elem_of_app. right.
        by apply list_elem_of_singleton. }
      cbn [snd stores]. by rewrite Hs1.
Qed.

(** The loop of [destroy], with turns enough to reach the end of the
    array. *)
Lemma splice_matches_eq turns modelId i (l : list string) :
  (length l - i <= turns)%nat ->
  splice_matches turns modelId i l =
  take i l ++ after_splices modelId (drop i l).
Proof.
  revert i l. induction turns as [| turns IH]; intros i l Hturns.
  { cbn. rewrite drop_ge by lia. cbn. rewrite app_nil_r, take_ge by lia. done. }
  cbn [splice_matches].
  destruct (l !! i) as [x |] eqn:Hx.
  2:{ apply lookup_ge_None in Hx. rewrite drop_ge by lia. cbn.
      by rewrite app_nil_r, take_ge by lia. }
  pose proof (lookup_lt_Some _ _ _ Hx) as Hi.
  rewrite (drop_S _ _ _ Hx). cbn [after_splices].
  destruct (String.eqb x modelId).
  - rewrite IH by (rewrite length_delete by (by eexists); lia).
    rewrite delete_take_drop.
    assert (length (take i l) = i) as Hlen by (rewrite length_take; lia).
    rewrite take_app_ge, drop_app_ge by lia. rewrite Hlen.
    replace (S i - i)%nat with 1%nat by lia.
    destruct (drop (S i) l) as [| y l'']; cbn; [by rewrite !app_nil_r |].
    by rewrite drop_0, <- app_assoc.
  - rewrite IH by lia. rewrite (take_S_r _ _ _ Hx), <- app_assoc. done.
Qed.

Lemma after_splices_NoDup modelId (l : list string) :
  NoDup l ->
  after_splices modelId l = List.filter (fun x => negb (String.eqb x modelId)) l.
Proof.
  assert (forall l : list string, modelId ∉ l ->
            List.filter (fun x => negb (String.eqb x modelId)) l = l) as Hid.
  { intros k. induction k as [| x k IH]; [done |]. intros Hnotin.
    apply not_elem_of_cons in Hnotin as [Hne Hnotin]. cbn.
    destruct (String.eqb_spec x modelId); [done |]. cbn. by rewrite IH. }
  assert (forall l : list string, modelId ∉ l -> after_splices modelId l = l)
    as Hid'.
  { intros k. induction k as [| x k IH]; [done |]. intros Hnotin.
    apply not_elem_of_cons in Hnotin as [Hne Hnotin]. cbn.
    destruct (String.eqb_spec x modelId); [done |]. by rewrite IH. }
  induction 1 as [| x l Hx Hnd IH]; [done |]. cbn.
  destruct (String.eqb_spec x modelId) as [-> | _]; cbn; [| by rewrite IH].
  rewrite (Hid l Hx). destruct l as [| y l'']; [done |].
  apply not_elem_of_cons in Hx as [_ Hx]. by rewrite (Hid' l'' Hx).
Qed.

Lemma destroy_eq this model store w :
  stores w !! this = Some store ->
  Id_defined (id model) = true ->
  destroy H this model w =
  let records' := after_splices (Id_concat H (id model)) (records store) in
  (Returned model,
   {| items := <[name store := join "," records']>
                 (delete (_itemName H store (id model)) (items w));
      stores := <[this := {| name := name store;
                             serializer := serializer store;
                             records := records' |}]> (stores w);
      drawn := drawn w; called := called w |}).
Proof.
  intros Hs Hid. unfold destroy. js_run Hs.
  rewrite (Id_toString_defined _ Hid). unfold save. js_run Hs.
  rewrite splice_matches_eq by lia. by rewrite take_0, drop_0.
Qed.

(** X19: in a store whose records hold no duplicates, [destroy] returns
    the model, removes its item, takes its id off the records (the others
    keep their order) and saves the records; [find] then gets what the
    serializer makes of [null]. *)
Theorem destroy_unlists_the_id this model store w :
  stores w !! this = Some store ->
  Id_defined (id model) = true ->
  NoDup (records store) ->
  let r := destroy H this model w in
  r.1 = Returned model /\
  records_at this r.2 =
    List.filter (fun x => negb (String.eqb x (Id_concat H (id model))))
      (records store) /\
  (Id_concat H (id model) ∉ records_at this r.2) /\
  items r.2 !! _itemName H store (id model) = None /\
  items r.2 !! name store = Some (join "," (records_at this r.2)) /\
  find H this model r.2 = (deserialize (serializer store) None, r.2).
Proof.
  intros Hs Hid Hnd r. subst r. rewrite (destroy_eq _ _ _ _ Hs Hid). cbv zeta.
  cbn [fst snd]. unfold records_at, store_at. cbn [stores items].
  rewrite !lookup_insert_eq. cbn [records].
  rewrite lookup_insert_ne by apply not_eq_sym, itemName_not_name.
  rewrite lookup_delete_eq, (after_splices_NoDup _ _ Hnd).
  split_and!; try done.
  - intros Hin. apply list_elem_of_In, List.filter_In in Hin as [_ Hin].
    by rewrite String.eqb_refl in Hin.
  - unfold find. set (w' := Build_World _ _ _ _).
    assert (stores w' !! this = Some (Build_Store (name store) (serializer store)
              (List.filter (fun x => negb (String.eqb x (Id_concat H (id model))))
                 (records store)))) as Hs'
      by (subst w'; cbn; by rewrite lookup_insert_eq).
    js_run Hs'. subst w'. cbn [items].
    change (_itemName H (Build_Store _ _ _) (id model))
      with (_itemName H store (id model)).
    rewrite lookup_insert_ne by apply not_eq_sym, itemName_not_name.
    by rewrite lookup_delete_eq.
Qed.

(** Of two entries equal to [modelId] in a row, the loop of [destroy]
    leaves one. *)
Lemma after_splices_adjacent modelId (l1 l2 : list string) :
  modelId ∈ after_splices modelId (l1 ++ modelId :: modelId :: l2).
Proof.
  remember (length l1) as n eqn:Hn. revert l1 Hn.
  induction (lt_wf n) as [n _ IH]. intros l1 ->.
  destruct l1 as [| x l1].
  { cbn. rewrite String.eqb_refl. left. }
  cbn [app after_splices].
  destruct (String.eqb_spec x modelId) as [-> | Hne].
  - destruct l1 as [| y l1]; cbn [app]; [left |].
    right. apply (IH (length l1)); [cbn; lia | done].
  - right. apply (IH (length l1)); [cbn; lia | done].
Qed.

(** X20: [create] lists the id of a model even when it is listed already,
    and the loop of [destroy] passes over the entry that follows the one it
    splices out: after two [create] and one [destroy] of the same model,
    its item is gone but its id is still among the records. *)
Theorem repeated_create_leaves_a_stale_record
    this model store w m1 d1 w1 m2 d2 w2 :
  stores w !! this = Some store ->
  lacks_id (id model) = false ->
  create H this model w = (Returned (m1, d1), w1) ->
  create H this m1 w1 = (Returned (m2, d2), w2) ->
  let r := destroy H this m2 w2 in
  r.1 = Returned model /\
  Id_concat H (id model) ∈ records_at this r.2 /\
  items r.2 !! _itemName H store (id model) = None.
Proof.
  intros Hs Hid Hc1 Hc2 r. subst r.
  pose (modelId := Id_concat H (id model)).
  pose (store1 := {| name := name store; serializer := serializer store;
                     records := records store ++ [modelId] |}).
  pose (store2 := {| name := name store; serializer := serializer store;
                     records := records store1 ++ [modelId] |}).
  rewrite (create_with_id _ _ _ _ Hs Hid) in Hc1. cbv zeta in Hc1.
  destruct (deserialize _ _) as [data |] eqn:Hd; [| done].
  injection Hc1 as Hm1 _ Hw1. subst m1.
  assert (stores w1 !! this = Some store1) as Hs1
    by (rewrite <- Hw1; cbn; by rewrite lookup_insert_eq).
  rewrite (create_with_id _ _ _ _ Hs1 Hid) in Hc2. cbv zeta in Hc2.
  cbn [serializer store1] in Hc2. rewrite Hd in Hc2.
  injection Hc2 as Hm2 _ Hw2. subst m2.
  assert (stores w2 !! this = Some store2) as Hs2
    by (rewrite <- Hw2; cbn; by rewrite lookup_insert_eq).
  assert (Id_defined (id model) = true) as Hdef
    by (destruct (id model); done).
  rewrite (destroy_eq _ _ _ _ Hs2 Hdef). cbv zeta. cbn [fst snd].
  unfold records_at, store_at. cbn [stores items].
  rewrite lookup_insert_eq. cbn [records store2 store1].
  split_and!; [done | |].
  - rewrite <- app_assoc. cbn [app]. apply after_splices_adjacent.
  - change (_itemName H store2 (id model)) with (_itemName H store (id model)).
    rewrite lookup_insert_ne
      by apply not_eq_sym, (itemName_not_name store (id model)).
    by rewrite lookup_delete_eq.
Qed.

Lemma call_if_eq (b : bool) c w :
  (if b then call c else mret tt) w =
  (Returned tt,
   {| items := items w; stores := stores w; drawn := drawn w;
      called := called w ++ (if b then [c] else []) |}).
Proof. destruct b; cbn; [done |]. rewrite app_nil_r. by destruct w. Qed.

(** X21: [localSync] "read" of a model that has an id resolves with what
    [find] returns only when that is truthy; for [null] (no such item) and
    for every other falsy value it rejects with the Error "Record Not
    Found: ...", after calling [options.error] with that message.
    [options.complete] is called last in both cases, and neither the items
    nor the stores are changed. *)
Theorem read_resolves_truthy_data_only this model store options data w :
  store_of model = Some this ->
  stores w !! this = Some store ->
  Id_defined (id model) = true ->
  deserialize (serializer store) (items w !! _itemName H store (id model)) =
    Returned data ->
  let legacy := String.eqb (VERSION H) "0.9.10" in
  let errorMessage :=
    "Record Not Found: " +:+ Property_concat (localStorage model) +:+ ":" +:+
    Id_concat H (id model) in
  localSync H "read" model options w =
  (Returned (model,
             if truthy data then Resolved (RespData data)
             else Rejected (Error errorMessage)),
   {| items := items w; stores := stores w; drawn := drawn w;
      called :=
        called w ++
        (if truthy data
         then if has options success then [OnSuccess legacy (RespData data)]
              else []
         else if has options error then [OnError legacy errorMessage]
              else []) ++
        (if has options complete then [OnComplete (RespData data)] else []) |}).
Proof.
  intros Hstore Hs Hid Hdata legacy errorMessage.
  unfold localSync. rewrite Hstore. cbn [String.eqb Ascii.eqb Bool.eqb].
  rewrite Hid. cbv zeta. unfold find. js_run Hs. rewrite Hdata. js_run Hs.
  cbn [Resp_truthy]. fold legacy. fold errorMessage.
  destruct (truthy data).
  - rewrite !js_bind_eq, call_if_eq. js_run Hs. rewrite call_if_eq. js_run Hs.
    by rewrite <- app_assoc.
  - rewrite !js_bind_eq, call_if_eq. js_run Hs. rewrite call_if_eq. js_run Hs.
    by rewrite <- app_assoc.
Qed.

(** X22: [localSync] "delete" of a model that has an id resolves with the
    model, whether or not an item was stored for it: the item is gone
    afterwards, and [options.success] and then [options.complete] are
    called with the model. *)
Theorem delete_always_resolves this model store options w :
  store_of model = Some this ->
  stores w !! this = Some store ->
  Id_defined (id model) = true ->
  let legacy := String.eqb (VERSION H) "0.9.10" in
  let r := localSync H "delete" model options w in
  r.1 = Returned (model, Resolved (RespModel model)) /\
  items r.2 !! _itemName H store (id model) = None /\
  called r.2 =
    called w ++
    (if has options success then [OnSuccess legacy (RespModel model)] else []) ++
    (if has options complete then [OnComplete (RespModel model)] else []).
Proof.
  intros Hstore Hs Hid legacy r. subst r.
  unfold localSync. rewrite Hstore. cbn [String.eqb Ascii.eqb Bool.eqb].
  cbv zeta. rewrite js_bind_eq, js_bind_eq, (destroy_eq _ _ _ _ Hs Hid).
  cbv zeta. js_run Hs. cbn [Resp_truthy]. fold legacy.
  rewrite !js_bind_eq, call_if_eq. js_run Hs. rewrite call_if_eq. js_run Hs.
  rewrite lookup_insert_ne by apply not_eq_sym, itemName_not_name.
  rewrite lookup_delete_eq. by rewrite <- app_assoc.
Qed.

(** A hexadecimal digit is no comma. *)
Lemma hex_digit_comma_free d r :
  0 <= d < 16 ->
  comma_free (String (hex_digit d) r) = comma_free r.
Proof.
  intros Hd.
  assert (d = 0 \/ d = 1 \/ d = 2 \/ d = 3 \/ d = 4 \/ d = 5 \/ d = 6 \/ d = 7 \/
          d = 8 \/ d = 9 \/ d = 10 \/ d = 11 \/ d = 12 \/ d = 13 \/ d = 14 \/
          d = 15) as Hcases by lia.
  repeat destruct Hcases as [-> | Hcases]; try subst d; reflexivity.
Qed.

(** [S4] makes four hexadecimal digits of a number from 0x10000 to
    0x20000. *)
Lemma digits_of_shape k :
  65536 <= random_word H k <= 131072 ->
  String.length (digits_of H k) = 4%nat /\
  forall r, comma_free (digits_of H k +:+ r) = comma_free r.
Proof.
  intros Hn. unfold digits_of, toString_16.
  set (n := random_word H k) in *.
  assert (16 <= Z.log2 n) as Hlog
    by (change 16 with (Z.log2 65536); apply Z.log2_le_mono; lia).
  destruct (Z.to_nat (Z.log2 n)) as [| [| [| [| fuel]]]] eqn:Hfuel; try lia.
  clear Hfuel Hlog.
  assert (exists d4 d3 d2 d1 d0,
    (0 <= d4 < 16 /\ 0 <= d3 < 16 /\ 0 <= d2 < 16 /\ 0 <= d1 < 16 /\
     0 <= d0 < 16) /\
    toString_16_digits (S (S (S (S fuel)))) n "" =
    String (hex_digit d4) (String (hex_digit d3) (String (hex_digit d2)
      (String (hex_digit d1) (String (hex_digit d0) ""))))) as
    (d4 & d3 & d2 & d1 & d0 & (H4 & H3 & H2 & H1 & H0) & ->).
  { exists (n / 16 / 16 / 16 / 16 mod 16), (n / 16 / 16 / 16 mod 16),
      (n / 16 / 16 mod 16), (n / 16 mod 16), (n mod 16).
    split; [repeat split; apply Z.mod_pos_bound; lia |].
    assert (4096 <= n / 16 <= 8192) as Hn1
      by (split; [apply Z.div_le_lower_bound | apply Z.div_le_upper_bound]; lia).
    assert (256 <= n / 16 / 16 <= 512) as Hn2
      by (split; [apply Z.div_le_lower_bound | apply Z.div_le_upper_bound]; lia).
    assert (16 <= n / 16 / 16 / 16 <= 32) as Hn3
      by (split; [apply Z.div_le_lower_bound | apply Z.div_le_upper_bound]; lia).
    assert (1 <= n / 16 / 16 / 16 / 16 <= 2) as Hn4
      by (split; [apply Z.div_le_lower_bound | apply Z.div_le_upper_bound]; lia).
    assert (n / 16 / 16 / 16 / 16 / 16 = 0) as Hn5
      by (apply Z.div_small; lia).
    cbn [toString_16_digits].
    destruct (Z.eqb_spec (n / 16) 0) as [? | _]; [lia |].
    destruct (Z.eqb_spec (n / 16 / 16) 0) as [? | _]; [lia |].
    destruct (Z.eqb_spec (n / 16 / 16 / 16) 0) as [? | _]; [lia |].
    destruct (Z.eqb_spec (n / 16 / 16 / 16 / 16) 0) as [? | _]; [lia |].
    destruct fuel; cbn [toString_16_digits]; [done |].
    by rewrite Hn5. }
  cbn [substring_1 String.length]. split; [done |]. intros r.
  rewrite !append_cons, append_nil.
  by rewrite !hex_digit_comma_free.
Qed.

Lemma append_empty (s : string) : s +:+ "" = s.
Proof. induction s as [| c s IH]; [done |]. by rewrite append_cons, IH. Qed.

Lemma four_characters (s : string) :
  String.length s = 4%nat ->
  exists a b c d, s = String a (String b (String c (String d ""))).
Proof.
  destruct s as [| a [| b [| c [| d [| e s]]]]]; try done.
  intros _. by exists a, b, c, d.
Qed.

(** X23: [guid] draws eight random numbers and returns 36 characters,
    with "-" at the indices 8, 13, 18 and 23; the result holds no comma (it
    can be listed in the records of a store) and counts as an id. *)
Theorem guid_is_well_formed w :
  (forall k, 65536 <= random_word H k <= 131072) ->
  exists g,
    guid H w =
      (Returned g,
       {| items := items w; stores := stores w; drawn := 8 + drawn w;
          called := called w |}) /\
    String.length g = 36%nat /\
    String.get 8 g = Some "-"%char /\
    String.get 13 g = Some "-"%char /\
    String.get 18 g = Some "-"%char /\
    String.get 23 g = Some "-"%char /\
    comma_free g = true /\
    lacks_id (IdStr g) = false.
Proof.
  intros Hrandom. exists (guid_from H (drawn w)). split; [apply guid_eq |].
  assert (comma_free (guid_from H (drawn w)) = true) as Hfree.
  { unfold guid_from.
    repeat first
      [ rewrite (proj2 (digits_of_shape _ (Hrandom _)))
      | rewrite append_cons
      | progress cbn [comma_free String.eqb Ascii.eqb Bool.eqb negb andb]
      | rewrite append_nil ].
    pose proof (proj2 (digits_of_shape _ (Hrandom (7 + drawn w)%nat)) "") as Hlast.
    by rewrite append_empty in Hlast. }
  split_and!; try done.
  6:{ unfold lacks_id.
      destruct (String.eqb_spec (guid_from H (drawn w)) "") as [He | _];
        [by apply guid_from_not_empty in He | done]. }
  all: unfold guid_from.
  all: destruct (four_characters _ (proj1 (digits_of_shape _ (Hrandom (drawn w)))))
         as (a0 & b0 & c0 & d0 & ->).
  all: destruct (four_characters _
                   (proj1 (digits_of_shape _ (Hrandom (1 + drawn w)%nat))))
         as (a1 & b1 & c1 & d1 & ->).
  all: destruct (four_characters _
                   (proj1 (digits_of_shape _ (Hrandom (2 + drawn w)%nat))))
         as (a2 & b2 & c2 & d2 & ->).
  all: destruct (four_characters _
                   (proj1 (digits_of_shape _ (Hrandom (3 + drawn w)%nat))))
         as (a3 & b3 & c3 & d3 & ->).
  all: destruct (four_characters _
                   (proj1 (digits_of_shape _ (Hrandom (4 + drawn w)%nat))))
         as (a4 & b4 & c4 & d4 & ->).
  all: destruct (four_characters _
                   (proj1 (digits_of_shape _ (Hrandom (5 + drawn w)%nat))))
         as (a5 & b5 & c5 & d5 & ->).
  all: destruct (four_characters _
                   (proj1 (digits_of_shape _ (Hrandom (6 + drawn w)%nat))))
         as (a6 & b6 & c6 & d6 & ->).
  all: destruct (four_characters _
                   (proj1 (digits_of_shape _ (Hrandom (7 + drawn w)%nat))))
         as (a7 & b7 & c7 & d7 & ->).
  all: reflexivity.
Qed.

End Store.

(** X16 at work: the records [a] and [b] of the store [books]. *)
Lemma saved_records_are_read_back_witness :
  records_at 1
    (Backbone.LocalStorage plain_host 1 "books" None
       (Backbone.save 0 shelf).2).2 = ["a"; "b"].
Proof.
  apply (saved_records_are_read_back plain_host 0 1 books None shelf).
  - reflexivity.
  - by repeat constructor.
  - discriminate.
Defined.

(** X17 at work: a book with the id [c] is created. *)
Lemma find_after_create_witness :
  exists model' data w',
    Backbone.create plain_host 0 (book (Backbone.IdStr "c")) shelf =
      (Backbone.Returned (model', data), w') /\
    Backbone.find plain_host 0 model' w' = (Backbone.Returned data, w').
Proof.
  destruct (Backbone.create plain_host 0 (book (Backbone.IdStr "c")) shelf)
    as [[[model' data] | e] w'] eqn:Hcreate.
  - exists model', data, w'. split; [reflexivity |].
    apply (find_after_create plain_host 0 (book (Backbone.IdStr "c")) books
             shelf model' data w' eq_refl Hcreate).
  - vm_compute in Hcreate. discriminate Hcreate.
Defined.

(** X18 at work: [a] is listed already; [c] and the number 7 are not. *)
Lemma update_lists_the_id_once_witness :
  records_at 0
    (Backbone.update plain_host 0 (book (Backbone.IdStr "a")) shelf).2 =
    ["a"; "b"] /\
  records_at 0
    (Backbone.update plain_host 0 (book (Backbone.IdStr "c")) shelf).2 =
    ["a"; "b"; "c"] /\
  records_at 0
    (Backbone.update plain_host 0 (book (Backbone.IdNum 7)) shelf).2 =
    ["a"; "b"; "7"].
Proof.
  split_and!.
  - apply (update_lists_the_id_once plain_host 0 (book (Backbone.IdStr "a"))
             books shelf eq_refl eq_refl).
  - apply (update_lists_the_id_once plain_host 0 (book (Backbone.IdStr "c"))
             books shelf eq_refl eq_refl).
  - apply (update_lists_the_id_once plain_host 0 (book (Backbone.IdNum 7))
             books shelf eq_refl eq_refl).
Defined.

(** X19 at work: the book [a] is destroyed. *)
Lemma destroy_unlists_the_id_witness :
  records_at 0
    (Backbone.destroy plain_host 0 (book (Backbone.IdStr "a")) shelf).2 = ["b"].
Proof.
  apply (destroy_unlists_the_id plain_host 0 (book (Backbone.IdStr "a")) books
           shelf eq_refl eq_refl).
  apply NoDup_cons_2; [| apply NoDup_singleton].
  intros Hin%list_elem_of_singleton. discriminate Hin.
Defined.

(** X20 at work: the book [c] is created twice and destroyed once. *)
Lemma repeated_create_leaves_a_stale_record_witness :
  exists m1 d1 w1 m2 d2 w2,
    Backbone.create plain_host 0 (book (Backbone.IdStr "c")) shelf =
      (Backbone.Returned (m1, d1), w1) /\
    Backbone.create plain_host 0 m1 w1 = (Backbone.Returned (m2, d2), w2) /\
    "c" ∈ records_at 0 (Backbone.destroy plain_host 0 m2 w2).2 /\
    Backbone.items (Backbone.destroy plain_host 0 m2 w2).2 !! "books-c" = None.
Proof.
  destruct (Backbone.create plain_host 0 (book (Backbone.IdStr "c")) shelf)
    as [[[m1 d1] | e] w1] eqn:Hc1;
    [| vm_compute in Hc1; discriminate Hc1].
  destruct (Backbone.create plain_host 0 m1 w1) as [[[m2 d2] | e] w2] eqn:Hc2.
  2:{ vm_compute in Hc1. injection Hc1 as <- <- <-.
      vm_compute in Hc2. discriminate Hc2. }
  exists m1, d1, w1, m2, d2, w2. split; [reflexivity |]. split; [exact Hc2 |].
  destruct (repeated_create_leaves_a_stale_record plain_host 0
              (book (Backbone.IdStr "c")) books shelf m1 d1 w1 m2 d2 w2
              eq_refl eq_refl Hc1 Hc2) as (_ & Hlisted & Hgone).
  split; [exact Hlisted | exact Hgone].
Defined.

(** X21 at work: [b] is listed, but has no item. *)
Lemma read_resolves_truthy_data_only_witness :
  (Backbone.localSync plain_host "read" (book (Backbone.IdStr "b"))
     (Some all_callbacks) shelf).1 =
  Backbone.Returned
    (book (Backbone.IdStr "b"),
     Backbone.Rejected (Backbone.Error "Record Not Found: [object Object]:b")).
Proof.
  by rewrite (read_resolves_truthy_data_only plain_host 0
                (book (Backbone.IdStr "b")) books (Some all_callbacks)
                Backbone.VNull shelf eq_refl eq_refl eq_refl eq_refl).
Defined.

(** X22 at work: [c] was never stored. *)
Lemma delete_always_resolves_witness :
  (Backbone.localSync plain_host "delete" (book (Backbone.IdStr "c"))
     (Some all_callbacks) shelf).1 =
  Backbone.Returned
    (book (Backbone.IdStr "c"),
     Backbone.Resolved (Backbone.RespModel (book (Backbone.IdStr "c")))).
Proof.
  apply (delete_always_resolves plain_host 0 (book (Backbone.IdStr "c")) books
           (Some all_callbacks) shelf eq_refl eq_refl eq_refl).
Defined.

(** X23 at work, on the random numbers of the small host. *)
Lemma guid_is_well_formed_witness :
  exists g,
    (Backbone.guid plain_host shelf).1 = Backbone.Returned g /\
    String.length g = 36%nat /\ comma_free g = true.
Proof.
  destruct (guid_is_well_formed plain_host shelf)
    as (g & Hg & Hlen & _ & _ & _ & _ & Hfree & _).
  - intros k. cbn [Backbone.random_word plain_host].
    pose proof (Z.mod_pos_bound (Z.of_nat k) 65536). lia.
  - exists g. rewrite Hg. by split_and!.
Defined.
